(** * LatestNews: the news pipeline of the India generation dashboard

    A shallow embedding of [src/LatestNews.tsx]: the relevance predicate,
    the one-hour cache in [localStorage], the RSS fetcher and parser, the
    date-range view and the [load] orchestrator, with the properties the
    specification states about them.

    Conventions.
    - A JavaScript string is a [string] (a sequence of 8-bit code units);
      ASCII text is represented exactly.
    - A time value is an integer number of milliseconds since the epoch
      ([Z]); [NaN] is [None].
    - An exception is an explicit outcome [Throw e]; [try]/[catch]/[finally]
      are combinators on computations over the browser state.
    - The browser state says which writes its storage takes: a
      [localStorage.setItem] that it refuses throws. *)

From Stdlib Require Import ZArith Ascii String List Permutation Sorted Lia Bool.
From Stdlib Require Import DecimalString DecimalFacts DecimalPos DecimalZ OrderedTypeEx.
From Stdlib Require DecimalNat.
From stdpp Require Import gmap strings.

Import ListNotations.
Open Scope string_scope.
Open Scope Z_scope.

Set Warnings "-register-all".

#[global] Arguments String.append _ _ : simpl nomatch.

(** ** Strings *)

Module JsString.

(** [String.prototype.toLowerCase] on the ASCII letters; every other
    code unit is left as it is. *)
Definition lower_ascii (c : ascii) : ascii :=
  let n := nat_of_ascii c in
  if ((65 <=? n)%nat && (n <=? 90)%nat)%bool then ascii_of_nat (n + 32) else c.

Fixpoint toLowerCase (s : string) : string :=
  match s with
  | EmptyString => EmptyString
  | String c r => String (lower_ascii c) (toLowerCase r)
  end.

(** [hay.includes(needle)]: [needle] occurs in [hay] at some offset. *)
Fixpoint includes (hay needle : string) : bool :=
  (String.prefix needle hay
   || match hay with
      | EmptyString => false
      | String _ r => includes r needle
      end)%bool.

(** [s.slice(0, n)] for [0 <= n]. *)
Fixpoint take (n : nat) (s : string) : string :=
  match n, s with
  | O, _ => EmptyString
  | S _, EmptyString => EmptyString
  | S k, String c r => String c (take k r)
  end.

(** The declarative reading of [includes]. *)
Definition occurs_in (needle hay : string) : Prop :=
  exists a b, hay = a +:+ needle +:+ b.

(** [!s] on a string: only the empty string is falsy. *)
Definition is_empty (s : string) : bool :=
  match s with EmptyString => true | String _ _ => false end.

(** [a || d] on strings. *)
Definition or_else (a d : string) : string := if is_empty a then d else a.

(** The state of the scan that removes the matches of [/<[^>]+>/g]:
    outside a candidate tag, or inside one with the code units read since
    its [<] (the [<] included), most recent first. *)
Inductive strip_state := Outside | InTag (buf : list ascii).

Fixpoint emit_rev (buf : list ascii) (k : string) : string :=
  match buf with
  | [] => k
  | c :: r => emit_rev r (String c k)
  end.

(** [s.replace] of [/<[^>]+>/g] by the empty string: every [<], one or
    more code units other than [>], and the next [>] are removed; a [<]
    with no such completion stays. *)
Fixpoint strip_from (st : strip_state) (s : string) : string :=
  match s with
  | EmptyString =>
      match st with
      | Outside => EmptyString
      | InTag buf => emit_rev buf EmptyString
      end
  | String c r =>
      match st with
      | Outside =>
          if Ascii.eqb c "<" then strip_from (InTag [c]) r
          else String c (strip_from Outside r)
      | InTag buf =>
          if Ascii.eqb c ">" then
            match buf with
            | [_] => emit_rev buf (String c (strip_from Outside r))
            | _ => strip_from Outside r
            end
          else strip_from (InTag (c :: buf)) r
      end
  end.

Definition stripTags (s : string) : string := strip_from Outside s.

End JsString.

Import JsString.

(** ** Values, exceptions and outcomes *)

Module Js.

(** The values [JSON.parse] produces, and [undefined]. Numbers are the
    integers (epoch milliseconds are). *)
Inductive JsVal :=
| VUndefined
| VNull
| VBool (b : bool)
| VNum (n : Z)
| VStr (s : string)
| VArr (elems : list JsVal)
| VObj (fields : list (string * JsVal)).

Inductive JsError :=
| TypeError (msg : string)
| SyntaxError (msg : string)
| RangeError (msg : string)
| Error (msg : string)
| DOMException (name : string).

Inductive Outcome (A : Type) :=
| Val (a : A)
| Throw (e : JsError).

Arguments Val {A} a.
Arguments Throw {A} e.

Fixpoint assoc (k : string) (fields : list (string * JsVal)) : JsVal :=
  match fields with
  | [] => VUndefined
  | (k', v) :: r => if String.eqb k k' then v else assoc k r
  end.

(** [v.k] for a key that no prototype defines (as [ts] and [items]):
    a [TypeError] on [undefined] and [null], the own property of an
    object, [undefined] on everything else. *)
Definition getProp (v : JsVal) (k : string) : Outcome JsVal :=
  match v with
  | VUndefined | VNull => Throw (TypeError "Cannot read properties")
  | VObj fields => Val (assoc k fields)
  | _ => Val VUndefined
  end.

(** [ToBoolean]. *)
Definition truthy (v : JsVal) : bool :=
  match v with
  | VUndefined | VNull => false
  | VBool b => b
  | VNum n => negb (n =? 0)
  | VStr s => negb (is_empty s)
  | VArr _ | VObj _ => true
  end.

End Js.

Import Js.

(** ** Dates *)

Module JsDate.

Definition msPerDay : Z := 86400000.

(** Day number of a proleptic Gregorian date, day 0 being 1970-01-01. *)
Definition days_from_civil (y m d : Z) : Z :=
  let y' := if m <=? 2 then y - 1 else y in
  let era := y' / 400 in
  let yoe := y' - era * 400 in
  let mp := if 2 <? m then m - 3 else m + 9 in
  let doy := (153 * mp + 2) / 5 + d - 1 in
  let doe := yoe * 365 + yoe / 4 - yoe / 100 + doy in
  era * 146097 + doe - 719468.

(** The date of a day number. *)
Definition civil_from_days (z : Z) : Z * Z * Z :=
  let z' := z + 719468 in
  let era := z' / 146097 in
  let doe := z' - era * 146097 in
  let yoe := (doe - doe / 1460 + doe / 36524 - doe / 146096) / 365 in
  let doy := doe - (365 * yoe + yoe / 4 - yoe / 100) in
  let mp := (5 * doy + 2) / 153 in
  let d := doy - (153 * mp + 2) / 5 + 1 in
  let m := if mp <? 10 then mp + 3 else mp - 9 in
  let y := yoe + era * 400 in
  (if m <=? 2 then y + 1 else y, m, d).

Definition is_leap (y : Z) : bool :=
  ((y mod 4 =? 0) && (negb (y mod 100 =? 0) || (y mod 400 =? 0)))%bool.

Definition days_in_month (y m : Z) : Z :=
  if m =? 2 then (if is_leap y then 29 else 28)
  else if ((m =? 4) || (m =? 6) || (m =? 9) || (m =? 11))%bool then 30
  else 31.

(** The time value of a UTC date and time of day. *)
Definition utc (y m d h mi s ms : Z) : Z :=
  days_from_civil y m d * msPerDay + h * 3600000 + mi * 60000 + s * 1000 + ms.

Definition digit (n : Z) : ascii := ascii_of_N (48 + Z.to_N n).

(** The last [width] decimal digits of [n], zero padded. *)
Fixpoint pad (width : nat) (n : Z) : string :=
  match width with
  | O => EmptyString
  | S w => pad w (n / 10) +:+ String (digit (n mod 10)) EmptyString
  end.

(** [Date.prototype.toISOString] of a valid time value:
    [YYYY-MM-DDTHH:mm:ss.sssZ], the year with a sign and six digits
    outside 0..9999. *)
Definition toISOString (t : Z) : string :=
  let '(y, m, d) := civil_from_days (t / msPerDay) in
  let r := t mod msPerDay in
  let year :=
    if ((0 <=? y) && (y <=? 9999))%bool then pad 4 y
    else (if y <? 0 then "-" else "+") +:+ pad 6 (Z.abs y) in
  year +:+ "-" +:+ pad 2 m +:+ "-" +:+ pad 2 d +:+ "T"
    +:+ pad 2 (r / 3600000) +:+ ":" +:+ pad 2 (r / 60000 mod 60) +:+ ":"
    +:+ pad 2 (r / 1000 mod 60) +:+ "." +:+ pad 3 (r mod 1000) +:+ "Z".

Definition digit_val (c : ascii) : option Z :=
  let n := Z.of_N (N_of_ascii c) in
  if ((48 <=? n) && (n <=? 57))%bool then Some (n - 48) else None.

(** Reads exactly [n] decimal digits. *)
Fixpoint read_digits (n : nat) (acc : Z) (s : string) : option (Z * string) :=
  match n with
  | O => Some (acc, s)
  | S k =>
      match s with
      | EmptyString => None
      | String c r =>
          match digit_val c with
          | Some v => read_digits k (acc * 10 + v) r
          | None => None
          end
      end
  end.

Definition expect (c : ascii) (s : string) : option string :=
  match s with
  | String c' r => if Ascii.eqb c c' then Some r else None
  | EmptyString => None
  end.

(** The optional [.sss] of the time, then the [Z] that ends the string. *)
Definition read_fraction_Z (s : string) : option Z :=
  match s with
  | String "Z" EmptyString => Some 0
  | String "." r =>
      match read_digits 3 0 r with
      | Some (ms, String "Z" EmptyString) => Some ms
      | _ => None
      end
  | _ => None
  end.

(** The part of [Date.parse] that ECMAScript fixes and this program
    relies on: the date-time form [YYYY-MM-DDTHH:mm:ss(.sss)Z] with every
    field in range. Anything else is [None] here and left to the
    platform's parser. *)
Definition parse_iso_utc (s : string) : option Z :=
  '(y, s) ← read_digits 4 0 s;
  s ← expect "-" s;
  '(m, s) ← read_digits 2 0 s;
  s ← expect "-" s;
  '(d, s) ← read_digits 2 0 s;
  s ← expect "T" s;
  '(h, s) ← read_digits 2 0 s;
  s ← expect ":" s;
  '(mi, s) ← read_digits 2 0 s;
  s ← expect ":" s;
  '(sec, s) ← read_digits 2 0 s;
  ms ← read_fraction_Z s;
  if ((1 <=? m) && (m <=? 12) && (1 <=? d) && (d <=? days_in_month y m)
      && (h <=? 23) && (mi <=? 59) && (sec <=? 59))%bool
  then Some (utc y m d h mi sec ms)
  else None.

(** [TimeClip]: a time value is valid up to 8.64e15 ms either side of
    the epoch. *)
Definition timeClip (t : option Z) : option Z :=
  match t with
  | Some v => if Z.abs v <=? 8640000000000000 then Some v else None
  | None => None
  end.

(** [YYYY-MM-DD], the value of a date input. *)
Definition isoDate (y m d : Z) : string :=
  pad 4 y +:+ "-" +:+ pad 2 m +:+ "-" +:+ pad 2 d.

Definition valid_date (y m d : Z) : Prop :=
  0 <= y <= 9999 /\ 1 <= m <= 12 /\ 1 <= d <= days_in_month y m.

End JsDate.

Import JsDate.

(** ** The platform

    What the program takes from the browser: the JSON codec, the part of
    [Date.parse] that engines choose, [ToNumber] on strings and objects,
    the sort of arrays, and the XML parser together with the element
    queries of the fetcher. *)

(** An [item] element as the fetcher reads it: the [textContent] of the
    first [title], [link], [pubDate], [source] and [description] element
    under it, [None] where [querySelector] finds none. *)
Record RssItem := mkRssItem {
  el_title : option string;
  el_link : option string;
  el_pubDate : option string;
  el_source : option string;
  el_description : option string
}.

(** The document [DOMParser.parseFromString(text, "text/xml")] returns.
    On text that is not well-formed XML the parser does not throw: it
    returns a document that holds a [parsererror] element. *)
Record XmlDocument := mkXmlDocument {
  (** whether the document is such an error document *)
  parsererror : bool;
  (** [Array.from(xml.querySelectorAll("item"))], in document order *)
  item_elements : list RssItem
}.

Class Platform := {
  (** [JSON.parse]; a [SyntaxError] on text that is not JSON. *)
  JSON_parse : string -> Outcome JsVal;
  JSON_stringify : JsVal -> string;
  (** [Date.parse] on the strings [parse_iso_utc] does not cover. *)
  Date_parse_other : string -> option Z;
  (** [ToNumber] on strings, arrays and objects. *)
  ToNumber_other : JsVal -> option Z;
  (** [new DOMParser().parseFromString(text, "text/xml")]. *)
  DOM_parse : string -> XmlDocument;
  (** [l.sort(cmp)]. ECMAScript fixes the result for a comparator that is
      consistent; for any other one, as one that never returns 0 is on
      equal elements, it leaves the order to the engine. *)
  Array_sort : forall A : Type, (A -> A -> Z) -> list A -> list A
}.

Arguments Array_sort {_ A} cmp l.

(** A response of [fetch]: [res.ok] and what [res.text()] settles to. *)
Record Response := mkResponse {
  ok : bool;
  text : Outcome string
}.

(** What the network does with a request: the time it takes and whether
    [fetch] resolves or rejects. *)
Record NetReply := mkNetReply {
  elapsed : Z;
  result : Outcome Response
}.

(** ** The record type and the constants *)

Record NewsItem := mkNewsItem {
  id : string;
  title : string;
  url : string;
  source : string;
  publishedAtISO : string;
  snippet : string
}.

Definition CACHE_KEY : string := "latestNews_cache_v3".
Definition CACHE_TTL_MS : Z := 60 * 60 * 1000.
Definition DEFAULT_FROM : string := "2021-01-01".

Definition POWER_TERMS : list string :=
  [ "power"; "electricity"; "grid"; "demand"; "supply"; "peak"; "renewable";
    "solar"; "wind"; "coal"; "plf"; "transmission"; "discom"; "energy" ].


Definition ERROR_MESSAGE : string :=
  "Unable to load news – please try again later".

(** [todayISODate()] at time [now]. *)
Definition todayISODate (now : Z) : string := take 10 (toISOString now).

(** [clamp(text, n)]; the callers of this program pass a text and rely
    on the default [n = 180]. *)
Definition clamp (text : string) (n : nat) : string :=
  if (String.length text <=? n)%nat then text else take n text +:+ "…".

(** ** Relevance filter *)

(** The haystack of [isRelevant]: the template literal
    [`${item.title} ${item.snippet} ${item.source}`], lowercased. *)
Definition haystack (item : NewsItem) : string :=
  toLowerCase (title item +:+ " " +:+ snippet item +:+ " " +:+ source item).

Definition isRelevant (item : NewsItem) : bool :=
  let hay := haystack item in
  ((includes hay "india" || includes hay "indian")
   && existsb (fun t => includes hay t) POWER_TERMS)%bool.

(** ** Records as JavaScript values *)

Definition js_of_item (n : NewsItem) : JsVal :=
  VObj [ ("id", VStr (id n)); ("title", VStr (title n)); ("url", VStr (url n));
         ("source", VStr (source n));
         ("publishedAtISO", VStr (publishedAtISO n));
         ("snippet", VStr (snippet n)) ].

Definition js_of_items (l : list NewsItem) : JsVal := VArr (map js_of_item l).

Definition item_of_js (v : JsVal) : option NewsItem :=
  match v with
  | VObj fs =>
      match assoc "id" fs, assoc "title" fs, assoc "url" fs,
            assoc "source" fs, assoc "publishedAtISO" fs, assoc "snippet" fs with
      | VStr a, VStr b, VStr c, VStr d, VStr e, VStr f =>
          Some (mkNewsItem a b c d e f)
      | _, _, _, _, _, _ => None
      end
  | _ => None
  end.

Fixpoint all_items (l : list JsVal) : option (list NewsItem) :=
  match l with
  | [] => Some []
  | v :: r =>
      match item_of_js v, all_items r with
      | Some n, Some ns => Some (n :: ns)
      | _, _ => None
      end
  end.

(** The value read back as a [NewsItem[]], when it is one. *)
Definition items_of_js (v : JsVal) : option (list NewsItem) :=
  match v with
  | VArr l => all_items l
  | _ => None
  end.

(** Whether a parsed value has the structure of a cache entry: an object
    with a number [ts] and an array of records [items]. *)
Definition is_cache_entry (v : JsVal) : bool :=
  match v with
  | VObj fs =>
      match assoc "ts" fs, items_of_js (assoc "items" fs) with
      | VNum _, Some _ => true
      | _, _ => false
      end
  | _ => false
  end.

(** The object [{ ts, items }] that [saveCache] serializes. *)
Definition cache_entry (ts : Z) (l : list NewsItem) : JsVal :=
  VObj [ ("ts", VNum ts); ("items", js_of_items l) ].

(** ** The browser state and computations over it *)

(** The component state: [items], [loading], [error]. *)
Record State := mkState {
  items : JsVal;
  loading : bool;
  error : option string
}.

(** The calls a computation makes on its collaborators, in order. *)
Inductive Event :=
| CallSetLoading (b : bool)
| CallSetError (e : option string)
| CallSetItems (v : JsVal)
| CallGetItem (key : string)
| CallSetItem (key value : string)
| CallFetch (target : string).

Record World := mkWorld {
  ui : State;
  localStorage : gmap string string;
  clock : Z;
  network : string -> NetReply;
  trace : list Event;
  (** whether the browser, with the store it holds, takes a write of a
      value under a key: it refuses when the write would go over the
      quota and when the storage is disabled *)
  writable : gmap string string -> string -> string -> bool
}.

(** The phases of the specification's state machine, read off the
    component state. *)
Inductive Phase := Loading | Ready | Failed.

Definition phase (s : State) : Phase :=
  if loading s then Loading
  else match error s with Some _ => Failed | None => Ready end.

Definition M (A : Type) : Type := World -> Outcome A * World.

#[global] Instance M_ret : MRet M := fun A a w => (Val a, w).

#[global] Instance M_bind : MBind M := fun A B f m w =>
  match m w with
  | (Val a, w') => f a w'
  | (Throw e, w') => (Throw e, w')
  end.

Definition throw {A} (e : JsError) : M A := fun w => (Throw e, w).

Definition lift {A} (o : Outcome A) : M A := fun w => (o, w).

(** [try { body } catch { handler }]. *)
Definition try_catch {A} (body : M A) (handler : JsError -> M A) : M A :=
  fun w =>
    match body w with
    | (Val a, w') => (Val a, w')
    | (Throw e, w') => handler e w'
    end.

(** [try { body } finally { final }]. *)
Definition try_finally {A} (body : M A) (final : M unit) : M A :=
  fun w =>
    let '(r, w') := body w in
    match final w' with
    | (Val _, w'') => (r, w'')
    | (Throw e, w'') => (Throw e, w'')
    end.

Definition logged (e : Event) (w : World) : World :=
  mkWorld (ui w) (localStorage w) (clock w) (network w) (trace w ++ [e])
    (writable w).

Definition with_ui (s : State) (w : World) : World :=
  mkWorld s (localStorage w) (clock w) (network w) (trace w) (writable w).

Definition setLoading (b : bool) : M unit := fun w =>
  (Val tt, with_ui (mkState (items (ui w)) b (error (ui w)))
             (logged (CallSetLoading b) w)).

Definition setError (e : option string) : M unit := fun w =>
  (Val tt, with_ui (mkState (items (ui w)) (loading (ui w)) e)
             (logged (CallSetError e) w)).

Definition setItems (v : JsVal) : M unit := fun w =>
  (Val tt, with_ui (mkState v (loading (ui w)) (error (ui w)))
             (logged (CallSetItems v) w)).

Definition localStorage_getItem (key : string) : M (option string) := fun w =>
  (Val (localStorage w !! key), logged (CallGetItem key) w).

(** [localStorage.setItem(key, value)]: the value is stored, or the
    call throws a [QuotaExceededError] and the store is as before. *)
Definition localStorage_setItem (key value : string) : M unit := fun w =>
  if writable w (localStorage w) key value then
    (Val tt, mkWorld (ui w) (<[key := value]> (localStorage w)) (clock w)
               (network w) (trace w ++ [CallSetItem key value]) (writable w))
  else
    (Throw (DOMException "QuotaExceededError"),
     mkWorld (ui w) (localStorage w) (clock w)
       (network w) (trace w ++ [CallSetItem key value]) (writable w)).

Definition Date_now : M Z := fun w => (Val (clock w), w).

(** [await fetch(target)]: the reply arrives after its [elapsed] time. *)
Definition fetch (target : string) : M Response := fun w =>
  let r := network w target in
  (result r, mkWorld (ui w) (localStorage w) (clock w + elapsed r)
               (network w) (trace w ++ [CallFetch target]) (writable w)).

(** Time passing between two calls. *)
Definition later (d : Z) (w : World) : World :=
  mkWorld (ui w) (localStorage w) (clock w + d) (network w) (trace w)
    (writable w).

(** [encodeURIComponent] on a string of UTF-8 code units. *)
Definition unreserved (c : ascii) : bool :=
  let n := N_of_ascii c in
  (((65 <=? n) && (n <=? 90)) || ((97 <=? n) && (n <=? 122))
   || ((48 <=? n) && (n <=? 57)) || includes "-_.!~*'()" (String c EmptyString))%N%bool.

Definition hex_digit (n : N) : ascii :=
  if (n <? 10)%N then ascii_of_N (48 + n) else ascii_of_N (55 + n).

Fixpoint encodeURIComponent (s : string) : string :=
  match s with
  | EmptyString => EmptyString
  | String c r =>
      if unreserved c then String c (encodeURIComponent r)
      else
        let n := N_of_ascii c in
        String "%" (String (hex_digit (n / 16)) (String (hex_digit (n mod 16))
          (encodeURIComponent r)))
  end.

(** The decimal digits of an index, as a template literal prints it. *)
Definition decimal (i : nat) : string := NilZero.string_of_uint (Nat.to_uint i).

(** ** [Array.prototype.sort]

    The comparator of this program never returns 0, so on two records
    with one key it is not consistent, and what the sort does with them is
    the engine's choice ([Array_sort] of the platform). Two engines are
    modelled, to measure that choice. Both insert each element in turn into
    the sorted prefix to its left; they differ in the argument the element
    is passed as. *)

(** One discipline, V8's on short arrays: the comparator is asked about
    the later element against an earlier one, and a negative answer puts
    the later one in front. *)
Fixpoint insert_sorted {A} (cmp : A -> A -> Z) (pivot : A) (sorted : list A) : list A :=
  match sorted with
  | [] => [pivot]
  | e :: r =>
      if cmp pivot e <? 0 then pivot :: e :: r
      else e :: insert_sorted cmp pivot r
  end.

Definition sort_from_later {A} (cmp : A -> A -> Z) (l : list A) : list A :=
  fold_left (fun sorted pivot => insert_sorted cmp pivot sorted) l [].

(** The other discipline: the comparator is asked about an earlier
    element against the later one, and only a positive answer puts the
    later one in front. *)
Fixpoint insert_after {A} (cmp : A -> A -> Z) (pivot : A) (sorted : list A) : list A :=
  match sorted with
  | [] => [pivot]
  | e :: r =>
      if 0 <? cmp e pivot then pivot :: e :: r
      else e :: insert_after cmp pivot r
  end.

Definition sort_from_earlier {A} (cmp : A -> A -> Z) (l : list A) : list A :=
  fold_left (fun sorted pivot => insert_after cmp pivot sorted) l [].

(** The textbook stable sort, ascending by key: insertion from the right,
    each element going in front of the first one that is not smaller. It is
    what the order of the view is measured against. *)
Fixpoint insert_asc {A} (key : A -> string) (x : A) (sorted : list A) : list A :=
  match sorted with
  | [] => [x]
  | e :: r =>
      if String.ltb (key e) (key x) then e :: insert_asc key x r
      else x :: e :: r
  end.

Definition stable_sort_asc {A} (key : A -> string) (l : list A) : list A :=
  fold_right (insert_asc key) [] l.

(** The stable sort on the negated key, in the words of the
    specification: descending by key, records with one key in the order
    they had. *)
Fixpoint insert_desc {A} (key : A -> string) (x : A) (sorted : list A) : list A :=
  match sorted with
  | [] => [x]
  | e :: r =>
      if String.ltb (key x) (key e) then e :: insert_desc key x r
      else x :: e :: r
  end.

Definition stable_sort_desc {A} (key : A -> string) (l : list A) : list A :=
  fold_right (insert_desc key) [] l.

(** [l.filter(Boolean)] on a list of records and [null]s. *)
Fixpoint compact {A} (l : list (option A)) : list A :=
  match l with
  | [] => []
  | Some a :: r => a :: compact r
  | None :: r => compact r
  end.

(** [el?.textContent || d]. *)
Definition text_or (el : option string) (d : string) : string :=
  match el with
  | Some s => or_else s d
  | None => d
  end.

(** [a >= b] and [a <= b] on numbers; false when either is [NaN]. *)
Definition num_ge (a b : option Z) : bool :=
  match a, b with
  | Some x, Some y => y <=? x
  | _, _ => false
  end.

Definition num_le (a b : option Z) : bool :=
  match a, b with
  | Some x, Some y => x <=? y
  | _, _ => false
  end.

Definition RSS_URL : string :=
  "https://news.google.com/rss/search?q="
  +:+ encodeURIComponent
        "(India power sector OR India electricity OR India power demand OR India grid OR India renewable energy)"
  +:+ "&hl=en-IN&gl=IN&ceid=IN:en".

Definition PROXY_URL : string :=
  "https://api.allorigins.win/raw?url=" +:+ encodeURIComponent RSS_URL.

Section Program.

Context {P : Platform}.

(** [ToNumber]. *)
Definition ToNumber (v : JsVal) : option Z :=
  match v with
  | VUndefined => None
  | VNull => Some 0
  | VBool b => Some (if b then 1 else 0)
  | VNum n => Some n
  | _ => ToNumber_other v
  end.

(** [Date.parse(s)], which is also [new Date(s).getTime()]. *)
Definition Date_parse (s : string) : option Z :=
  match parse_iso_utc s with
  | Some t => Some t
  | None => timeClip (Date_parse_other s)
  end.

(** ** Cache store *)

(** [Date.now() - ts > CACHE_TTL_MS]; no number is greater than [NaN]. *)
Definition stale (now : Z) (ts : option Z) : bool :=
  match ts with
  | Some t => CACHE_TTL_MS <? now - t
  | None => false
  end.

Definition loadCache : M JsVal :=
  try_catch
    (raw ← localStorage_getItem CACHE_KEY;
     match raw with
     | None => mret VNull
     | Some raw =>
         if is_empty raw then mret VNull
         else
           obj ← lift (JSON_parse raw);
           now ← Date_now;
           ts ← lift (getProp obj "ts");
           if stale now (ToNumber ts) then mret VNull
           else lift (getProp obj "items")
     end)
    (fun _ => mret VNull).

Definition saveCache (l : list NewsItem) : M unit :=
  now ← Date_now;
  localStorage_setItem CACHE_KEY (JSON_stringify (cache_entry now l)).

(** ** Feed fetcher and parser *)

(** The callback of [items.map]: the record of one [item], [null] when
    a required field is empty. [toISOString] throws a [RangeError] on an
    invalid date. *)
Definition parseItem (item : RssItem) (i : nat) : Outcome (option NewsItem) :=
  let title := text_or (el_title item) EmptyString in
  let link := text_or (el_link item) EmptyString in
  let pubDate := text_or (el_pubDate item) EmptyString in
  let source := text_or (el_source item) "Google News" in
  let desc :=
    match el_description item with
    | Some s => stripTags s
    | None => EmptyString
    end in
  match (if is_empty pubDate then Val EmptyString
         else match Date_parse pubDate with
              | Some t => Val (toISOString t)
              | None => Throw (RangeError "Invalid time value")
              end) with
  | Throw e => Throw e
  | Val publishedAtISO =>
      if (is_empty title || is_empty link || is_empty publishedAtISO)%bool
      then Val None
      else Val (Some {| id := publishedAtISO +:+ "_" +:+ decimal i;
                        title := title;
                        url := link;
                        source := source;
                        publishedAtISO := publishedAtISO;
                        snippet := clamp desc 180 |})
  end.

(** [items.map((item, i) => ...)] from index [i] on: the first exception
    ends the traversal. *)
Fixpoint map_items (l : list RssItem) (i : nat) : Outcome (list (option NewsItem)) :=
  match l with
  | [] => Val []
  | item :: r =>
      match parseItem item i with
      | Throw e => Throw e
      | Val x =>
          match map_items r (S i) with
          | Throw e => Throw e
          | Val xs => Val (x :: xs)
          end
      end
  end.

(** [items.map(...).filter(Boolean)]. *)
Definition parseItems (l : list RssItem) : Outcome (list NewsItem) :=
  match map_items l 0 with
  | Throw e => Throw e
  | Val xs => Val (compact xs)
  end.

Definition fetchGoogleNewsRSS : M (list NewsItem) :=
  res ← fetch PROXY_URL;
  if negb (ok res) then throw (Error "RSS fetch failed")
  else
    xmlText ← lift (text res);
    lift (parseItems (item_elements (DOM_parse xmlText))).

(** ** Pipeline orchestrator *)

(** The comparator of the view. *)
Definition by_date_desc (a b : NewsItem) : Z :=
  if String.ltb (publishedAtISO a) (publishedAtISO b) then 1 else -1.

(** The date filter of the view. *)
Definition in_range (from to : string) (n : NewsItem) : bool :=
  let fromT := Date_parse (from +:+ "T00:00:00Z") in
  let toT := Date_parse (to +:+ "T23:59:59Z") in
  let t := Date_parse (publishedAtISO n) in
  (num_ge t fromT && num_le t toT)%bool.

(** The memoized view [filtered] of the records [l] for the range
    [from]..[to]. *)
Definition filtered (l : list NewsItem) (from to : string) : list NewsItem :=
  Array_sort by_date_desc (List.filter (in_range from to) l).

(** [load(force)]. The flag returned by the first step tells whether the
    cache branch executed its [return]. *)
Definition load (force : bool) : M unit :=
  setLoading true;;
  setError None;;
  try_finally
    (try_catch
       (returned ←
          (if negb force then
             cached ← loadCache;
             if truthy cached then
               setItems cached;;
               setLoading false;;
               mret true
             else mret false
           else mret false);
        if (returned : bool) then mret tt
        else
          raw ← fetchGoogleNewsRSS;
          let relevant := firstn 100 (List.filter isRelevant raw) in
          setItems (js_of_items relevant);;
          saveCache relevant)
       (fun _ => setError (Some ERROR_MESSAGE)))
    (setLoading false).

(** The component when it mounts: empty state, then [load(false)]. *)
Definition initial_state : State := mkState (VArr []) false None.

End Program.

(** ** A platform to run the program on

    A JSON codec for the values the cache holds, the RFC 822 dates of RSS
    feeds and a scanner for the elements of a feed document. The theorems
    below hold for every [Platform]; this one serves to evaluate the
    program on concrete feeds. *)

Module Sample.

Definition quote : ascii := "034"%char.
Definition backslash : ascii := "092"%char.

Definition hex_lower (n : N) : ascii :=
  if (n <? 10)%N then ascii_of_N (48 + n) else ascii_of_N (87 + n).

(** A code unit inside a JSON string literal. *)
Definition escape_char (c : ascii) : string :=
  let n := N_of_ascii c in
  if Ascii.eqb c quote then String backslash (String quote EmptyString)
  else if Ascii.eqb c backslash then String backslash (String backslash EmptyString)
  else if (n =? 8)%N then String backslash "b"
  else if (n =? 9)%N then String backslash "t"
  else if (n =? 10)%N then String backslash "n"
  else if (n =? 12)%N then String backslash "f"
  else if (n =? 13)%N then String backslash "r"
  else if (n <? 32)%N then
    String backslash ("u00" +:+ String (hex_lower (n / 16))
                                 (String (hex_lower (n mod 16)) EmptyString))
  else String c EmptyString.

Fixpoint escape (s : string) : string :=
  match s with
  | EmptyString => EmptyString
  | String c r => escape_char c +:+ escape r
  end.

Definition print_string (s : string) : string :=
  String quote (escape s +:+ String quote EmptyString).

Fixpoint join (sep : string) (l : list string) : string :=
  match l with
  | [] => EmptyString
  | [x] => x
  | x :: r => x +:+ sep +:+ join sep r
  end.

(** [JSON.stringify] on the values of [JsVal]. [undefined] is printed as
    [null], which is what it becomes inside an array; the values this
    program serializes hold none. *)
Fixpoint stringify (v : JsVal) : string :=
  match v with
  | VUndefined | VNull => "null"
  | VBool true => "true"
  | VBool false => "false"
  | VNum n => NilZero.string_of_int (Z.to_int n)
  | VStr s => print_string s
  | VArr l => "[" +:+ join "," (map stringify l) +:+ "]"
  | VObj fs =>
      "{" +:+ join "," (map (fun kv => print_string (fst kv) +:+ ":" +:+ stringify (snd kv)) fs)
          +:+ "}"
  end.

Definition is_ws (c : ascii) : bool :=
  let n := N_of_ascii c in
  ((n =? 32) || (n =? 9) || (n =? 10) || (n =? 13))%N%bool.

Fixpoint skip_ws (s : string) : string :=
  match s with
  | String c r => if is_ws c then skip_ws r else s
  | EmptyString => s
  end.

Definition is_digit (c : ascii) : bool :=
  let n := N_of_ascii c in ((48 <=? n) && (n <=? 57))%N%bool.

Fixpoint span_digits (s : string) : string * string :=
  match s with
  | String c r =>
      if is_digit c then let '(ds, rest) := span_digits r in (String c ds, rest)
      else (EmptyString, s)
  | EmptyString => (EmptyString, EmptyString)
  end.

Definition hex_val (c : ascii) : option N :=
  let n := N_of_ascii c in
  if ((48 <=? n) && (n <=? 57))%N%bool then Some (n - 48)%N
  else if ((97 <=? n) && (n <=? 102))%N%bool then Some (n - 87)%N
  else if ((65 <=? n) && (n <=? 70))%N%bool then Some (n - 55)%N
  else None.

(** The body of a string literal, up to and including its closing quote.
    Escapes above [ÿ] do not fit a code unit of this model. *)
Fixpoint read_string (s : string) : option (string * string) :=
  match s with
  | EmptyString => None
  | String c r =>
      if Ascii.eqb c quote then Some (EmptyString, r)
      else if Ascii.eqb c backslash then
        match r with
        | String "u" (String "0" (String "0" (String h (String l r')))) =>
            hi ← hex_val h;
            lo ← hex_val l;
            '(body, rest) ← read_string r';
            Some (String (ascii_of_N (16 * hi + lo)) body, rest)
        | String e r' =>
            c' ← (if Ascii.eqb e quote then Some quote
                  else if Ascii.eqb e backslash then Some backslash
                  else if Ascii.eqb e "/" then Some "/"%char
                  else if Ascii.eqb e "b" then Some (ascii_of_N 8)
                  else if Ascii.eqb e "t" then Some (ascii_of_N 9)
                  else if Ascii.eqb e "n" then Some (ascii_of_N 10)
                  else if Ascii.eqb e "f" then Some (ascii_of_N 12)
                  else if Ascii.eqb e "r" then Some (ascii_of_N 13)
                  else None);
            '(body, rest) ← read_string r';
            Some (String c' body, rest)
        | EmptyString => None
        end
      else if (N_of_ascii c <? 32)%N then None
      else '(body, rest) ← read_string r; Some (String c body, rest)
  end.

(** The digits of an integer literal; a fraction or an exponent is
    outside the model. *)
Definition read_unsigned (neg : bool) (s : string) : option (JsVal * string) :=
  let '(ds, rest) := span_digits s in
  match rest with
  | String "." _ | String "e" _ | String "E" _ => None
  | _ =>
      match ds with
      | EmptyString => None
      | String "0" (String _ _) => None
      | _ =>
          d ← NilZero.uint_of_string ds;
          Some (VNum (if neg then - Z.of_uint d else Z.of_uint d), rest)
      end
  end.

Definition read_number (s : string) : option (JsVal * string) :=
  match s with
  | String c r => if Ascii.eqb c "-" then read_unsigned true r else read_unsigned false s
  | EmptyString => None
  end.

Definition read_literal (lit : string) (v : JsVal) (s : string) : option (JsVal * string) :=
  if String.prefix lit s
  then Some (v, String.substring (String.length lit) (String.length s - String.length lit) s)
  else None.

Fixpoint read_value (fuel : nat) (s : string) : option (JsVal * string) :=
  match fuel with
  | O => None
  | S f =>
      match skip_ws s with
      | String c r =>
          if Ascii.eqb c quote then
            '(str, rest) ← read_string r; Some (VStr str, rest)
          else if Ascii.eqb c "[" then
            match skip_ws r with
            | String "]" rest => Some (VArr [], rest)
            | r' => '(l, rest) ← read_elements f r'; Some (VArr l, rest)
            end
          else if Ascii.eqb c "{" then
            match skip_ws r with
            | String "}" rest => Some (VObj [], rest)
            | r' => '(fs, rest) ← read_members f r'; Some (VObj fs, rest)
            end
          else if Ascii.eqb c "n" then read_literal "null" VNull (String c r)
          else if Ascii.eqb c "t" then read_literal "true" (VBool true) (String c r)
          else if Ascii.eqb c "f" then read_literal "false" (VBool false) (String c r)
          else read_number (String c r)
      | EmptyString => None
      end
  end
with read_elements (fuel : nat) (s : string) : option (list JsVal * string) :=
  match fuel with
  | O => None
  | S f =>
      '(v, rest) ← read_value f s;
      match skip_ws rest with
      | String "," r => '(l, rest') ← read_elements f r; Some (v :: l, rest')
      | String "]" r => Some ([v], r)
      | _ => None
      end
  end
with read_members (fuel : nat) (s : string) : option (list (string * JsVal) * string) :=
  match fuel with
  | O => None
  | S f =>
      match skip_ws s with
      | String c r =>
          if Ascii.eqb c quote then
            '(k, rest) ← read_string r;
            match skip_ws rest with
            | String ":" r' =>
                '(v, rest') ← read_value f r';
                match skip_ws rest' with
                | String "," r'' =>
                    '(fs, rest'') ← read_members f r''; Some ((k, v) :: fs, rest'')
                | String "}" r'' => Some ([(k, v)], r'')
                | _ => None
                end
            | _ => None
            end
          else None
      | EmptyString => None
      end
  end.

Definition parse (s : string) : Outcome JsVal :=
  match read_value (S (String.length s)) s with
  | Some (v, rest) =>
      if is_empty (skip_ws rest) then Val v
      else Throw (SyntaxError "Unexpected token")
  | None => Throw (SyntaxError "Unexpected token")
  end.

Definition MONTHS : list string :=
  [ "Jan"; "Feb"; "Mar"; "Apr"; "May"; "Jun";
    "Jul"; "Aug"; "Sep"; "Oct"; "Nov"; "Dec" ].

Fixpoint position (s : string) (l : list string) (i : Z) : option Z :=
  match l with
  | [] => None
  | x :: r => if String.eqb s x then Some i else position s r (i + 1)
  end.

Fixpoint drop (n : nat) (s : string) : string :=
  match n, s with
  | O, _ => s
  | S _, EmptyString => EmptyString
  | S k, String _ r => drop k r
  end.

(** The date of an RSS [pubDate], [Tue, 03 Nov 2026 05:33:00 GMT]. *)
Definition parse_rfc822 (s : string) : option Z :=
  s ← expect "," (drop 3 s);
  s ← expect " " s;
  '(d, s) ← read_digits 2 0 s;
  s ← expect " " s;
  m ← position (take 3 s) MONTHS 1;
  s ← expect " " (drop 3 s);
  '(y, s) ← read_digits 4 0 s;
  s ← expect " " s;
  '(h, s) ← read_digits 2 0 s;
  s ← expect ":" s;
  '(mi, s) ← read_digits 2 0 s;
  s ← expect ":" s;
  '(sec, s) ← read_digits 2 0 s;
  if (String.eqb s " GMT" && (1 <=? d) && (d <=? days_in_month y m)
      && (h <=? 23) && (mi <=? 59) && (sec <=? 59))%bool
  then Some (utc y m d h mi sec 0)
  else None.

(** The text before and after the first occurrence of [needle]. *)
Fixpoint split_on (needle s : string) : option (string * string) :=
  if String.prefix needle s then Some (EmptyString, drop (String.length needle) s)
  else
    match s with
    | EmptyString => None
    | String c r => '(a, b) ← split_on needle r; Some (String c a, b)
    end.

(** The character data of an element: [&lt;], [&gt;] and [&amp;] stand
    for the characters that markup reserves. *)
Fixpoint decode_entities (s : string) : string :=
  match s with
  | EmptyString => EmptyString
  | String c r =>
      if Ascii.eqb c "&" then
        match r with
        | String a (String b (String d r3)) =>
            let name := String a (String b (String d EmptyString)) in
            if String.eqb name "lt;" then String "<" (decode_entities r3)
            else if String.eqb name "gt;" then String ">" (decode_entities r3)
            else
              match r3 with
              | String e r4 =>
                  if (String.eqb name "amp" && Ascii.eqb e ";")%bool
                  then String "&" (decode_entities r4)
                  else String c (decode_entities r)
              | EmptyString => String c (decode_entities r)
              end
        | _ => String c (decode_entities r)
        end
      else String c (decode_entities r)
  end.

(** The [textContent] of the first [tag] element in [s]. *)
Definition element_text (tag s : string) : option string :=
  '(_, after) ← split_on ("<" +:+ tag +:+ ">") s;
  '(body, _) ← split_on ("</" +:+ tag +:+ ">") after;
  Some (decode_entities body).

(** The [item] elements of a feed whose elements have no attributes and
    hold character data only. *)
Fixpoint scan_items (fuel : nat) (s : string) : list RssItem :=
  match fuel with
  | O => []
  | S f =>
      match split_on "<item>" s with
      | None => []
      | Some (_, after) =>
          match split_on "</item>" after with
          | None => []
          | Some (body, rest) =>
              mkRssItem (element_text "title" body) (element_text "link" body)
                (element_text "pubDate" body) (element_text "source" body)
                (element_text "description" body)
              :: scan_items f rest
          end
      end
  end.

(** Whether the tags of [s] nest properly under one root element, with
    nothing but white space outside it. [stack] holds the names of the
    open elements and [roots] counts the root elements seen. *)
Fixpoint well_formed (fuel : nat) (stack : list string) (roots : nat) (s : string) : bool :=
  match fuel with
  | O => false
  | S f =>
      match s with
      | EmptyString => (is_empty (String.concat EmptyString stack) && (roots =? 1)%nat)%bool
      | String c r =>
          if Ascii.eqb c "<" then
            match split_on ">" r with
            | None => false
            | Some (name, rest) =>
                match name, stack with
                | String "/" closing, top :: st =>
                    (String.eqb closing top && well_formed f st roots rest)%bool
                | String "/" _, [] => false
                | EmptyString, _ => false
                | _, [] => well_formed f [name] (S roots) rest
                | _, _ => well_formed f (name :: stack) roots rest
                end
            end
          else
            match stack with
            | [] => (is_ws c && well_formed f stack roots r)%bool
            | _ => well_formed f stack roots r
            end
      end
  end.

(** The parser of the sample platform: an error document, without items,
    for text that is not well formed. *)
Definition parseFromString (s : string) : XmlDocument :=
  if well_formed (S (String.length s)) [] 0 s
  then mkXmlDocument false (scan_items (String.length s) s)
  else mkXmlDocument true [].

(** [ToNumber] on what is not a primitive, among the integers this
    development knows: a string of decimal digits, with or without a minus
    sign, is the number it writes, and the empty string is 0; an array
    converts through its text, which is empty for the empty array and the
    text of the element for an array of one; every other string, array and
    object is [NaN]. *)
Fixpoint digits_value (acc : Z) (s : string) : option Z :=
  match s with
  | EmptyString => Some acc
  | String c r =>
      match digit_val c with
      | Some k => digits_value (acc * 10 + k) r
      | None => None
      end
  end.

Definition string_to_number (s : string) : option Z :=
  match s with
  | EmptyString => Some 0
  | String "-" (String c r) => option_map Z.opp (digits_value 0 (String c r))
  | _ => digits_value 0 s
  end.

Definition to_number_other (v : JsVal) : option Z :=
  match v with
  | VStr s => string_to_number s
  | VArr [] | VArr [VNull] | VArr [VUndefined] => Some 0
  | VArr [VNum n] => Some n
  | VArr [VStr s] => string_to_number s
  | _ => None
  end.

(** A browser whose sort asks the comparator about the later element
    first. *)
Definition platform : Platform := {|
  JSON_parse := parse;
  JSON_stringify := stringify;
  Date_parse_other := parse_rfc822;
  ToNumber_other := to_number_other;
  DOM_parse := parseFromString;
  Array_sort := @sort_from_later
|}.

(** The same browser with a sort of the other discipline. *)
Definition platform_earlier : Platform := {|
  JSON_parse := parse;
  JSON_stringify := stringify;
  Date_parse_other := parse_rfc822;
  ToNumber_other := to_number_other;
  DOM_parse := parseFromString;
  Array_sort := @sort_from_earlier
|}.

(** A feed of three items: a relevant one, one with an empty link, and
    one off topic. *)
Definition FEED : string :=
  "<rss><channel><title>news</title>"
  +:+ "<item><title>India POWER demand hits record</title><link>https://a.example/1</link>"
  +:+ "<pubDate>Tue, 03 Nov 2026 05:33:00 GMT</pubDate><source>The Paper</source>"
  +:+ "<description>&lt;b&gt;Peak&lt;/b&gt; load &amp; price rose</description></item>"
  +:+ "<item><title>Indian grid update</title><link></link>"
  +:+ "<pubDate>Tue, 03 Nov 2026 06:00:00 GMT</pubDate></item>"
  +:+ "<item><title>Cricket in India</title><link>https://a.example/3</link>"
  +:+ "<pubDate>Mon, 02 Nov 2026 10:00:00 GMT</pubDate></item>"
  +:+ "</channel></rss>".

(** What a relay in trouble answers, with status 200: not a feed. *)
Definition NOT_A_FEED : string := "Service temporarily unavailable".

(** A feed whose second item has a publish date no engine can read. *)
Definition FEED_BAD_DATE : string :=
  "<rss><channel>"
  +:+ "<item><title>India POWER demand hits record</title><link>https://a.example/1</link>"
  +:+ "<pubDate>Tue, 03 Nov 2026 05:33:00 GMT</pubDate></item>"
  +:+ "<item><title>Indian grid update</title><link>https://a.example/2</link>"
  +:+ "<pubDate>not a date</pubDate></item>"
  +:+ "</channel></rss>".

Definition serves (body : string) : string -> NetReply :=
  fun _ => mkNetReply 250 (Val (mkResponse true (Val body))).

Definition http_500 : string -> NetReply :=
  fun _ => mkNetReply 250 (Val (mkResponse false (Val "Internal Server Error"))).

Definition offline : string -> NetReply :=
  fun _ => mkNetReply 10 (Throw (TypeError "Failed to fetch")).

Definition item1 : NewsItem :=
  mkNewsItem "2026-11-03T05:33:00.000Z_0" "India POWER demand hits record"
    "https://a.example/1" "The Paper" "2026-11-03T05:33:00.000Z"
    "Peak load & price rose".

Definition item2 : NewsItem :=
  mkNewsItem "2026-11-03T05:33:00.000Z_1" "Indian solar tender"
    "https://a.example/2" "Google News" "2026-11-03T05:33:00.000Z" EmptyString.

Definition item3 : NewsItem :=
  mkNewsItem "2026-11-01T00:00:00.000Z_2" "India coal stocks"
    "https://a.example/3" "Google News" "2026-11-01T00:00:00.000Z" EmptyString.

(** A browser at 2026-11-03T06:00:00Z showing [shown], with [slot] in
    the cache key. *)
Definition world (shown : State) (slot : option string) (net : string -> NetReply) : World :=
  mkWorld shown
    (match slot with Some raw => {[ CACHE_KEY := raw ]} | None => ∅ end)
    1793685600000 net [] (fun _ _ _ => true).

(** The same browser with its storage quota used up: every write is
    refused. *)
Definition world_full (shown : State) (slot : option string) (net : string -> NetReply) : World :=
  mkWorld shown
    (match slot with Some raw => {[ CACHE_KEY := raw ]} | None => ∅ end)
    1793685600000 net [] (fun _ _ _ => false).




End Sample.

(** ** The date line of a card *)

(** [String(n)] for an integer [n]. *)
Definition decimalZ (n : Z) : string := NilZero.string_of_int (Z.to_int n).

(** [n] copies of [c] in front of [s]. *)
Fixpoint fill (n : nat) (c : ascii) (s : string) : string :=
  match n with
  | O => s
  | S k => String c (fill k c s)
  end.

(** [s.padStart(width, c)] for a one-character filler [c]. *)
Definition padStart (width : nat) (c : ascii) (s : string) : string :=
  fill (width - String.length s) c s.

Section CardDate.

Context {P : Platform}.

(** [LocalTZA]: the offset of the browser's local time from UTC at a time
    value, in milliseconds. *)
Variable LocalTZA : Z -> Z.

Definition LocalTime (t : Z) : Z := t + LocalTZA t.

(** [getFullYear], [getMonth] (from 0) and [getDate] of a valid date. *)
Definition getFullYear (t : Z) : Z :=
  let '(y, _, _) := civil_from_days (LocalTime t / msPerDay) in y.

Definition getMonth (t : Z) : Z :=
  let '(_, m, _) := civil_from_days (LocalTime t / msPerDay) in m - 1.

Definition getDate (t : Z) : Z :=
  let '(_, _, d) := civil_from_days (LocalTime t / msPerDay) in d.

Definition formatDDMMYYYY (iso : string) : string :=
  match Date_parse iso with
  | None => "—"
  | Some t =>
      padStart 2 "0" (decimalZ (getDate t)) +:+ "/"
      +:+ padStart 2 "0" (decimalZ (getMonth t + 1)) +:+ "/"
      +:+ decimalZ (getFullYear t)
  end.

End CardDate.

(** ** The first step of a render *)

(** The receiver of [items.filter(...)] in the view: the elements of an
    array, a [TypeError] on every other value, which has no [filter]
    method. *)
Definition items_filter (v : JsVal) : Outcome (list JsVal) :=
  match v with
  | VArr l => Val l
  | VUndefined | VNull => Throw (TypeError "Cannot read properties")
  | _ => Throw (TypeError "items.filter is not a function")
  end.

(** ** Notions the properties are stated with *)

(** What the properties ask of the engine's sort, and all they ask: its
    result is a rearrangement of the list, and it is in order as far as
    the comparator says. The second part is stated for a transitive
    relation [R] that every answer of the comparator is true of: a
    negative answer on [a], [b] means [R a b], a positive one [R b a], and
    0 both. The result is then sorted by [R]. Nothing is asked about the
    order of elements the comparator does not separate. *)
Definition sort_lawful (P : Platform) : Prop :=
  (forall (A : Type) (cmp : A -> A -> Z) (l : list A),
      Permutation l (Array_sort cmp l))
  /\ (forall (A : Type) (cmp : A -> A -> Z) (R : A -> A -> Prop) (l : list A),
        (forall a b c, R a b -> R b c -> R a c) ->
        (forall a b, cmp a b < 0 -> R a b) ->
        (forall a b, 0 < cmp a b -> R b a) ->
        (forall a b, cmp a b = 0 -> R a b /\ R b a) ->
        StronglySorted R (Array_sort cmp l)).

(** [getUTCFullYear] of a valid date. *)
Definition getUTCFullYear (t : Z) : Z :=
  let '(y, _, _) := civil_from_days (t / msPerDay) in y.

(** A date as one number: the year, then two decimal positions for the
    month and two for the day. *)
Definition date_number (c : Z * Z * Z) : Z :=
  let '(y, m, d) := c in (y * 100 + m) * 100 + d.

(** The day number of 1 March of year [y]. *)
Definition march_1 (y : Z) : Z := 365 * y + y / 4 - y / 100 + y / 400 - 719468.

(** The date of day [doy] of the year that starts on 1 March of [y]. *)
Definition date_of_year_day (y doy : Z) : Z * Z * Z :=
  let mp := (5 * doy + 2) / 153 in
  let d := doy - (153 * mp + 2) / 5 + 1 in
  let m := if mp <? 10 then mp + 3 else mp - 9 in
  (if m <=? 2 then y + 1 else y, m, d).

(** The fields of the date and time of [toISOString] as one number:
    year, month, day, hour, minute, second and millisecond, each in its own
    decimal positions. *)
Definition stamp (t : Z) : Z :=
  let '(y, m, d) := civil_from_days (t / msPerDay) in
  let r := t mod msPerDay in
  ((((((y * 100 + m) * 100 + d) * 100 + r / 3600000) * 100 + r / 60000 mod 60) * 100
    + r / 1000 mod 60) * 1000 + r mod 1000).

(** Lexicographic combination of two comparisons. *)
Definition lex (c1 c2 : comparison) : comparison :=
  match c1 with Eq => c2 | _ => c1 end.

(** A text the scan for tags goes through without a change, in either
    state, as a text with no [>] in it does. *)
Definition inert (k : string) : Prop :=
  strip_from Outside k = k
  /\ forall buf, strip_from (InTag buf) k = emit_rev buf k.

(** The calls a computation makes when it is run in a world: what it
    adds to the trace. *)
Definition calls {A} (m : M A) (w : World) : list Event :=
  skipn (length (trace w)) (trace (snd (m w))).

Definition is_fetch (e : Event) : bool :=
  match e with CallFetch _ => true | _ => false end.

Definition is_read (e : Event) : bool :=
  match e with CallGetItem _ => true | _ => false end.

Definition is_write (e : Event) : bool :=
  match e with CallSetItem _ _ => true | _ => false end.

(** Whether the publish date of an item is there and cannot be read. *)
Definition unreadable_date {P : Platform} (item : RssItem) : bool :=
  let d := text_or (el_pubDate item) EmptyString in
  (negb (is_empty d)
   && match Date_parse d with Some _ => false | None => true end)%bool.

(** Whether [load(false)] finds a value to adopt in the cache. *)
Definition cache_hit {P : Platform} (w : World) : bool :=
  match fst (loadCache w) with
  | Val v => truthy v
  | Throw _ => false
  end.

(** * Properties *)

(** ** Strings *)

Lemma prefix_app (p s : string) :
  String.prefix p s = true <-> exists b, s = p +:+ b.
Proof.
  revert s; induction p as [|c p IH]; intros s; simpl.
  - split; [intros _; now exists s | now destruct s].
  - destruct s as [|d s]; simpl.
    + split; [discriminate | intros [b Hb]; discriminate].
    + destruct (Ascii.ascii_dec c d) as [->|Hne].
      * rewrite IH. split; intros [b Hb]; exists b; simpl in *; congruence.
      * split; [discriminate | intros [b Hb]; simpl in Hb; congruence].
Qed.

Lemma includes_occurs (hay needle : string) :
  includes hay needle = true <-> occurs_in needle hay.
Proof.
  induction hay as [|c hay IH].
  - cbn [includes]. rewrite orb_false_r, prefix_app. split.
    + intros [b Hb]. now exists EmptyString, b.
    + intros [[|x a] [b Hb]]; simpl in Hb; [now exists b | discriminate].
  - cbn [includes]. rewrite orb_true_iff, IH, prefix_app. split.
    + intros [[b Hb] | [a [b Hb]]].
      * now exists EmptyString, b.
      * exists (String c a), b. simpl. now rewrite Hb.
    + intros [[|x a] [b Hb]]; simpl in Hb.
      * left. now exists b.
      * right. exists a, b. congruence.
Qed.

Lemma append_assoc (a b c : string) : (a +:+ b) +:+ c = a +:+ (b +:+ c).
Proof. induction a as [|x a IH]; simpl; [reflexivity | now rewrite IH]. Qed.







(** ** Relevance filter *)



(** ** The order of strings *)

Lemma ltb_lt (a b : string) : String.ltb a b = true <-> String_as_OT.lt a b.
Proof.
  unfold String.ltb. rewrite <- String_as_OT.cmp_lt.
  change String_as_OT.cmp with String.compare.
  destruct (String.compare a b); split; congruence.
Qed.

Lemma ltb_irrefl (a : string) : String.ltb a a = false.
Proof.
  destruct (String.ltb a a) eqn:E; [|reflexivity].
  apply ltb_lt in E. exfalso. now apply (String_as_OT.lt_not_eq _ _ E).
Qed.

Lemma ltb_total (a b : string) :
  String.ltb a b = true \/ a = b \/ String.ltb b a = true.
Proof.
  unfold String.ltb. rewrite (String.compare_antisym b a).
  destruct (String.compare a b) eqn:E; simpl; auto.
  right; left. now apply String.compare_eq_iff.
Qed.

(** [a >= b >= c] gives [a >= c]. *)
Lemma not_ltb_trans (a b c : string) :
  String.ltb a b = false -> String.ltb b c = false -> String.ltb a c = false.
Proof.
  intros Hab Hbc. destruct (String.ltb a c) eqn:Hac; [|reflexivity].
  destruct (ltb_total a b) as [H | [-> | H]]; [congruence | congruence |].
  apply ltb_lt in H, Hac.
  assert (Hlt : String.ltb b c = true) by (apply ltb_lt; eapply String_as_OT.lt_trans; eauto).
  congruence.
Qed.

(** ** The sort of the view *)

(** Both engines rearrange, whatever the comparator. *)
Lemma insert_sorted_Permutation {A} (cmp : A -> A -> Z) (x : A) (l : list A) :
  Permutation (x :: l) (insert_sorted cmp x l).
Proof.
  induction l as [|e l IH]; simpl; [reflexivity|].
  destruct (cmp x e <? 0); [reflexivity|].
  rewrite perm_swap. now constructor.
Qed.

Lemma sort_from_later_Permutation {A} (cmp : A -> A -> Z) (l acc : list A) :
  Permutation (l ++ acc)%list
    (fold_left (fun sorted pivot => insert_sorted cmp pivot sorted) l acc).
Proof.
  revert acc; induction l as [|x l IH]; intros acc; simpl; [reflexivity|].
  rewrite <- IH. rewrite <- insert_sorted_Permutation.
  now rewrite Permutation_middle.
Qed.

Lemma insert_after_Permutation {A} (cmp : A -> A -> Z) (x : A) (l : list A) :
  Permutation (x :: l) (insert_after cmp x l).
Proof.
  induction l as [|e l IH]; simpl; [reflexivity|].
  destruct (0 <? cmp e x); [reflexivity|].
  rewrite perm_swap. now constructor.
Qed.

Lemma sort_from_earlier_Permutation {A} (cmp : A -> A -> Z) (l acc : list A) :
  Permutation (l ++ acc)%list
    (fold_left (fun sorted pivot => insert_after cmp pivot sorted) l acc).
Proof.
  revert acc; induction l as [|x l IH]; intros acc; simpl; [reflexivity|].
  rewrite <- IH. rewrite <- insert_after_Permutation.
  now rewrite Permutation_middle.
Qed.

Lemma filter_Permutation {A} (p : A -> bool) (l1 l2 : list A) :
  Permutation l1 l2 -> Permutation (List.filter p l1) (List.filter p l2).
Proof.
  induction 1 as [|x l1 l2 H IH|x y l|l1 l2 l3 H1 IH1 H2 IH2]; simpl.
  - constructor.
  - destruct (p x); [now constructor | exact IH].
  - destruct (p x), (p y); try reflexivity. apply perm_swap.
  - now transitivity (List.filter p l2).
Qed.

Section EngineFacts.

(** A comparator and a transitive relation that each of its answers is
    true of. *)
Context {A : Type} (cmp : A -> A -> Z) (R : A -> A -> Prop).
Hypothesis R_trans : forall a b c, R a b -> R b c -> R a c.
Hypothesis cmp_neg : forall a b, cmp a b < 0 -> R a b.
Hypothesis cmp_pos : forall a b, 0 < cmp a b -> R b a.
Hypothesis cmp_zero : forall a b, cmp a b = 0 -> R a b /\ R b a.

Lemma insert_sorted_StronglySorted (x : A) (l : list A) :
  StronglySorted R l -> StronglySorted R (insert_sorted cmp x l).
Proof.
  induction 1 as [|e l Hs IH He]; simpl.
  - repeat constructor.
  - destruct (cmp x e <? 0) eqn:Hxe.
    + apply Z.ltb_lt in Hxe. constructor; [now constructor|].
      constructor; [now apply cmp_neg|].
      rewrite List.Forall_forall in He |- *. intros y Hy.
      apply (R_trans x e y); [now apply cmp_neg | now apply He].
    + apply Z.ltb_ge in Hxe. constructor; [exact IH|].
      rewrite List.Forall_forall. intros y Hy.
      apply (Permutation_in _ (Permutation_sym (insert_sorted_Permutation cmp x l))) in Hy.
      destruct Hy as [<- | Hy].
      * destruct (Z.eq_dec (cmp x e) 0) as [E|E];
          [now apply (cmp_zero x e) | apply cmp_pos; lia].
      * rewrite List.Forall_forall in He. now apply He.
Qed.

Lemma sort_from_later_StronglySorted (l acc : list A) :
  StronglySorted R acc ->
  StronglySorted R
    (fold_left (fun sorted pivot => insert_sorted cmp pivot sorted) l acc).
Proof.
  revert acc; induction l as [|x l IH]; intros acc Hacc; simpl; [exact Hacc|].
  apply IH. now apply insert_sorted_StronglySorted.
Qed.

Lemma insert_after_StronglySorted (x : A) (l : list A) :
  StronglySorted R l -> StronglySorted R (insert_after cmp x l).
Proof.
  induction 1 as [|e l Hs IH He]; simpl.
  - repeat constructor.
  - destruct (0 <? cmp e x) eqn:Hex.
    + apply Z.ltb_lt in Hex. constructor; [now constructor|].
      constructor; [now apply cmp_pos|].
      rewrite List.Forall_forall in He |- *. intros y Hy.
      apply (R_trans x e y); [now apply cmp_pos | now apply He].
    + apply Z.ltb_ge in Hex. constructor; [exact IH|].
      rewrite List.Forall_forall. intros y Hy.
      apply (Permutation_in _ (Permutation_sym (insert_after_Permutation cmp x l))) in Hy.
      destruct Hy as [<- | Hy].
      * destruct (Z.eq_dec (cmp e x) 0) as [E|E];
          [now apply (cmp_zero e x) | apply cmp_neg; lia].
      * rewrite List.Forall_forall in He. now apply He.
Qed.

Lemma sort_from_earlier_StronglySorted (l acc : list A) :
  StronglySorted R acc ->
  StronglySorted R
    (fold_left (fun sorted pivot => insert_after cmp pivot sorted) l acc).
Proof.
  revert acc; induction l as [|x l IH]; intros acc Hacc; simpl; [exact Hacc|].
  apply IH. now apply insert_after_StronglySorted.
Qed.

End EngineFacts.

(** Both engines are lawful. *)
Lemma sort_from_later_lawful : sort_lawful Sample.platform.
Proof.
  split.
  - intros A cmp l. rewrite <- (app_nil_r l) at 1.
    apply (sort_from_later_Permutation cmp l []).
  - intros A cmp R l Ht Hn Hp Hz.
    apply (sort_from_later_StronglySorted cmp R Ht Hn Hp Hz l []). constructor.
Qed.

Lemma sort_from_earlier_lawful : sort_lawful Sample.platform_earlier.
Proof.
  split.
  - intros A cmp l. rewrite <- (app_nil_r l) at 1.
    apply (sort_from_earlier_Permutation cmp l []).
  - intros A cmp R l Ht Hn Hp Hz.
    apply (sort_from_earlier_StronglySorted cmp R Ht Hn Hp Hz l []). constructor.
Qed.

Lemma ltb_asym (a b : string) : String.ltb a b = true -> String.ltb b a = false.
Proof.
  intros Hab. destruct (String.ltb b a) eqn:Hba; [|reflexivity].
  apply ltb_lt in Hab, Hba. exfalso.
  apply (String_as_OT.lt_not_eq _ _ (String_as_OT.lt_trans _ _ _ Hab Hba)). reflexivity.
Qed.

Section SortFacts.

Context {A : Type} (key : A -> string).

(** The comparator shape of the program: 1 when the first key is the
    smaller one, -1 otherwise. *)
Let cmp (a b : A) : Z := if String.ltb (key a) (key b) then 1 else -1.

Let desc (a b : A) : Prop := String.ltb (key a) (key b) = false.

Let same (k : string) (x : A) : bool := String.eqb (key x) k.

(** Every answer of the comparator is true of "the key is not smaller". *)
Lemma desc_trans (a b c : A) : desc a b -> desc b c -> desc a c.
Proof. unfold desc. apply not_ltb_trans. Qed.

Lemma cmp_neg_desc (a b : A) : cmp a b < 0 -> desc a b.
Proof. unfold cmp, desc. destruct (String.ltb (key a) (key b)); [lia | reflexivity]. Qed.

Lemma cmp_pos_desc (a b : A) : 0 < cmp a b -> desc b a.
Proof.
  unfold cmp, desc. destruct (String.ltb (key a) (key b)) eqn:E; [|lia].
  intros _. now apply ltb_asym.
Qed.

Lemma cmp_zero_desc (a b : A) : cmp a b = 0 -> desc a b /\ desc b a.
Proof. unfold cmp. destruct (String.ltb (key a) (key b)); lia. Qed.

(** So a lawful engine sorts descending by key. *)
Lemma lawful_sorted_desc (P : Platform) (l : list A) :
  sort_lawful P -> StronglySorted desc (Array_sort cmp l).
Proof.
  intros [_ Hs].
  apply (Hs A cmp desc l desc_trans cmp_neg_desc cmp_pos_desc cmp_zero_desc).
Qed.

Lemma insert_sorted_desc (x : A) (l : list A) :
  StronglySorted desc l -> StronglySorted desc (insert_sorted cmp x l).
Proof.
  apply (insert_sorted_StronglySorted cmp desc
           desc_trans cmp_neg_desc cmp_pos_desc cmp_zero_desc).
Qed.

Lemma insert_after_desc (x : A) (l : list A) :
  StronglySorted desc l -> StronglySorted desc (insert_after cmp x l).
Proof.
  apply (insert_after_StronglySorted cmp desc
           desc_trans cmp_neg_desc cmp_pos_desc cmp_zero_desc).
Qed.

(** Asked about the later element first, the engine lets it pass only
    elements with a strictly greater key: it lands in front of every
    element that shares its key. *)
Lemma insert_sorted_same (k : string) (x : A) (l : list A) :
  List.filter (same k) (insert_sorted cmp x l)
  = if same k x then x :: List.filter (same k) l else List.filter (same k) l.
Proof.
  induction l as [|e l IH]; simpl; [reflexivity|].
  unfold cmp at 1. destruct (String.ltb (key x) (key e)) eqn:Hxe; simpl.
  - rewrite IH. unfold same. destruct (String.eqb_spec (key x) k) as [Hx|Hx];
      [|reflexivity].
    destruct (String.eqb_spec (key e) k) as [He|He]; [|reflexivity].
    rewrite Hx, He, ltb_irrefl in Hxe. discriminate.
  - reflexivity.
Qed.

Lemma sort_from_later_same_acc (k : string) (l acc : list A) :
  List.filter (same k)
    (fold_left (fun sorted pivot => insert_sorted cmp pivot sorted) l acc)
  = (rev (List.filter (same k) l) ++ List.filter (same k) acc)%list.
Proof.
  revert acc; induction l as [|x l IH]; intros acc; simpl; [reflexivity|].
  rewrite IH, insert_sorted_same.
  destruct (same k x); simpl; [|reflexivity].
  now rewrite <- List.app_assoc.
Qed.

Lemma filter_same_smaller (k : string) (x : A) (l : list A) :
  same k x = true ->
  List.Forall (fun y => String.ltb (key y) (key x) = true) l ->
  List.filter (same k) l = [].
Proof.
  unfold same. intros Hx Hl. apply String.eqb_eq in Hx.
  induction Hl as [|y l Hy Hl IH]; simpl; [reflexivity|].
  destruct (String.eqb_spec (key y) k) as [E|E]; [|exact IH].
  rewrite E, <- Hx, ltb_irrefl in Hy. discriminate.
Qed.

(** Asked about the earlier element first, the engine puts the later one
    in front of the first element with a smaller key: behind every element
    that shares its key. *)
Lemma insert_after_same (k : string) (x : A) (l : list A) :
  StronglySorted desc l ->
  List.filter (same k) (insert_after cmp x l)
  = (List.filter (same k) l ++ if same k x then [x] else [])%list.
Proof.
  induction 1 as [|e l Hs IH He]; simpl.
  - now destruct (same k x).
  - unfold cmp at 1. destruct (String.ltb (key e) (key x)) eqn:Hex; simpl.
    + destruct (same k x) eqn:Hx; [|now rewrite app_nil_r].
      assert (Hsm : List.Forall (fun y => String.ltb (key y) (key x) = true) (e :: l)).
      { constructor; [exact Hex|].
        rewrite List.Forall_forall in He |- *. intros y Hy.
        destruct (String.ltb (key y) (key x)) eqn:Hyx; [reflexivity|].
        specialize (He y Hy). unfold desc in He.
        pose proof (not_ltb_trans _ _ _ He Hyx). congruence. }
      pose proof (filter_same_smaller k x (e :: l) Hx Hsm) as Hnil.
      simpl in Hnil. now rewrite Hnil.
    + rewrite IH. now destruct (same k e).
Qed.

Lemma sort_from_earlier_same_acc (k : string) (l acc : list A) :
  StronglySorted desc acc ->
  List.filter (same k)
    (fold_left (fun sorted pivot => insert_after cmp pivot sorted) l acc)
  = (List.filter (same k) acc ++ List.filter (same k) l)%list.
Proof.
  revert acc; induction l as [|x l IH]; intros acc Hacc; simpl;
    [now rewrite app_nil_r|].
  rewrite IH by now apply insert_after_desc.
  rewrite insert_after_same by exact Hacc.
  rewrite <- List.app_assoc. now destruct (same k x).
Qed.

(** The stable sorts keep the elements of one key in their order. *)
Lemma insert_asc_same (k : string) (x : A) (l : list A) :
  List.filter (same k) (insert_asc key x l)
  = if same k x then x :: List.filter (same k) l else List.filter (same k) l.
Proof.
  induction l as [|e l IH]; simpl; [reflexivity|].
  destruct (String.ltb (key e) (key x)) eqn:Hex; simpl; [|reflexivity].
  rewrite IH. unfold same. destruct (String.eqb_spec (key x) k) as [Hx|Hx];
    [|reflexivity].
  destruct (String.eqb_spec (key e) k) as [He|He]; [|reflexivity].
  rewrite Hx, He, ltb_irrefl in Hex. discriminate.
Qed.

Lemma stable_sort_asc_same (k : string) (l : list A) :
  List.filter (same k) (stable_sort_asc key l) = List.filter (same k) l.
Proof.
  induction l as [|x l IH]; simpl; [reflexivity|].
  rewrite insert_asc_same, IH. reflexivity.
Qed.

Lemma insert_desc_same (k : string) (x : A) (l : list A) :
  List.filter (same k) (insert_desc key x l)
  = if same k x then x :: List.filter (same k) l else List.filter (same k) l.
Proof.
  induction l as [|e l IH]; simpl; [reflexivity|].
  destruct (String.ltb (key x) (key e)) eqn:Hxe; simpl; [|reflexivity].
  rewrite IH. unfold same. destruct (String.eqb_spec (key x) k) as [Hx|Hx];
    [|reflexivity].
  destruct (String.eqb_spec (key e) k) as [He|He]; [|reflexivity].
  rewrite Hx, He, ltb_irrefl in Hxe. discriminate.
Qed.

Lemma stable_sort_desc_same (k : string) (l : list A) :
  List.filter (same k) (stable_sort_desc key l) = List.filter (same k) l.
Proof.
  induction l as [|x l IH]; simpl; [reflexivity|].
  rewrite insert_desc_same, IH. reflexivity.
Qed.

Lemma insert_asc_In (x y : A) (l : list A) :
  In y (insert_asc key x l) <-> y = x \/ In y l.
Proof.
  induction l as [|e l IH]; simpl; [intuition|].
  destruct (String.ltb (key e) (key x)); simpl; [rewrite IH|]; intuition.
Qed.

Lemma insert_desc_In (x y : A) (l : list A) :
  In y (insert_desc key x l) <-> y = x \/ In y l.
Proof.
  induction l as [|e l IH]; simpl; [intuition|].
  destruct (String.ltb (key x) (key e)); simpl; [rewrite IH|]; intuition.
Qed.

Lemma stable_sort_asc_Permutation (l : list A) :
  Permutation l (stable_sort_asc key l).
Proof.
  induction l as [|x l IH]; simpl; [constructor|].
  etransitivity; [apply perm_skip, IH|].
  generalize (stable_sort_asc key l). clear.
  intros s. induction s as [|e s IHs]; simpl; [reflexivity|].
  destruct (String.ltb (key e) (key x)); [|reflexivity].
  rewrite perm_swap. now constructor.
Qed.

Lemma insert_asc_sorted (x : A) (l : list A) :
  StronglySorted (fun a b => desc b a) l ->
  StronglySorted (fun a b => desc b a) (insert_asc key x l).
Proof.
  induction 1 as [|e l Hs IH He]; simpl.
  - repeat constructor.
  - destruct (String.ltb (key e) (key x)) eqn:Hex.
    + constructor; [exact IH|].
      rewrite List.Forall_forall in He |- *. intros y Hy.
      apply insert_asc_In in Hy. destruct Hy as [-> | Hy]; [|now apply He].
      now apply ltb_asym.
    + constructor; [now constructor|].
      constructor; [exact Hex|].
      rewrite List.Forall_forall in He |- *. intros y Hy.
      unfold desc in *. eapply not_ltb_trans; [now apply He | exact Hex].
Qed.

Lemma stable_sort_asc_sorted (l : list A) :
  StronglySorted (fun a b => desc b a) (stable_sort_asc key l).
Proof.
  induction l as [|x l IH]; simpl; [constructor | now apply insert_asc_sorted].
Qed.

Lemma insert_desc_sorted (x : A) (l : list A) :
  StronglySorted desc l -> StronglySorted desc (insert_desc key x l).
Proof.
  induction 1 as [|e l Hs IH He]; simpl.
  - repeat constructor.
  - destruct (String.ltb (key x) (key e)) eqn:Hxe.
    + constructor; [exact IH|].
      rewrite List.Forall_forall in He |- *. intros y Hy.
      apply insert_desc_In in Hy. destruct Hy as [-> | Hy]; [|now apply He].
      now apply ltb_asym.
    + constructor; [now constructor|].
      constructor; [exact Hxe|].
      rewrite List.Forall_forall in He |- *. intros y Hy.
      unfold desc in *. eapply not_ltb_trans; [exact Hxe | now apply He].
Qed.

Lemma stable_sort_desc_sorted (l : list A) :
  StronglySorted desc (stable_sort_desc key l).
Proof.
  induction l as [|x l IH]; simpl; [constructor | now apply insert_desc_sorted].
Qed.

Lemma StronglySorted_snoc (R : A -> A -> Prop) (l : list A) (x : A) :
  StronglySorted R l -> List.Forall (fun y => R y x) l ->
  StronglySorted R (l ++ [x]).
Proof.
  induction 1 as [|a l Hs IH Ha]; intros Hx; simpl.
  - repeat constructor.
  - inversion Hx as [|? ? Hax Hlx]; subst. constructor; [now apply IH|].
    apply List.Forall_app. split; [exact Ha | now constructor].
Qed.

Lemma StronglySorted_rev (R : A -> A -> Prop) (l : list A) :
  StronglySorted R l -> StronglySorted (fun a b => R b a) (rev l).
Proof.
  induction 1 as [|x l Hs IH Hx]; simpl; [constructor|].
  apply StronglySorted_snoc; [exact IH|].
  now apply List.Forall_rev.
Qed.

(** A list sorted descending is determined by the order of the elements
    of each key. *)
Lemma sorted_desc_unique (l1 l2 : list A) :
  StronglySorted desc l1 -> StronglySorted desc l2 ->
  (forall k, List.filter (same k) l1 = List.filter (same k) l2) ->
  l1 = l2.
Proof.
  intros H1; revert l2; induction H1 as [|a l1 Hs1 IH Ha]; intros l2 H2 Hf.
  - destruct l2 as [|b l2]; [reflexivity|].
    specialize (Hf (key b)). simpl in Hf. unfold same in Hf.
    rewrite String.eqb_refl in Hf. discriminate.
  - destruct H2 as [|b l2 Hs2 Hb].
    { specialize (Hf (key a)). simpl in Hf. unfold same in Hf.
      rewrite String.eqb_refl in Hf. discriminate. }
    assert (Hkey : key a = key b).
    { destruct (ltb_total (key a) (key b)) as [Hlt | [Heq | Hlt]]; [|exact Heq|].
      - pose proof (Hf (key b)) as Hk. simpl in Hk. unfold same in Hk.
        rewrite (String.eqb_refl (key b)) in Hk.
        assert (Hne : String.eqb (key a) (key b) = false).
        { apply String.eqb_neq. intros E. rewrite E, ltb_irrefl in Hlt. discriminate. }
        rewrite Hne in Hk.
        assert (Hin : In b (List.filter (fun x => String.eqb (key x) (key b)) l1))
          by (rewrite Hk; now left).
        apply filter_In in Hin. destruct Hin as [Hin _].
        rewrite List.Forall_forall in Ha. specialize (Ha b Hin).
        unfold desc in Ha. congruence.
      - pose proof (Hf (key a)) as Hk. simpl in Hk. unfold same in Hk.
        rewrite (String.eqb_refl (key a)) in Hk.
        assert (Hne : String.eqb (key b) (key a) = false).
        { apply String.eqb_neq. intros E. rewrite E, ltb_irrefl in Hlt. discriminate. }
        rewrite Hne in Hk.
        assert (Hin : In a (List.filter (fun x => String.eqb (key x) (key a)) l2))
          by (rewrite <- Hk; now left).
        apply filter_In in Hin. destruct Hin as [Hin _].
        rewrite List.Forall_forall in Hb. specialize (Hb a Hin).
        unfold desc in Hb. congruence. }
    assert (Hab : a = b).
    { specialize (Hf (key a)). simpl in Hf. unfold same in Hf.
      rewrite <- Hkey, String.eqb_refl in Hf. now injection Hf. }
    subst b. f_equal. apply IH; [exact Hs2|].
    intros k. specialize (Hf k). simpl in Hf.
    destruct (same k a); [now injection Hf | exact Hf].
Qed.

(** With no key twice, the elements of one key are at most one, so every
    rearrangement has them in the same order. *)
Lemma filter_same_NoDup (k : string) (l1 l2 : list A) :
  Permutation l1 l2 -> List.NoDup (map key l1) ->
  List.filter (same k) l1 = List.filter (same k) l2.
Proof.
  intros Hp Hnd.
  assert (Hone : forall l, List.NoDup (map key l) ->
            List.filter (same k) l = [] \/ exists x, List.filter (same k) l = [x]).
  { induction l as [|x l IH]; simpl; intros Hl; [now left|].
    inversion Hl as [|? ? Hx Hl']; subst.
    destruct (same k x) eqn:Hkx; [|now apply IH].
    right. exists x. f_equal.
    destruct (List.filter (same k) l) as [|y r] eqn:Hf; [reflexivity|].
    exfalso. apply Hx.
    assert (Hy : In y (List.filter (same k) l)) by (rewrite Hf; now left).
    apply filter_In in Hy. destruct Hy as [Hy Hky].
    unfold same in *. apply String.eqb_eq in Hkx, Hky.
    rewrite Hkx, <- Hky. now apply in_map. }
  assert (Hnd2 : List.NoDup (map key l2)).
  { eapply Permutation_NoDup; [|exact Hnd]. now apply Permutation_map. }
  pose proof (filter_Permutation (same k) _ _ Hp) as Hpf.
  destruct (Hone l1 Hnd) as [E1 | [x E1]], (Hone l2 Hnd2) as [E2 | [y E2]];
    rewrite E1, E2 in *.
  - reflexivity.
  - apply Permutation_nil in Hpf. discriminate.
  - symmetry in Hpf. apply Permutation_nil in Hpf. discriminate.
  - apply Permutation_length_1 in Hpf. now subst.
Qed.

(** What each engine returns, in closed form. *)
Lemma sort_from_later_stable (l : list A) :
  sort_from_later cmp l = rev (stable_sort_asc key l).
Proof.
  apply sorted_desc_unique.
  - apply (sort_from_later_StronglySorted cmp desc
             desc_trans cmp_neg_desc cmp_pos_desc cmp_zero_desc l []). constructor.
  - apply (StronglySorted_rev (fun a b => desc b a)). apply stable_sort_asc_sorted.
  - intros k. unfold sort_from_later.
    rewrite sort_from_later_same_acc, app_nil_r, filter_rev.
    now rewrite stable_sort_asc_same.
Qed.

Lemma sort_from_earlier_stable (l : list A) :
  sort_from_earlier cmp l = stable_sort_desc key l.
Proof.
  apply sorted_desc_unique.
  - apply (sort_from_earlier_StronglySorted cmp desc
             desc_trans cmp_neg_desc cmp_pos_desc cmp_zero_desc l []). constructor.
  - apply stable_sort_desc_sorted.
  - intros k. unfold sort_from_earlier.
    rewrite sort_from_earlier_same_acc by constructor.
    now rewrite stable_sort_desc_same.
Qed.

End SortFacts.

(** C8, as amended. The view is the retained records sorted descending by
    [publishedAtISO], on every engine whose sort is lawful: it is a
    rearrangement of the records the date filter keeps, and no record is
    followed by one with a greater key. The order of records that share a
    key is the engine's. On an engine that asks the comparator about the
    later record first they come out in the reverse of the order they had:
    the view is the stable ascending sort, read backwards. On an engine
    that asks about the earlier record first they come out in the order
    they had: the view is the stable sort on the negated key. Only when no
    two retained records share a key is the view the same on every lawful
    engine, and then it is both. On one engine the order is a function of
    the input, so it is the same on every run. *)
Theorem filtered_sorted_desc_ties_by_engine {P : Platform}
    (l : list NewsItem) (from to : string) :
  sort_lawful P ->
  let kept := List.filter (in_range from to) l in
  let out := filtered l from to in
  let same k := fun n => String.eqb (publishedAtISO n) k in
  Permutation kept out
  /\ StronglySorted
       (fun a b => String.ltb (publishedAtISO a) (publishedAtISO b) = false) out
  /\ (List.NoDup (map publishedAtISO kept) ->
      out = stable_sort_desc publishedAtISO kept
      /\ out = rev (stable_sort_asc publishedAtISO kept))
  /\ ((forall r, Array_sort by_date_desc r = sort_from_later by_date_desc r) ->
      (forall k, List.filter (same k) out = rev (List.filter (same k) kept))
      /\ out = rev (stable_sort_asc publishedAtISO kept))
  /\ ((forall r, Array_sort by_date_desc r = sort_from_earlier by_date_desc r) ->
      (forall k, List.filter (same k) out = List.filter (same k) kept)
      /\ out = stable_sort_desc publishedAtISO kept).
Proof.
  intros Hlaw kept out same.
  assert (Hperm : Permutation kept out) by apply (proj1 Hlaw).
  assert (Hsorted : StronglySorted
            (fun a b => String.ltb (publishedAtISO a) (publishedAtISO b) = false) out)
    by apply (lawful_sorted_desc publishedAtISO P kept Hlaw).
  split; [exact Hperm | split; [exact Hsorted|]].
  split; [|split].
  - intros Hnd. split.
    + apply (sorted_desc_unique publishedAtISO); [exact Hsorted | |].
      * apply stable_sort_desc_sorted.
      * intros k. rewrite stable_sort_desc_same.
        symmetry. now apply filter_same_NoDup.
    + apply (sorted_desc_unique publishedAtISO); [exact Hsorted | |].
      * apply (StronglySorted_rev
                 (fun a b => String.ltb (publishedAtISO b) (publishedAtISO a) = false)).
        apply stable_sort_asc_sorted.
      * intros k. rewrite <- (filter_same_NoDup publishedAtISO k kept out Hperm Hnd).
        apply filter_same_NoDup; [|exact Hnd].
        rewrite <- Permutation_rev. apply stable_sort_asc_Permutation.
  - intros Hengine.
    assert (Hout : out = sort_from_later by_date_desc kept) by apply Hengine.
    rewrite Hout. split.
    + intros k. unfold sort_from_later.
      etransitivity; [apply (sort_from_later_same_acc publishedAtISO k kept [])|].
      simpl. now rewrite app_nil_r.
    + apply (sort_from_later_stable publishedAtISO).
  - intros Hengine.
    assert (Hout : out = sort_from_earlier by_date_desc kept) by apply Hengine.
    rewrite Hout. split.
    + intros k. unfold sort_from_earlier.
      etransitivity;
        [apply (sort_from_earlier_same_acc publishedAtISO k kept []); constructor|].
      reflexivity.
    + apply (sort_from_earlier_stable publishedAtISO).
Qed.

(** Three records in range, the first two of one instant. The engine
    that asks about the later record first shows the second before the
    first; the stable sort on the negated key has them as they came, and so
    has the engine that asks about the earlier record first. Both engines
    are lawful. *)
Lemma filtered_ties_counterexample :
  let l := [Sample.item1; Sample.item2; Sample.item3] in
  let kept := List.filter (in_range (P := Sample.platform) "2026-11-01" "2026-11-03") l in
  publishedAtISO Sample.item1 = publishedAtISO Sample.item2
  /\ kept = l
  /\ sort_lawful Sample.platform
  /\ sort_lawful Sample.platform_earlier
  /\ filtered (P := Sample.platform) l "2026-11-01" "2026-11-03"
     = [Sample.item2; Sample.item1; Sample.item3]
  /\ stable_sort_desc publishedAtISO kept = [Sample.item1; Sample.item2; Sample.item3]
  /\ filtered (P := Sample.platform_earlier) l "2026-11-01" "2026-11-03"
     = [Sample.item1; Sample.item2; Sample.item3].
Proof.
  intros l kept.
  split; [reflexivity|].
  split; [vm_compute; reflexivity|].
  split; [exact sort_from_later_lawful|].
  split; [exact sort_from_earlier_lawful|].
  split; [vm_compute; reflexivity|].
  split; vm_compute; reflexivity.
Qed.

(** The same three records on both engines: each view is sorted
    descending, and the two records of one instant come out reversed on
    the one engine and as they came on the other. *)
Lemma filtered_sorted_desc_ties_by_engine_witness :
  let l := [Sample.item1; Sample.item2; Sample.item3] in
  let k := publishedAtISO Sample.item1 in
  let later_first := filtered (P := Sample.platform) l "2026-11-01" "2026-11-03" in
  let earlier_first :=
    filtered (P := Sample.platform_earlier) l "2026-11-01" "2026-11-03" in
  StronglySorted
    (fun a b => String.ltb (publishedAtISO a) (publishedAtISO b) = false) later_first
  /\ StronglySorted
       (fun a b => String.ltb (publishedAtISO a) (publishedAtISO b) = false)
       earlier_first
  /\ List.filter (fun n => String.eqb (publishedAtISO n) k) later_first
     = [Sample.item2; Sample.item1]
  /\ List.filter (fun n => String.eqb (publishedAtISO n) k) earlier_first
     = [Sample.item1; Sample.item2].
Proof.
  intros l k later_first earlier_first.
  pose proof (filtered_sorted_desc_ties_by_engine (P := Sample.platform)
                l "2026-11-01" "2026-11-03" sort_from_later_lawful) as H1.
  pose proof (filtered_sorted_desc_ties_by_engine (P := Sample.platform_earlier)
                l "2026-11-01" "2026-11-03" sort_from_earlier_lawful) as H2.
  cbv zeta in H1, H2.
  destruct H1 as (_ & Hs1 & _ & Hl & _).
  destruct H2 as (_ & Hs2 & _ & _ & He).
  split; [exact Hs1|]. split; [exact Hs2|].
  split.
  - exact (proj1 (Hl (fun r => eq_refl)) k).
  - exact (proj1 (He (fun r => eq_refl)) k).
Defined.

(** Three records, the second and third of one instant. On the engine
    that asks about the later record first the third is shown before the
    second, on the other engine the second before the third; the older
    first record comes last on both. *)
Example filtered_ties_example :
  filtered (P := Sample.platform) [Sample.item3; Sample.item1; Sample.item2]
    "2026-11-01" "2026-11-03"
  = [Sample.item2; Sample.item1; Sample.item3]
  /\ filtered (P := Sample.platform_earlier) [Sample.item3; Sample.item1; Sample.item2]
       "2026-11-01" "2026-11-03"
     = [Sample.item1; Sample.item2; Sample.item3].
Proof. split; vm_compute; reflexivity. Qed.

(** ** Dates *)

Lemma digit_val_digit (k : Z) : 0 <= k <= 9 -> digit_val (digit k) = Some k.
Proof.
  intros Hk.
  assert (H : k = 0 \/ k = 1 \/ k = 2 \/ k = 3 \/ k = 4 \/ k = 5 \/ k = 6
              \/ k = 7 \/ k = 8 \/ k = 9) by lia.
  repeat (destruct H as [-> | H]; [reflexivity|]). now subst.
Qed.

(** Reading back [w] padded digits, with [k] more digits to read. *)
Lemma read_digits_pad (w k : nat) (n acc : Z) (rest : string) :
  0 <= n < 10 ^ Z.of_nat w ->
  read_digits (w + k) acc (pad w n +:+ rest)
  = read_digits k (acc * 10 ^ Z.of_nat w + n) rest.
Proof.
  revert k n rest; induction w as [|w IH]; intros k n rest Hn.
  - simpl in *. f_equal. lia.
  - rewrite Nat2Z.inj_succ, Z.pow_succ_r in Hn by lia.
    cbn [pad]. rewrite append_assoc. cbn [append].
    replace (S w + k)%nat with (w + S k)%nat by lia.
    rewrite IH by (split; [apply Z.div_pos; lia | apply Z.div_lt_upper_bound; lia]).
    cbn [read_digits].
    rewrite digit_val_digit by (pose proof (Z.mod_pos_bound n 10); lia).
    f_equal. rewrite Nat2Z.inj_succ, Z.pow_succ_r by lia.
    pose proof (Z.div_mod n 10). lia.
Qed.

Lemma read_digits_pad_all (w : nat) (n : Z) (rest : string) :
  0 <= n < 10 ^ Z.of_nat w ->
  read_digits w 0 (pad w n +:+ rest) = Some (n, rest).
Proof.
  intros Hn. replace w with (w + 0)%nat at 1 by lia.
  rewrite read_digits_pad by exact Hn. simpl. do 2 f_equal.
Qed.

Lemma days_in_month_bound (y m : Z) : 28 <= days_in_month y m <= 31.
Proof.
  unfold days_in_month.
  destruct (m =? 2); [destruct (is_leap y); lia|].
  destruct (((m =? 4) || (m =? 6) || (m =? 9) || (m =? 11))%bool); lia.
Qed.

(** A calendar date followed by a time of day in UTC parses to the time
    value of that instant. *)
Lemma parse_iso_utc_date (y m d : Z) (hh mm ss : nat) :
  valid_date y m d ->
  (hh <= 23)%nat -> (mm <= 59)%nat -> (ss <= 59)%nat ->
  parse_iso_utc (isoDate y m d +:+ "T" +:+ pad 2 (Z.of_nat hh) +:+ ":"
                 +:+ pad 2 (Z.of_nat mm) +:+ ":" +:+ pad 2 (Z.of_nat ss) +:+ "Z")
  = Some (utc y m d (Z.of_nat hh) (Z.of_nat mm) (Z.of_nat ss) 0).
Proof.
  intros (Hy & Hm & Hd) Hh Hmi Hs.
  pose proof (days_in_month_bound y m) as Hdim.
  unfold parse_iso_utc, isoDate. rewrite !append_assoc.
  repeat (rewrite read_digits_pad_all by (simpl; lia);
          cbn [mbind option_bind append expect Ascii.eqb Bool.eqb]).
  cbn [read_fraction_Z].
  assert (Hok : ((1 <=? m) && (m <=? 12) && (1 <=? d) && (d <=? days_in_month y m)
                 && (Z.of_nat hh <=? 23) && (Z.of_nat mm <=? 59)
                 && (Z.of_nat ss <=? 59))%bool = true).
  { repeat (apply andb_true_intro; split); apply Z.leb_le; lia. }
  now rewrite Hok.
Qed.

Section ViewFacts.

Context {P : Platform}.

Lemma Date_parse_start_of_day (y m d : Z) :
  valid_date y m d ->
  Date_parse (isoDate y m d +:+ "T00:00:00Z") = Some (utc y m d 0 0 0 0).
Proof.
  intros H. unfold Date_parse.
  change (isoDate y m d +:+ "T00:00:00Z")
    with (isoDate y m d +:+ "T" +:+ pad 2 (Z.of_nat 0) +:+ ":"
          +:+ pad 2 (Z.of_nat 0) +:+ ":" +:+ pad 2 (Z.of_nat 0) +:+ "Z").
  now rewrite parse_iso_utc_date by (auto; lia).
Qed.

Lemma Date_parse_end_of_day (y m d : Z) :
  valid_date y m d ->
  Date_parse (isoDate y m d +:+ "T23:59:59Z") = Some (utc y m d 23 59 59 0).
Proof.
  intros H. unfold Date_parse.
  change (isoDate y m d +:+ "T23:59:59Z")
    with (isoDate y m d +:+ "T" +:+ pad 2 (Z.of_nat 23) +:+ ":"
          +:+ pad 2 (Z.of_nat 59) +:+ ":" +:+ pad 2 (Z.of_nat 59) +:+ "Z").
  now rewrite parse_iso_utc_date by (auto; lia).
Qed.

(** A lawful sort keeps exactly the records the date filter lets
    through. *)
Lemma In_filtered (l : list NewsItem) (from to : string) (n : NewsItem) :
  sort_lawful P ->
  (In n (filtered l from to) <-> In n l /\ in_range from to n = true).
Proof.
  intros [Hp _]. unfold filtered. rewrite <- filter_In.
  specialize (Hp _ by_date_desc (List.filter (in_range from to) l)).
  split; intros H.
  - eapply Permutation_in; [symmetry; exact Hp | exact H].
  - eapply Permutation_in; [exact Hp | exact H].
Qed.

End ViewFacts.

(** C6. For a range given as two calendar dates, the view contains a
    record exactly when the record is in [items] and its [publishedAtISO]
    is an instant [t] with [from 00:00:00Z <= t <= to 23:59:59Z]. Both
    bounds are included; an instant before the first or after the second,
    by however little, is left out. This holds on every engine whose sort
    is lawful, whatever it does with records of one instant. *)
Theorem filtered_closed_interval {P : Platform}
    (l : list NewsItem) (y1 m1 d1 y2 m2 d2 : Z) (n : NewsItem) :
  sort_lawful P ->
  valid_date y1 m1 d1 -> valid_date y2 m2 d2 ->
  (In n (filtered l (isoDate y1 m1 d1) (isoDate y2 m2 d2))
   <-> In n l
       /\ exists t, Date_parse (publishedAtISO n) = Some t
                    /\ utc y1 m1 d1 0 0 0 0 <= t <= utc y2 m2 d2 23 59 59 0).
Proof.
  intros Hlaw H1 H2. rewrite (In_filtered _ _ _ _ Hlaw). unfold in_range.
  rewrite (Date_parse_start_of_day _ _ _ H1), (Date_parse_end_of_day _ _ _ H2).
  destruct (Date_parse (publishedAtISO n)) as [t|]; simpl.
  - rewrite andb_true_iff, !Z.leb_le. split.
    + intros [Hin Ht]. split; [exact Hin | now exists t].
    + intros [Hin [t' [[= <-] Ht]]]. now split.
  - split; [intros [_ [=]] | intros [_ [t [[=] _]]]].
Qed.

(** The range 2026-11-01..2026-11-03: the records at the first and at
    the last instant of the range are shown, those one millisecond
    outside it are not. *)
Lemma filtered_closed_interval_witness :
  let at_ (iso : string) := mkNewsItem iso "t" "u" "s" iso EmptyString in
  let l := [ at_ "2026-10-31T23:59:59.999Z"; at_ "2026-11-01T00:00:00.000Z";
             at_ "2026-11-03T23:59:59.000Z"; at_ "2026-11-03T23:59:59.001Z" ] in
  let view := filtered (P := Sample.platform) l "2026-11-01" "2026-11-03" in
  In (at_ "2026-11-01T00:00:00.000Z") view
  /\ In (at_ "2026-11-03T23:59:59.000Z") view
  /\ ~ In (at_ "2026-10-31T23:59:59.999Z") view
  /\ ~ In (at_ "2026-11-03T23:59:59.001Z") view.
Proof.
  intros at_ l view. unfold view.
  assert (V1 : valid_date 2026 11 1) by (vm_compute; intuition discriminate).
  assert (V2 : valid_date 2026 11 3) by (vm_compute; intuition discriminate).
  pose proof (fun n => filtered_closed_interval (P := Sample.platform)
                         l 2026 11 1 2026 11 3 n sort_from_later_lawful V1 V2) as H.
  split; [|split; [|split]].
  - apply (proj2 (H (at_ "2026-11-01T00:00:00.000Z"))).
    split; [right; left; reflexivity|].
    exists 1793491200000.
    split; [vm_compute; reflexivity | vm_compute; intuition discriminate].
  - apply (proj2 (H (at_ "2026-11-03T23:59:59.000Z"))).
    split; [right; right; left; reflexivity|].
    exists 1793750399000.
    split; [vm_compute; reflexivity | vm_compute; intuition discriminate].
  - intros Hin.
    destruct (proj1 (H (at_ "2026-10-31T23:59:59.999Z")) Hin) as [_ [t [Ht [Hlo _]]]].
    vm_compute in Ht. injection Ht as <-. vm_compute in Hlo. apply Hlo. reflexivity.
  - intros Hin.
    destruct (proj1 (H (at_ "2026-11-03T23:59:59.001Z")) Hin) as [_ [t [Ht [_ Hhi]]]].
    vm_compute in Ht. injection Ht as <-. vm_compute in Hhi. apply Hhi. reflexivity.
Defined.

(** ** Cache store *)

Ltac unfold_M :=
  unfold try_catch, try_finally, mbind, M_bind, mret, M_ret, lift, throw,
    localStorage_getItem, localStorage_setItem, Date_now,
    setLoading, setError, setItems, fetch in *.

Ltac split_match :=
  match goal with
  | |- context [match ?x with _ => _ end] =>
      lazymatch x with
      | context [match _ with _ => _ end] => fail
      | _ => destruct x eqn:?
      end
  end.

Section CacheFacts.

Context {P : Platform}.

(** [loadCache] returns a value in every world, and all it does to the
    world is one read of the slot. *)
Lemma loadCache_run (w : World) :
  exists v, loadCache w = (Val v, logged (CallGetItem CACHE_KEY) w).
Proof.
  unfold loadCache. unfold_M. simpl.
  repeat (split_match; simpl); eexists; reflexivity.
Qed.

(** What it returns depends on the slot and the clock only. *)
Lemma loadCache_frame (w1 w2 : World) :
  localStorage w1 = localStorage w2 -> clock w1 = clock w2 ->
  fst (loadCache w1) = fst (loadCache w2).
Proof.
  intros Hs Hc. unfold loadCache. unfold_M. simpl. rewrite Hs.
  destruct (localStorage w2 !! CACHE_KEY) as [raw|]; [|reflexivity].
  destruct (is_empty raw); [reflexivity|].
  destruct (JSON_parse raw) as [obj|e]; [|reflexivity].
  destruct (getProp obj "ts") as [ts|e]; [|reflexivity].
  simpl. rewrite Hc.
  destruct (stale (clock w2) (ToNumber ts)); [reflexivity|].
  now destruct (getProp obj "items").
Qed.

Lemma loadCache_missing (w : World) :
  localStorage w !! CACHE_KEY = None -> fst (loadCache w) = Val VNull.
Proof. intros H. unfold loadCache. unfold_M. simpl. now rewrite H. Qed.

Lemma loadCache_empty (w : World) :
  localStorage w !! CACHE_KEY = Some EmptyString -> fst (loadCache w) = Val VNull.
Proof. intros H. unfold loadCache. unfold_M. simpl. now rewrite H. Qed.

Lemma loadCache_unparsable (w : World) (raw : string) (e : JsError) :
  localStorage w !! CACHE_KEY = Some raw -> JSON_parse raw = Throw e ->
  fst (loadCache w) = Val VNull.
Proof.
  intros H He. unfold loadCache. unfold_M. simpl. rewrite H.
  destruct (is_empty raw); [reflexivity|]. now rewrite He.
Qed.

Lemma loadCache_no_object (w : World) (raw : string) (obj : JsVal) (e : JsError) :
  localStorage w !! CACHE_KEY = Some raw -> JSON_parse raw = Val obj ->
  getProp obj "ts" = Throw e ->
  fst (loadCache w) = Val VNull.
Proof.
  intros H Ho He. unfold loadCache. unfold_M. simpl. rewrite H.
  destruct (is_empty raw); [reflexivity|]. now rewrite Ho, He.
Qed.

Lemma loadCache_stale (w : World) (raw : string) (obj ts : JsVal) (written : Z) :
  localStorage w !! CACHE_KEY = Some raw -> JSON_parse raw = Val obj ->
  getProp obj "ts" = Val ts -> ToNumber ts = Some written ->
  CACHE_TTL_MS < clock w - written ->
  fst (loadCache w) = Val VNull.
Proof.
  intros H Ho Hts Hn Hold. unfold loadCache. unfold_M. simpl. rewrite H.
  destruct (is_empty raw); [reflexivity|]. rewrite Ho, Hts, Hn. simpl.
  apply Z.ltb_lt in Hold. now rewrite Hold.
Qed.

Lemma loadCache_fresh (w : World) (raw : string) (obj ts v : JsVal) (written : Z) :
  localStorage w !! CACHE_KEY = Some raw -> is_empty raw = false ->
  JSON_parse raw = Val obj ->
  getProp obj "ts" = Val ts -> ToNumber ts = Some written ->
  clock w - written <= CACHE_TTL_MS ->
  getProp obj "items" = Val v ->
  fst (loadCache w) = Val v.
Proof.
  intros H Hne Ho Hts Hn Hnew Hv. unfold loadCache. unfold_M. simpl.
  rewrite H, Hne, Ho, Hts, Hn. simpl.
  apply Z.ltb_ge in Hnew. now rewrite Hnew, Hv.
Qed.

(** The freshness test as the code makes it: whatever [ts] is, the
    [items] of the entry are returned unless [ts] is a number that lies
    more than the window before the current time. *)
Lemma loadCache_not_stale (w : World) (raw : string) (obj ts v : JsVal) :
  localStorage w !! CACHE_KEY = Some raw -> is_empty raw = false ->
  JSON_parse raw = Val obj ->
  getProp obj "ts" = Val ts -> stale (clock w) (ToNumber ts) = false ->
  getProp obj "items" = Val v ->
  fst (loadCache w) = Val v.
Proof.
  intros H Hne Ho Hts Hn Hv. unfold loadCache. unfold_M. simpl.
  rewrite H, Hne, Ho, Hts. simpl. now rewrite Hn, Hv.
Qed.

Lemma loadCache_is_stale (w : World) (raw : string) (obj ts : JsVal) :
  localStorage w !! CACHE_KEY = Some raw ->
  JSON_parse raw = Val obj ->
  getProp obj "ts" = Val ts -> stale (clock w) (ToNumber ts) = true ->
  fst (loadCache w) = Val VNull.
Proof.
  intros H Ho Hts Hn. unfold loadCache. unfold_M. simpl. rewrite H.
  destruct (is_empty raw); [reflexivity|]. rewrite Ho, Hts. simpl. now rewrite Hn.
Qed.

(** [saveCache] writes the entry of the current time when the storage
    takes it ... *)
Lemma saveCache_run (l : list NewsItem) (w : World) :
  writable w (localStorage w) CACHE_KEY (JSON_stringify (cache_entry (clock w) l)) = true ->
  saveCache l w
  = (Val tt,
     mkWorld (ui w)
       (<[CACHE_KEY := JSON_stringify (cache_entry (clock w) l)]> (localStorage w))
       (clock w) (network w)
       (trace w ++ [CallSetItem CACHE_KEY (JSON_stringify (cache_entry (clock w) l))])
       (writable w)).
Proof.
  intros H. unfold saveCache. unfold_M. simpl. now rewrite H.
Qed.

(** ... and throws when the storage refuses it: nothing is stored. *)
Lemma saveCache_refused (l : list NewsItem) (w : World) :
  writable w (localStorage w) CACHE_KEY (JSON_stringify (cache_entry (clock w) l)) = false ->
  saveCache l w
  = (Throw (DOMException "QuotaExceededError"),
     logged (CallSetItem CACHE_KEY (JSON_stringify (cache_entry (clock w) l))) w).
Proof.
  intros H. unfold saveCache. unfold_M. simpl. now rewrite H.
Qed.

Lemma item_of_js_of_item (n : NewsItem) : item_of_js (js_of_item n) = Some n.
Proof. now destruct n. Qed.

Lemma items_of_js_of_items (l : list NewsItem) : items_of_js (js_of_items l) = Some l.
Proof.
  unfold items_of_js, js_of_items.
  induction l as [|n l IH]; [reflexivity|].
  cbn [map all_items]. now rewrite item_of_js_of_item, IH.
Qed.

End CacheFacts.

(** ** The codec of the sample platform

    Every cache entry it prints parses back to itself, so the premises of
    the round trip of the cache hold on it for every list of records. *)

Module SampleCodec.

Import Sample.

(** An escaped string reads back as itself, up to the closing quote. *)
Lemma read_string_escape (s rest : string) :
  read_string (escape s +:+ String quote rest) = Some (s, rest).
Proof.
  induction s as [|c s IH].
  - reflexivity.
  - cbn [escape]. rewrite append_assoc.
    generalize dependent (escape s +:+ String quote rest). intros t IH.
    destruct c as [[] [] [] [] [] [] [] []]; simpl; rewrite IH; reflexivity.
Qed.

Lemma read_value_string (f : nat) (s rest : string) :
  read_value (S f) (print_string s +:+ rest) = Some (VStr s, rest).
Proof.
  unfold print_string. simpl. rewrite append_assoc. simpl.
  now rewrite read_string_escape.
Qed.

(** The digits [Pos.to_uint] prints have no leading zero. *)
Lemma to_uint_head (p : positive) (u : Decimal.uint) : Pos.to_uint p <> Decimal.D0 u.
Proof.
  intros H.
  assert (Hn : Decimal.unorm (Pos.to_uint p) = Pos.to_uint p).
  { rewrite <- (DecimalPos.Unsigned.to_of (Pos.to_uint p)).
    now rewrite DecimalPos.Unsigned.of_to. }
  pose proof (Unsigned.to_uint_nonzero p) as Hz.
  unfold Decimal.unorm in Hn.
  destruct (Decimal.nzhead (Pos.to_uint p)) eqn:E;
    try (rewrite <- Hn in H; discriminate).
  - congruence.
  - rewrite <- Hn in H. apply (nzhead_nonzero (Pos.to_uint p) u0). exact E.
Qed.

(** The digits of a printed number are read up to the comma after it. *)
Lemma span_digits_uint (d : Decimal.uint) (rest : string) :
  span_digits (NilZero.string_of_uint d +:+ String "," rest)
  = (NilZero.string_of_uint d, String "," rest).
Proof.
  assert (H : forall d, span_digits (NilEmpty.string_of_uint d +:+ String "," rest)
                        = (NilEmpty.string_of_uint d, String "," rest)).
  { induction d0; simpl; try rewrite IHd0; reflexivity. }
  destruct d; try apply H. reflexivity.
Qed.

(** A printed positive number reads back as itself, with its sign. *)
Lemma read_unsigned_pos (p : positive) (neg : bool) (rest : string) :
  read_unsigned neg (NilZero.string_of_uint (Pos.to_uint p) +:+ String "," rest)
  = Some (VNum (if neg then Z.neg p else Z.pos p), String "," rest).
Proof.
  unfold read_unsigned. rewrite span_digits_uint.
  pose proof (Unsigned.to_uint_nonnil p) as Hnil.
  pose proof (to_uint_head p) as Hhead.
  pose proof (NilZero.usu (Pos.to_uint p) Hnil) as Husu.
  assert (Hval : Z.of_uint (Pos.to_uint p) = Z.pos p)
    by exact (DecimalZ.of_to (Z.pos p)).
  destruct (Pos.to_uint p) as [|u|u|u|u|u|u|u|u|u|u] eqn:E;
    try congruence; try (exfalso; now apply (Hhead u));
    cbn [NilZero.string_of_uint NilEmpty.string_of_uint] in *;
    rewrite Husu; cbn [mbind option_bind]; rewrite Hval;
    destruct neg; reflexivity.
Qed.

(** A printed integer starts with a digit or with the sign. *)
Lemma string_of_int_head (n : Z) :
  exists c t, NilZero.string_of_int (Z.to_int n) = String c t
              /\ (is_digit c = true \/ c = "-"%char).
Proof.
  destruct n as [|p|p]; cbn [Z.to_int NilZero.string_of_int Pos.to_int].
  - exists "0"%char, EmptyString. auto.
  - pose proof (Unsigned.to_uint_nonnil p).
    destruct (Pos.to_uint p); try congruence; simpl; eauto.
  - eexists _, _. split; [reflexivity | now right].
Qed.

Lemma read_number_Z (n : Z) (rest : string) :
  read_number (NilZero.string_of_int (Z.to_int n) +:+ String "," rest)
  = Some (VNum n, String "," rest).
Proof.
  destruct n as [|p|p]; cbn [Z.to_int NilZero.string_of_int Pos.to_int].
  - reflexivity.
  - pose proof (read_unsigned_pos p false rest) as H.
    pose proof (Unsigned.to_uint_nonnil p) as Hnil.
    destruct (Pos.to_uint p); try congruence; exact H.
  - cbn [append read_number Ascii.eqb Bool.eqb]. apply read_unsigned_pos.
Qed.

Lemma head_not_ws (c : ascii) :
  is_digit c = true \/ c = "-"%char -> is_ws c = false.
Proof.
  intros [H | ->]; [|reflexivity].
  destruct c as [[] [] [] [] [] [] [] []]; try discriminate; reflexivity.
Qed.

Lemma read_value_number (f : nat) (n : Z) (rest : string) :
  read_value (S f) (NilZero.string_of_int (Z.to_int n) +:+ String "," rest)
  = Some (VNum n, String "," rest).
Proof.
  rewrite <- read_number_Z.
  destruct (string_of_int_head n) as (c & t & -> & Hc).
  cbn [read_value append skip_ws]. rewrite (head_not_ws c Hc).
  destruct Hc as [Hc | ->]; [|reflexivity].
  destruct c as [[] [] [] [] [] [] [] []]; try discriminate; reflexivity.
Qed.

(** One step of each reader. *)
Lemma read_value_eq (f : nat) (s : string) :
  read_value (S f) s
  = match skip_ws s with
    | String c r =>
        if Ascii.eqb c quote then
          '(str, rest) ← read_string r; Some (VStr str, rest)
        else if Ascii.eqb c "[" then
          match skip_ws r with
          | String "]" rest => Some (VArr [], rest)
          | r' => '(l, rest) ← read_elements f r'; Some (VArr l, rest)
          end
        else if Ascii.eqb c "{" then
          match skip_ws r with
          | String "}" rest => Some (VObj [], rest)
          | r' => '(fs, rest) ← read_members f r'; Some (VObj fs, rest)
          end
        else if Ascii.eqb c "n" then read_literal "null" VNull (String c r)
        else if Ascii.eqb c "t" then read_literal "true" (VBool true) (String c r)
        else if Ascii.eqb c "f" then read_literal "false" (VBool false) (String c r)
        else read_number (String c r)
    | EmptyString => None
    end.
Proof. reflexivity. Qed.

Lemma read_elements_eq (f : nat) (s : string) :
  read_elements (S f) s
  = '(v, rest) ← read_value f s;
    match skip_ws rest with
    | String "," r => '(l, rest') ← read_elements f r; Some (v :: l, rest')
    | String "]" r => Some ([v], r)
    | _ => None
    end.
Proof. reflexivity. Qed.

Lemma read_members_eq (f : nat) (s : string) :
  read_members (S f) s
  = match skip_ws s with
    | String c r =>
        if Ascii.eqb c quote then
          '(k, rest) ← read_string r;
          match skip_ws rest with
          | String ":" r' =>
              '(v, rest') ← read_value f r';
              match skip_ws rest' with
              | String "," r'' =>
                  '(fs, rest'') ← read_members f r''; Some ((k, v) :: fs, rest'')
              | String "}" r'' => Some ([(k, v)], r'')
              | _ => None
              end
          | _ => None
          end
        else None
    | EmptyString => None
    end.
Proof. reflexivity. Qed.

Lemma skip_ws_head (c : ascii) (r : string) :
  is_ws c = false -> skip_ws (String c r) = String c r.
Proof. intros H. cbn [skip_ws]. now rewrite H. Qed.

Lemma print_string_app (s rest : string) :
  print_string s +:+ rest = String quote (escape s +:+ String quote rest).
Proof. unfold print_string. cbn [append]. now rewrite append_assoc. Qed.

(** A member whose value is a string, and what follows it. *)
Lemma read_members_string (f : nat) (k v tail : string) :
  read_members (S (S f)) (print_string k +:+ String ":" (print_string v +:+ tail))
  = match skip_ws tail with
    | String "," r =>
        '(fs, rest) ← read_members (S f) r; Some ((k, VStr v) :: fs, rest)
    | String "}" r => Some ([(k, VStr v)], r)
    | _ => None
    end.
Proof.
  rewrite read_members_eq, print_string_app.
  rewrite skip_ws_head by reflexivity.
  replace (Ascii.eqb quote quote) with true by reflexivity. cbv iota.
  rewrite read_string_escape. cbn [mbind option_bind].
  rewrite skip_ws_head by reflexivity.
  rewrite read_value_string. reflexivity.
Qed.

Lemma read_value_object (f : nat) (r : string) :
  read_value (S f) (String "{" (String quote r))
  = '(fs, rest) ← read_members f (String quote r); Some (VObj fs, rest).
Proof. reflexivity. Qed.

Lemma read_value_array (f : nat) (r : string) :
  read_value (S f) (String "[" (String "{" r))
  = '(l, rest) ← read_elements f (String "{" r); Some (VArr l, rest).
Proof. reflexivity. Qed.

Lemma read_value_item (fuel : nat) (n : NewsItem) (rest : string) :
  (8 <= fuel)%nat ->
  read_value fuel (stringify (js_of_item n) +:+ rest) = Some (js_of_item n, rest).
Proof.
  intros Hfuel. replace fuel with (8 + (fuel - 8))%nat by lia.
  generalize (fuel - 8)%nat. clear fuel Hfuel. intros f.
  destruct n as [a b c d e g].
  cbn [stringify js_of_item map join fst snd id title url source publishedAtISO snippet].
  rewrite !append_assoc. cbn [append].
  change (8 + f)%nat with (S (S (S (S (S (S (S (S f)))))))).
  rewrite (print_string_app "id"), read_value_object, <- print_string_app.
  do 6 (rewrite read_members_string; rewrite skip_ws_head by reflexivity).
  reflexivity.
Qed.

Lemma join_two (sep x y : string) (r : list string) :
  join sep (x :: y :: r) = x +:+ sep +:+ join sep (y :: r).
Proof. reflexivity. Qed.

(** The elements of a non-empty array of records, up to the bracket. *)
Lemma read_elements_items (f : nat) (n : NewsItem) (l : list NewsItem) (rest : string) :
  read_elements (length l + 9 + f)
    (join "," (map stringify (map js_of_item (n :: l))) +:+ String "]" rest)
  = Some (map js_of_item (n :: l), rest).
Proof.
  revert n; induction l as [|m l IH]; intros n.
  - cbn [map join length Nat.add]. rewrite read_elements_eq.
    rewrite read_value_item by lia. cbn [mbind option_bind].
    rewrite skip_ws_head by reflexivity. reflexivity.
  - cbn [map length Nat.add]. rewrite join_two, read_elements_eq.
    rewrite !append_assoc. cbn [append].
    rewrite read_value_item by lia. cbn [mbind option_bind].
    rewrite skip_ws_head by reflexivity.
    specialize (IH m). cbn [map] in IH. rewrite IH. reflexivity.
Qed.

Lemma stringify_item_head (n : NewsItem) :
  exists t, stringify (js_of_item n) = String "{" t.
Proof. destruct n. eexists. reflexivity. Qed.

(** The entry of the cache, read back. *)
Lemma read_value_entry (f : nat) (now : Z) (l : list NewsItem) :
  read_value (length l + 13 + f) (stringify (cache_entry now l))
  = Some (cache_entry now l, EmptyString).
Proof.
  unfold cache_entry, js_of_items.
  cbn [stringify map join fst snd].
  rewrite !append_assoc. cbn [append].
  replace (length l + 13 + f)%nat with (S (S (S (S (length l + 9 + f))))) by lia.
  rewrite (print_string_app "ts"), read_value_object, <- print_string_app.
  rewrite read_members_eq, print_string_app.
  rewrite skip_ws_head by reflexivity.
  replace (Ascii.eqb quote quote) with true by reflexivity. cbv iota.
  rewrite read_string_escape. cbn [mbind option_bind].
  rewrite skip_ws_head by reflexivity.
  rewrite read_value_number. cbn [mbind option_bind].
  rewrite skip_ws_head by reflexivity.
  rewrite read_members_eq, print_string_app.
  rewrite skip_ws_head by reflexivity.
  replace (Ascii.eqb quote quote) with true by reflexivity. cbv iota.
  rewrite read_string_escape. cbn [mbind option_bind].
  rewrite skip_ws_head by reflexivity.
  destruct l as [|n l].
  - reflexivity.
  - destruct (stringify_item_head n) as [t Ht].
    assert (Hj : exists t', join "," (map stringify (map js_of_item (n :: l)))
                            = String "{" t').
    { cbn [map join]. destruct (map stringify (map js_of_item l));
        rewrite Ht; eexists; reflexivity. }
    destruct Hj as [t' Hj].
    pose proof (read_elements_items (S f) n l (String "}" EmptyString)) as Hel.
    rewrite Hj in *. cbn [append] in *.
    cbn [length]. replace (S (length l) + 9 + f)%nat with (S (length l + 9 + f)) by lia.
    replace (length l + 9 + S f)%nat with (S (length l + 9 + f)) in Hel by lia.
    rewrite read_value_array, Hel. reflexivity.
Qed.

Lemma length_append (a b : string) :
  String.length (a +:+ b) = (String.length a + String.length b)%nat.
Proof. induction a as [|c a IH]; simpl; [reflexivity | now rewrite IH]. Qed.

Lemma length_join_items (l : list NewsItem) :
  (length l <= String.length (join "," (map stringify (map js_of_item l))))%nat.
Proof.
  induction l as [|n l IH]; [simpl; lia|].
  destruct (stringify_item_head n) as [t Ht].
  cbn [map]. destruct l as [|m l].
  - cbn [map join]. rewrite Ht. simpl. lia.
  - cbn [map] in *. rewrite join_two, !length_append, Ht. simpl in *. lia.
Qed.

(** Every cache entry printed by the sample codec parses back to itself. *)
Lemma parse_stringify_entry (now : Z) (l : list NewsItem) :
  parse (stringify (cache_entry now l)) = Val (cache_entry now l)
  /\ is_empty (stringify (cache_entry now l)) = false.
Proof.
  split; [|reflexivity].
  unfold parse.
  assert (Hlen : (length l + 12 <= String.length (stringify (cache_entry now l)))%nat).
  { unfold cache_entry, js_of_items. cbn [stringify map join fst snd].
    rewrite !length_append. pose proof (length_join_items l). simpl. lia. }
  replace (S (String.length (stringify (cache_entry now l))))
    with (length l + 13 + (String.length (stringify (cache_entry now l)) - (length l + 12)))%nat
    by lia.
  now rewrite read_value_entry.
Qed.

End SampleCodec.

(** ** Orchestrator *)

Section LoadFacts.

Context {P : Platform}.

#[local] Arguments loadCache : simpl never.
#[local] Arguments fetchGoogleNewsRSS : simpl never.
#[local] Arguments JSON_stringify : simpl never.
#[local] Arguments js_of_items : simpl never.

(** The fetcher leaves the world as the request alone does. *)
Lemma fetch_world (w : World) :
  snd (fetchGoogleNewsRSS w) = snd (fetch PROXY_URL w).
Proof.
  unfold fetchGoogleNewsRSS. unfold_M. simpl.
  repeat (split_match; simpl); reflexivity.
Qed.

(** Its outcome depends on the network only. *)
Lemma fetch_frame (w1 w2 : World) :
  network w1 = network w2 ->
  fst (fetchGoogleNewsRSS w1) = fst (fetchGoogleNewsRSS w2).
Proof.
  intros Hn. unfold fetchGoogleNewsRSS. unfold_M. simpl. rewrite Hn.
  repeat (split_match; simpl); reflexivity.
Qed.

(** The ways the fetcher throws: the request is rejected, the response
    is not [ok], its body cannot be read, or a record cannot be built. *)
Lemma fetcher_failures (w : World) :
  (forall e, result (network w PROXY_URL) = Throw e ->
             fst (fetchGoogleNewsRSS w) = Throw e)
  /\ (forall r, result (network w PROXY_URL) = Val r -> ok r = false ->
                fst (fetchGoogleNewsRSS w) = Throw (Error "RSS fetch failed"))
  /\ (forall r e, result (network w PROXY_URL) = Val r -> ok r = true ->
                  text r = Throw e ->
                  fst (fetchGoogleNewsRSS w) = Throw e)
  /\ (forall r body, result (network w PROXY_URL) = Val r -> ok r = true ->
                     text r = Val body ->
                     fst (fetchGoogleNewsRSS w)
                     = parseItems (item_elements (DOM_parse body))).
Proof.
  unfold fetchGoogleNewsRSS. unfold_M. simpl. repeat split.
  - intros e ->. reflexivity.
  - intros r -> ->. reflexivity.
  - intros r e -> -> ->. reflexivity.
  - intros r body -> -> ->. simpl.
    now destruct (parseItems (item_elements (DOM_parse body))).
Qed.

Lemma fetch_run (w : World) :
  fetchGoogleNewsRSS w
  = (fst (fetchGoogleNewsRSS w),
     mkWorld (ui w) (localStorage w) (clock w + elapsed (network w PROXY_URL))
       (network w) (trace w ++ [CallFetch PROXY_URL]) (writable w)).
Proof.
  change (mkWorld _ _ _ _ _ _) with (snd (fetch PROXY_URL w)).
  rewrite <- fetch_world. now destruct (fetchGoogleNewsRSS w).
Qed.

(** Computes the calls on the world: the setters, the projections and the
    plumbing of the monad, by value. *)
Ltac run_world :=
  cbv [with_ui logged later ui localStorage clock network trace writable
       items loading error negb fst snd
       saveCache Date_now localStorage_setItem mbind M_bind].

(** Replaces the call of [loadCache] in the goal by the value that
    [Hc] says it has in the world the caller started from. *)
Ltac cache_step Hc :=
  match type of Hc with
  | fst (loadCache ?w) = Val ?v =>
      match goal with
      | |- context [loadCache ?W] =>
          let v' := fresh "v" in
          let Hv := fresh "Hv" in
          destruct (loadCache_run W) as [v' Hv];
          assert (v' = v)
            by (assert (Hf : fst (loadCache W) = fst (loadCache w))
                  by (apply loadCache_frame; reflexivity);
                rewrite Hv, Hc in Hf; now injection Hf);
          subst v'; rewrite Hv; clear Hv
      end
  end.

(** Replaces the call of the fetcher in the goal by the outcome that
    [Hraw] says it has in the world the caller started from, and by the
    world the request leaves. *)
Ltac fetch_step Hraw :=
  match type of Hraw with
  | fst (fetchGoogleNewsRSS ?w) = _ =>
      match goal with
      | |- context [fetchGoogleNewsRSS ?W] =>
          rewrite (fetch_run W);
          rewrite (fetch_frame W w) by reflexivity;
          rewrite Hraw
      end
  end.

(** [load(false)] on a cache hit. *)
Lemma load_hit (w : World) (cached : JsVal) :
  fst (loadCache w) = Val cached -> truthy cached = true ->
  load false w
  = (Val tt,
     mkWorld (mkState cached false None) (localStorage w) (clock w) (network w)
       (trace w ++ [ CallSetLoading true; CallSetError None; CallGetItem CACHE_KEY;
                     CallSetItems cached; CallSetLoading false;
                     CallSetLoading false ])
       (writable w)).
Proof.
  destruct w as [[its ld er] ls c net tr wr]. intros Hc Ht.
  unfold load. unfold_M. run_world.
  cache_step Hc. run_world. rewrite Ht. run_world.
  rewrite <- !List.app_assoc. reflexivity.
Qed.

(** [load(force)] when the fetcher runs and returns [raw], and the
    storage takes the entry. *)
Lemma load_fetched (force : bool) (w : World) (raw : list NewsItem) :
  force = true \/ (exists v, fst (loadCache w) = Val v /\ truthy v = false) ->
  fst (fetchGoogleNewsRSS w) = Val raw ->
  let relevant := firstn 100 (List.filter isRelevant raw) in
  let now := clock w + elapsed (network w PROXY_URL) in
  let text := JSON_stringify (cache_entry now relevant) in
  writable w (localStorage w) CACHE_KEY text = true ->
  load force w
  = (Val tt,
     mkWorld (mkState (js_of_items relevant) false None)
       (<[CACHE_KEY := text]> (localStorage w)) now (network w)
       (trace w ++ [ CallSetLoading true; CallSetError None ]
                ++ (if force then [] else [ CallGetItem CACHE_KEY ])
                ++ [ CallFetch PROXY_URL; CallSetItems (js_of_items relevant);
                     CallSetItem CACHE_KEY text; CallSetLoading false ])
       (writable w)).
Proof.
  destruct w as [[its ld er] ls c net tr wr].
  intros Hpath Hraw relevant now text Hw. subst relevant now text.
  cbv [writable clock network localStorage] in Hw. unfold load. unfold_M.
  destruct force; run_world.
  - fetch_step Hraw. run_world. rewrite Hw. run_world.
    rewrite <- !List.app_assoc. reflexivity.
  - destruct Hpath as [[=] | [v [Hc Ht]]].
    cache_step Hc. run_world. rewrite Ht. run_world.
    fetch_step Hraw. run_world. rewrite Hw. run_world.
    rewrite <- !List.app_assoc. reflexivity.
Qed.

(** [load(force)] when the fetcher runs and returns [raw], and the
    storage refuses the entry: [setItem] throws inside the [try], after
    the list was adopted, and the [catch] sets the message. *)
Lemma load_unsaved (force : bool) (w : World) (raw : list NewsItem) :
  force = true \/ (exists v, fst (loadCache w) = Val v /\ truthy v = false) ->
  fst (fetchGoogleNewsRSS w) = Val raw ->
  let relevant := firstn 100 (List.filter isRelevant raw) in
  let now := clock w + elapsed (network w PROXY_URL) in
  let text := JSON_stringify (cache_entry now relevant) in
  writable w (localStorage w) CACHE_KEY text = false ->
  load force w
  = (Val tt,
     mkWorld (mkState (js_of_items relevant) false (Some ERROR_MESSAGE))
       (localStorage w) now (network w)
       (trace w ++ [ CallSetLoading true; CallSetError None ]
                ++ (if force then [] else [ CallGetItem CACHE_KEY ])
                ++ [ CallFetch PROXY_URL; CallSetItems (js_of_items relevant);
                     CallSetItem CACHE_KEY text;
                     CallSetError (Some ERROR_MESSAGE); CallSetLoading false ])
       (writable w)).
Proof.
  destruct w as [[its ld er] ls c net tr wr].
  intros Hpath Hraw relevant now text Hw. subst relevant now text.
  cbv [writable clock network localStorage] in Hw. unfold load. unfold_M.
  destruct force; run_world.
  - fetch_step Hraw. run_world. rewrite Hw. run_world.
    rewrite <- !List.app_assoc. reflexivity.
  - destruct Hpath as [[=] | [v [Hc Ht]]].
    cache_step Hc. run_world. rewrite Ht. run_world.
    fetch_step Hraw. run_world. rewrite Hw. run_world.
    rewrite <- !List.app_assoc. reflexivity.
Qed.

(** [load(force)] when the fetcher runs and throws [e]. *)
Lemma load_failed (force : bool) (w : World) (e : JsError) :
  force = true \/ (exists v, fst (loadCache w) = Val v /\ truthy v = false) ->
  fst (fetchGoogleNewsRSS w) = Throw e ->
  load force w
  = (Val tt,
     mkWorld (mkState (items (ui w)) false (Some ERROR_MESSAGE))
       (localStorage w) (clock w + elapsed (network w PROXY_URL)) (network w)
       (trace w ++ [ CallSetLoading true; CallSetError None ]
                ++ (if force then [] else [ CallGetItem CACHE_KEY ])
                ++ [ CallFetch PROXY_URL; CallSetError (Some ERROR_MESSAGE);
                     CallSetLoading false ])
       (writable w)).
Proof.
  destruct w as [[its ld er] ls c net tr wr].
  intros Hpath Hraw. unfold load. unfold_M.
  destruct force; run_world.
  - fetch_step Hraw. run_world.
    rewrite <- !List.app_assoc. reflexivity.
  - destruct Hpath as [[=] | [v [Hc Ht]]].
    cache_step Hc. run_world. rewrite Ht. run_world.
    fetch_step Hraw. run_world.
    rewrite <- !List.app_assoc. reflexivity.
Qed.

End LoadFacts.

(** What holds of [loadCache] whatever the slot holds: it returns a value,
    no exception leaves it. The value is [null] when the slot is missing or
    empty, when its text is not JSON, when the parsed value has no
    properties to read, and when the [ts] it carries lies more than
    [CACHE_TTL_MS] before the current time; in that last case
    [load(false)] goes on to the network, whether or not the storage then
    takes the new entry. *)
Lemma loadCache_absent_or_value {P : Platform} (w : World) :
  (exists v, fst (loadCache w) = Val v)
  /\ (localStorage w !! CACHE_KEY = None -> fst (loadCache w) = Val VNull)
  /\ (localStorage w !! CACHE_KEY = Some EmptyString -> fst (loadCache w) = Val VNull)
  /\ (forall raw e,
        localStorage w !! CACHE_KEY = Some raw -> JSON_parse raw = Throw e ->
        fst (loadCache w) = Val VNull)
  /\ (forall raw obj e,
        localStorage w !! CACHE_KEY = Some raw -> JSON_parse raw = Val obj ->
        getProp obj "ts" = Throw e ->
        fst (loadCache w) = Val VNull)
  /\ (forall raw obj ts written,
        localStorage w !! CACHE_KEY = Some raw -> JSON_parse raw = Val obj ->
        getProp obj "ts" = Val ts -> ToNumber ts = Some written ->
        CACHE_TTL_MS < clock w - written ->
        fst (loadCache w) = Val VNull
        /\ In (CallFetch PROXY_URL) (trace (snd (load false w)))).
Proof.
  split; [|split; [|split; [|split; [|split]]]].
  - destruct (loadCache_run w) as [v Hv]. exists v. now rewrite Hv.
  - apply loadCache_missing.
  - apply loadCache_empty.
  - intros raw e. apply loadCache_unparsable.
  - intros raw obj e. apply loadCache_no_object.
  - intros raw obj ts written Hraw Hobj Hts Hn Hold.
    assert (Hnull : fst (loadCache w) = Val VNull)
      by (eapply loadCache_stale; eauto).
    split; [exact Hnull|].
    assert (Hmiss : false = true
                    \/ exists v, fst (loadCache w) = Val v /\ truthy v = false)
      by (right; now exists VNull).
    destruct (fst (fetchGoogleNewsRSS w)) as [fetched|e] eqn:Hf.
    + destruct (writable w (localStorage w) CACHE_KEY
                  (JSON_stringify
                     (cache_entry (clock w + elapsed (network w PROXY_URL))
                        (firstn 100 (List.filter isRelevant fetched))))) eqn:Hw.
      * rewrite (load_fetched false w fetched Hmiss Hf Hw). simpl.
        rewrite !in_app_iff. simpl. auto 10.
      * rewrite (load_unsaved false w fetched Hmiss Hf Hw). simpl.
        rewrite !in_app_iff. simpl. auto 10.
    + rewrite (load_failed false w e Hmiss Hf). simpl.
      rewrite !in_app_iff. simpl. auto 10.
Qed.

(** A slot written 61 minutes ago: [loadCache] returns [null] and
    [load(false)] fetches. *)
Lemma loadCache_stale_slot_example :
  let raw := Sample.stringify (cache_entry (1793685600000 - 61 * 60 * 1000) [Sample.item1]) in
  let w := Sample.world initial_state (Some raw) (Sample.serves Sample.FEED) in
  fst (loadCache (P := Sample.platform) w) = Val VNull
  /\ In (CallFetch PROXY_URL) (trace (snd (load (P := Sample.platform) false w))).
Proof.
  intros raw w.
  destruct (loadCache_absent_or_value (P := Sample.platform) w)
    as (_ & _ & _ & _ & _ & Hstale).
  apply (Hstale raw (cache_entry (1793685600000 - 61 * 60 * 1000) [Sample.item1])
           (VNum (1793685600000 - 61 * 60 * 1000))
           (1793685600000 - 61 * 60 * 1000)).
  - apply lookup_singleton_eq.
  - vm_compute. reflexivity.
  - reflexivity.
  - reflexivity.
  - vm_compute. reflexivity.
Qed.

(** C5. Where the code departs from the specification, and from its own
    declaration [NewsItem[] | null]: a slot whose text is JSON but not a
    cache entry is not turned into [null]. When the parsed object passes
    the freshness test, as it does without a [ts], [loadCache] returns its
    [items] whatever that is. If it is truthy and no array of records,
    [load(false)] adopts it as the records, ends ready and fetches nothing;
    and if it is no array at all, the [items.filter] of the next render
    throws a [TypeError]. *)
Theorem loadCache_returns_unvalidated_items {P : Platform}
    (w : World) (raw : string) (obj ts v : JsVal) :
  localStorage w !! CACHE_KEY = Some raw -> is_empty raw = false ->
  JSON_parse raw = Val obj ->
  getProp obj "ts" = Val ts -> stale (clock w) (ToNumber ts) = false ->
  getProp obj "items" = Val v ->
  truthy v = true -> items_of_js v = None ->
  let w' := snd (load false w) in
  is_cache_entry obj = false
  /\ fst (loadCache w) = Val v
  /\ fst (loadCache w) <> Val VNull
  /\ items (ui w') = v
  /\ items_of_js (items (ui w')) = None
  /\ phase (ui w') = Ready
  /\ trace w'
     = (trace w ++ [ CallSetLoading true; CallSetError None; CallGetItem CACHE_KEY;
                     CallSetItems v; CallSetLoading false;
                     CallSetLoading false ])%list
  /\ ((forall l, v <> VArr l) ->
      exists msg, items_filter (items (ui w')) = Throw (TypeError msg)).
Proof.
  intros Hraw Hne Hobj Hts Hfresh Hitems Htruthy Hnot w'.
  assert (Hc : fst (loadCache w) = Val v)
    by (eapply loadCache_not_stale; eauto).
  assert (Hentry : is_cache_entry obj = false).
  { destruct obj as [| | | | | |fs]; try reflexivity.
    simpl in Hitems. injection Hitems as Hv. simpl. rewrite Hv, Hnot.
    now destruct (assoc "ts" fs). }
  assert (Hnull : fst (loadCache w) <> Val VNull).
  { rewrite Hc. intros E. assert (Hv : v = VNull) by congruence.
    rewrite Hv in Htruthy. discriminate. }
  assert (Hrun : w' = snd (load false w)) by reflexivity.
  rewrite (load_hit w v Hc Htruthy) in Hrun. cbn [snd] in Hrun.
  clearbody w'. subst w'. cbn [ui items trace].
  split; [exact Hentry|]. split; [exact Hc|]. split; [exact Hnull|].
  split; [reflexivity|]. split; [exact Hnot|]. split; [reflexivity|].
  split; [reflexivity|].
  intros Harr. destruct v; simpl in *; try discriminate;
      try (eexists; reflexivity).
    now destruct (Harr elems).
Qed.

(** The slot [{ "items": "oops" }]: it has no [ts] and no array of
    records. [loadCache] returns the string, [load(false)] puts it on
    screen as the records without a fetch, and the render that follows
    throws. *)
Lemma loadCache_returns_unvalidated_items_witness :
  let obj := VObj [("items", VStr "oops")] in
  let raw := Sample.stringify obj in
  let w := Sample.world initial_state (Some raw) Sample.offline in
  let w' := snd (load (P := Sample.platform) false w) in
  JSON_parse (Platform := Sample.platform) raw = Val obj
  /\ fst (loadCache (P := Sample.platform) w) = Val (VStr "oops")
  /\ items (ui w') = VStr "oops"
  /\ phase (ui w') = Ready
  /\ ~ In (CallFetch PROXY_URL) (trace w')
  /\ exists msg, items_filter (items (ui w')) = Throw (TypeError msg).
Proof.
  intros obj raw w w'.
  assert (Hlook : localStorage w !! CACHE_KEY = Some raw)
    by apply lookup_singleton_eq.
  assert (Hne : is_empty raw = false) by (vm_compute; reflexivity).
  assert (Hobj : JSON_parse (Platform := Sample.platform) raw = Val obj)
    by (vm_compute; reflexivity).
  split; [exact Hobj|].
  destruct (loadCache_returns_unvalidated_items (P := Sample.platform)
              w raw obj VUndefined (VStr "oops")
              Hlook Hne Hobj eq_refl eq_refl eq_refl eq_refl eq_refl)
    as (_ & Hc & _ & Hi & _ & Hp & Hf & Ht).
  fold w' in Hi, Hp, Hf, Ht.
  split; [exact Hc|]. split; [exact Hi|]. split; [exact Hp|].
  split; [rewrite Hf; simpl; intuition discriminate|].
  apply Ht. intros l. discriminate.
Defined.

(** C4, as amended. [saveCache(records)] and then [loadCache()], with no
    write in between and no more than the freshness window gone by, returns
    the saved records when the storage takes the write: the array read back
    is the array of the saved records, field by field and in order. When
    the storage refuses the write, [saveCache] throws, the store is as it
    was, and [loadCache] returns what it would have returned without the
    call. The JSON codec is the platform's; it is asked to print the entry
    as a non-empty text that parses back to the entry. *)
Theorem saveCache_then_loadCache {P : Platform}
    (w : World) (l : list NewsItem) (d : Z) :
  let entry := VObj [ ("ts", VNum (clock w)); ("items", VArr (map js_of_item l)) ] in
  let text := JSON_stringify entry in
  is_empty text = false ->
  JSON_parse text = Val entry ->
  d <= CACHE_TTL_MS ->
  (writable w (localStorage w) CACHE_KEY text = true ->
   fst (saveCache l w) = Val tt
   /\ localStorage (snd (saveCache l w)) !! CACHE_KEY = Some text
   /\ fst (loadCache (later d (snd (saveCache l w)))) = Val (VArr (map js_of_item l)))
  /\ (writable w (localStorage w) CACHE_KEY text = false ->
      fst (saveCache l w) = Throw (DOMException "QuotaExceededError")
      /\ localStorage (snd (saveCache l w)) = localStorage w
      /\ fst (loadCache (later d (snd (saveCache l w)))) = fst (loadCache (later d w)))
  /\ items_of_js (VArr (map js_of_item l)) = Some l.
Proof.
  intros entry text Hne Hrt Hd.
  split; [|split; [|apply (items_of_js_of_items l)]].
  - intros Hw. rewrite (saveCache_run l w Hw). cbn [fst snd localStorage].
    split; [reflexivity|]. split; [apply lookup_insert_eq|].
    apply (loadCache_fresh _ text entry (VNum (clock w))
             (js_of_items l) (clock w)); simpl; auto.
    + apply lookup_insert_eq.
    + lia.
  - intros Hw. rewrite (saveCache_refused l w Hw). cbn [fst snd].
    split; [reflexivity|]. split; [reflexivity|].
    apply loadCache_frame; reflexivity.
Qed.

(** Three records saved and read back one second later. *)
Lemma saveCache_then_loadCache_witness :
  let l := [Sample.item1; Sample.item2; Sample.item3] in
  let w := Sample.world initial_state None Sample.offline in
  fst (loadCache (P := Sample.platform)
         (later 1000 (snd (saveCache (P := Sample.platform) l w))))
  = Val (js_of_items l)
  /\ items_of_js (js_of_items l) = Some l.
Proof.
  intros l w.
  destruct (saveCache_then_loadCache (P := Sample.platform) w l 1000)
    as (Hok & _ & Hread).
  - vm_compute. reflexivity.
  - vm_compute. reflexivity.
  - vm_compute. discriminate.
  - split; [|exact Hread]. apply Hok. reflexivity.
Defined.

(** C4, as stated, fails when the storage is full: [saveCache] throws,
    the slot stays empty, and the [loadCache] that follows returns [null]
    and not the three records. *)
Lemma saveCache_full_storage_counterexample :
  let l := [Sample.item1; Sample.item2; Sample.item3] in
  let w := Sample.world_full initial_state None Sample.offline in
  let w' := snd (saveCache (P := Sample.platform) l w) in
  fst (saveCache (P := Sample.platform) l w) = Throw (DOMException "QuotaExceededError")
  /\ localStorage w' !! CACHE_KEY = None
  /\ fst (loadCache (P := Sample.platform) (later 0 w')) = Val VNull
  /\ fst (loadCache (P := Sample.platform) (later 0 w')) <> Val (js_of_items l).
Proof.
  vm_compute. repeat split; try reflexivity. discriminate.
Qed.

(** On the sample platform the round trip needs no premise on the codec:
    whatever the records and the clock, what the storage took is read
    back. *)
Lemma sample_saveCache_then_loadCache (w : World) (l : list NewsItem) (d : Z) :
  writable w (localStorage w) CACHE_KEY (Sample.stringify (cache_entry (clock w) l)) = true ->
  d <= CACHE_TTL_MS ->
  fst (loadCache (P := Sample.platform)
         (later d (snd (saveCache (P := Sample.platform) l w))))
  = Val (js_of_items l).
Proof.
  intros Hw Hd. destruct (SampleCodec.parse_stringify_entry (clock w) l) as [Hrt Hne].
  rewrite (saveCache_run (P := Sample.platform) l w Hw). simpl.
  apply (loadCache_fresh (P := Sample.platform) _
           (Sample.stringify (cache_entry (clock w) l)) (cache_entry (clock w) l)
           (VNum (clock w)) (js_of_items l) (clock w)); simpl; auto.
  - apply lookup_insert_eq.
  - lia.
Qed.

(** C9. [load(false)] when [loadCache] returns a truthy value, as every
    array is, the empty one included: that value becomes [items], the
    component ends ready, the only calls made are the two resets, the read
    of the slot, [setItems] and [setLoading(false)] twice, so nothing is
    fetched and nothing is written, and [localStorage] is as it was. *)
Theorem load_cache_hit {P : Platform} (w : World) (cached : JsVal) :
  fst (loadCache w) = Val cached -> truthy cached = true ->
  let w' := snd (load false w) in
  fst (load false w) = Val tt
  /\ items (ui w') = cached
  /\ loading (ui w') = false /\ error (ui w') = None /\ phase (ui w') = Ready
  /\ localStorage w' = localStorage w
  /\ clock w' = clock w
  /\ trace w'
     = (trace w ++ [ CallSetLoading true; CallSetError None; CallGetItem CACHE_KEY;
                     CallSetItems cached; CallSetLoading false;
                     CallSetLoading false ])%list
  /\ (forall l, truthy (js_of_items l) = true).
Proof.
  intros Hc Ht w'. unfold w'. rewrite (load_hit w cached Hc Ht). simpl.
  repeat split; reflexivity.
Qed.

(** A fresh slot holding the empty list: it is adopted and the network
    is left alone. *)
Lemma load_cache_hit_witness :
  let raw := Sample.stringify (cache_entry (1793685600000 - 5 * 60 * 1000) []) in
  let w := Sample.world (mkState (js_of_items [Sample.item1]) false None) (Some raw)
             (Sample.serves Sample.FEED) in
  let w' := snd (load (P := Sample.platform) false w) in
  items (ui w') = VArr [] /\ phase (ui w') = Ready
  /\ localStorage w' = localStorage w
  /\ ~ In (CallFetch PROXY_URL) (trace w').
Proof.
  intros raw w w'.
  assert (Hc : fst (loadCache (P := Sample.platform) w) = Val (VArr []))
    by (vm_compute; reflexivity).
  destruct (load_cache_hit (P := Sample.platform) w (VArr []) Hc eq_refl)
    as (_ & Hi & _ & _ & Hp & Hs & _ & Ht & _).
  fold w' in Hi, Hp, Hs, Ht.
  repeat split; auto.
  rewrite Ht. simpl. intuition discriminate.
Defined.

(** C3, as amended. A [load] whose fetcher throws, for whatever reason,
    ends with the fixed message in [error] and nothing of the exception in
    it, [items] as it was before the call, [loading] false and
    [localStorage] untouched; no exception leaves [load]. A response that
    is not [ok], a rejected request, a body that cannot be read and a
    record that cannot be built make the fetcher throw
    ([fetcher_failures]). *)
Theorem load_failure_keeps_items {P : Platform}
    (force : bool) (w : World) (e : JsError) :
  force = true \/ (exists v, fst (loadCache w) = Val v /\ truthy v = false) ->
  fst (fetchGoogleNewsRSS w) = Throw e ->
  let w' := snd (load force w) in
  fst (load force w) = Val tt
  /\ error (ui w') = Some ERROR_MESSAGE
  /\ items (ui w') = items (ui w)
  /\ loading (ui w') = false
  /\ phase (ui w') = Failed
  /\ localStorage w' = localStorage w.
Proof.
  intros Hpath Hf w'. unfold w'. rewrite (load_failed force w e Hpath Hf).
  simpl. repeat split; reflexivity.
Qed.

(** The relay answers 500 while one record is on screen. *)
Lemma load_failure_keeps_items_witness :
  let shown := mkState (js_of_items [Sample.item1]) false None in
  let w := Sample.world shown None Sample.http_500 in
  let w' := snd (load (P := Sample.platform) true w) in
  error (ui w') = Some ERROR_MESSAGE
  /\ items (ui w') = js_of_items [Sample.item1]
  /\ loading (ui w') = false.
Proof.
  intros shown w w'.
  destruct (load_failure_keeps_items (P := Sample.platform) true w
              (Error "RSS fetch failed") (or_introl eq_refl))
    as (_ & He & Hi & Hl & _).
  - vm_compute. reflexivity.
  - fold w' in He, Hi, Hl. auto.
Defined.

(** C3, as stated, fails on a parse failure: the relay answers 200 with a
    text that is not XML. The parser returns an error document, the
    fetcher finds no item in it and returns the empty list, and [load]
    replaces the record on screen by that list, overwrites the slot and
    shows no error. *)
Lemma load_parse_failure_counterexample :
  let shown := mkState (js_of_items [Sample.item1]) false None in
  let w := Sample.world shown None (Sample.serves Sample.NOT_A_FEED) in
  let w' := snd (load (P := Sample.platform) true w) in
  parsererror (DOM_parse (Platform := Sample.platform) Sample.NOT_A_FEED) = true
  /\ fst (fetchGoogleNewsRSS (P := Sample.platform) w) = Val []
  /\ error (ui w') = None
  /\ items (ui w') = VArr []
  /\ phase (ui w') = Ready
  /\ localStorage w' !! CACHE_KEY
     = Some (Sample.stringify (cache_entry (clock w') []))
  /\ ~ (error (ui w') = Some ERROR_MESSAGE /\ items (ui w') = items (ui w)).
Proof.
  vm_compute. repeat split; try reflexivity.
  intros [H _]. discriminate.
Qed.




(** C10. Every [load] starts with [setLoading(true)] and
    [setError(null)], ahead of the read of the cache and of the request;
    and a [load] that ends through a cache hit, or through a fetch that
    returns followed by a write that the storage takes, leaves [error]
    absent, whatever it was before the call. A write that the storage
    refuses is not a successful end: the message is set again. *)
Theorem load_resets_error {P : Platform} (force : bool) (w : World) :
  let w' := snd (load force w) in
  (exists rest,
     trace w' = (trace w ++ CallSetLoading true :: CallSetError None :: rest)%list)
  /\ (forall cached,
        force = false -> fst (loadCache w) = Val cached -> truthy cached = true ->
        error (ui w') = None)
  /\ (forall raw,
        force = true \/ (exists v, fst (loadCache w) = Val v /\ truthy v = false) ->
        fst (fetchGoogleNewsRSS w) = Val raw ->
        let text :=
          JSON_stringify
            (cache_entry (clock w + elapsed (network w PROXY_URL))
               (firstn 100 (List.filter isRelevant raw))) in
        (writable w (localStorage w) CACHE_KEY text = true -> error (ui w') = None)
        /\ (writable w (localStorage w) CACHE_KEY text = false -> error (ui w') = Some ERROR_MESSAGE)).
Proof.
  intros w'. unfold w'. split; [|split].
  - assert (Hfetch :
        force = true \/ (exists v, fst (loadCache w) = Val v /\ truthy v = false) ->
        exists rest,
          trace (snd (load force w))
          = (trace w ++ CallSetLoading true :: CallSetError None :: rest)%list).
    { intros Hpath. destruct (fst (fetchGoogleNewsRSS w)) as [raw|e] eqn:Hf.
      - destruct (writable w (localStorage w) CACHE_KEY
                    (JSON_stringify
                       (cache_entry (clock w + elapsed (network w PROXY_URL))
                          (firstn 100 (List.filter isRelevant raw))))) eqn:Hw.
        + rewrite (load_fetched force w raw Hpath Hf Hw). simpl. eexists. reflexivity.
        + rewrite (load_unsaved force w raw Hpath Hf Hw). simpl. eexists. reflexivity.
      - rewrite (load_failed force w e Hpath Hf). simpl. eexists. reflexivity. }
    destruct force; [apply Hfetch; now left|].
    destruct (loadCache_run w) as [v Hv].
    assert (Hc : fst (loadCache w) = Val v) by now rewrite Hv.
    destruct (truthy v) eqn:Ht.
    + rewrite (load_hit w v Hc Ht). simpl. eexists. reflexivity.
    + apply Hfetch. right. now exists v.
  - intros cached -> Hc Ht. now rewrite (load_hit w cached Hc Ht).
  - intros raw Hpath Hf. cbv zeta. split; intros Hw.
    + now rewrite (load_fetched force w raw Hpath Hf Hw).
    + now rewrite (load_unsaved force w raw Hpath Hf Hw).
Qed.

(** A failed load left the message on screen; the next load, which
    fetches the feed and stores it, clears it. *)
Lemma load_resets_error_witness :
  let failed := mkState (VArr []) false (Some ERROR_MESSAGE) in
  let w := Sample.world failed None (Sample.serves Sample.FEED) in
  error (ui (snd (load (P := Sample.platform) true w))) = None.
Proof.
  intros failed w.
  destruct (load_resets_error (P := Sample.platform) true w) as (_ & _ & Hok).
  apply (Hok [Sample.item1;
              mkNewsItem "2026-11-02T10:00:00.000Z_2" "Cricket in India"
                "https://a.example/3" "Google News" "2026-11-02T10:00:00.000Z"
                EmptyString]).
  - now left.
  - vm_compute. reflexivity.
  - reflexivity.
Defined.

(** ** Feed fetcher and parser *)

Section FetcherFacts.

Context {P : Platform}.

(** An item whose publish date is there but cannot be read makes the
    callback throw. *)
Lemma parseItem_unreadable_date (item : RssItem) (i : nat) (d : string) :
  el_pubDate item = Some d -> is_empty d = false -> Date_parse d = None ->
  parseItem item i = Throw (RangeError "Invalid time value").
Proof.
  intros Hd Hne Hp. unfold parseItem. rewrite Hd. unfold text_or, or_else.
  rewrite Hne. cbv iota. now rewrite Hne, Hp.
Qed.

(** An item without title, link or publish date becomes [null]. *)
Lemma parseItem_missing_field (item : RssItem) (i : nat) :
  text_or (el_title item) EmptyString = EmptyString
  \/ text_or (el_link item) EmptyString = EmptyString
  \/ text_or (el_pubDate item) EmptyString = EmptyString ->
  parseItem item i = Val None
  \/ parseItem item i = Throw (RangeError "Invalid time value").
Proof.
  intros H. unfold parseItem.
  destruct (is_empty (text_or (el_pubDate item) EmptyString)) eqn:Hd.
  - left. simpl. now rewrite orb_true_r.
  - destruct (Date_parse (text_or (el_pubDate item) EmptyString)); [|now right].
    left. destruct H as [-> | [-> | H]]; simpl; try reflexivity.
    + now rewrite orb_true_r.
    + rewrite H in Hd. discriminate.
Qed.

(** A record the callback returns has a title, a link and a publish
    date that [toISOString] printed. *)
Lemma parseItem_record (item : RssItem) (i : nat) (n : NewsItem) :
  parseItem item i = Val (Some n) ->
  is_empty (title n) = false /\ is_empty (url n) = false
  /\ is_empty (publishedAtISO n) = false
  /\ exists t, publishedAtISO n = toISOString t.
Proof.
  unfold parseItem. intros H.
  destruct (is_empty (text_or (el_pubDate item) EmptyString)).
  { simpl in H. rewrite orb_true_r in H. discriminate. }
  destruct (Date_parse (text_or (el_pubDate item) EmptyString)) as [t|];
    [|discriminate].
  destruct (is_empty (text_or (el_title item) EmptyString)) eqn:Ht; [discriminate|].
  destruct (is_empty (text_or (el_link item) EmptyString)) eqn:Hl; [discriminate|].
  destruct (is_empty (toISOString t)) eqn:Hp; [discriminate|].
  simpl in H. injection H as <-. simpl. repeat split; auto. now exists t.
Qed.

(** The records come out in the order of the items they are built from:
    each item gives a record or [null], and the [null]s are taken out. *)
Lemma map_items_in_order (l : list RssItem) (i : nat) (xs : list (option NewsItem)) :
  map_items l i = Val xs ->
  Forall2 (fun item x => exists j, parseItem item j = Val x) l xs.
Proof.
  revert i xs; induction l as [|item l IH]; intros i xs H; simpl in H.
  - injection H as <-. constructor.
  - destruct (parseItem item i) as [x|e] eqn:Hx; [|discriminate].
    destruct (map_items l (S i)) as [xs'|e] eqn:Hxs; [|discriminate].
    injection H as <-. constructor; [now exists i | now apply (IH (S i))].
Qed.

Lemma parseItems_in_order (l : list RssItem) (out : list NewsItem) :
  parseItems l = Val out ->
  exists xs, Forall2 (fun item x => exists j, parseItem item j = Val x) l xs
             /\ out = compact xs.
Proof.
  unfold parseItems. intros H.
  destruct (map_items l 0) as [xs|e] eqn:Hxs; [|discriminate].
  injection H as <-. exists xs. split; [|reflexivity].
  now apply (map_items_in_order l 0).
Qed.

End FetcherFacts.

(** C1. The feed [FEED_BAD_DATE] has two items with title and link; the
    publish date of the second is the text [not a date]. The fetcher does
    not return the record of the first item and drop the second: the
    [RangeError] of [toISOString] ends it, and [load] shows the error
    message with no record. On the feed [FEED], whose second item has an
    empty link, that item is dropped and the other two are returned in
    order. *)
Theorem fetch_unreadable_date_throws :
  let w := Sample.world initial_state None (Sample.serves Sample.FEED_BAD_DATE) in
  map el_pubDate
    (item_elements (DOM_parse (Platform := Sample.platform) Sample.FEED_BAD_DATE))
  = [Some "Tue, 03 Nov 2026 05:33:00 GMT"; Some "not a date"]
  /\ fst (fetchGoogleNewsRSS (P := Sample.platform) w)
     = Throw (RangeError "Invalid time value")
  /\ ui (snd (load (P := Sample.platform) true w))
     = mkState (VArr []) false (Some ERROR_MESSAGE)
  /\ option_map (map title)
       (match fst (fetchGoogleNewsRSS (P := Sample.platform)
                     (Sample.world initial_state None (Sample.serves Sample.FEED))) with
        | Val l => Some l
        | Throw _ => None
        end)
     = Some ["India POWER demand hits record"; "Cricket in India"].
Proof. vm_compute. repeat split; reflexivity. Qed.

(** * Further properties

    Properties of the code that the specification does not state: the
    calendar behind the ISO strings, the helpers of the fetcher, the edges of
    the view, and what every run of [load] and of the cache store does. *)

(** ** The calendar *)

Ltac bool_to_Z :=
  repeat match goal with
         | H : (_ <=? _) = true |- _ => apply Z.leb_le in H
         | H : (_ <=? _) = false |- _ => apply Z.leb_gt in H
         | H : (_ <? _) = true |- _ => apply Z.ltb_lt in H
         | H : (_ <? _) = false |- _ => apply Z.ltb_ge in H
         | H : (_ =? _) = true |- _ => apply Z.eqb_eq in H
         | H : (_ =? _) = false |- _ => apply Z.eqb_neq in H
         end.

Ltac div_lia := Z.div_mod_to_equations; lia.

(** A day is a day of exactly one year that starts on 1 March. *)
Lemma civil_from_days_year_day (D : Z) :
  exists y doy,
    D = march_1 y + doy /\ 0 <= doy /\ march_1 y + doy < march_1 (y + 1)
    /\ civil_from_days D = date_of_year_day y doy.
Proof.
  unfold civil_from_days.
  set (z := D + 719468).
  set (era := z / 146097).
  set (doe := z - era * 146097).
  assert (Hdoe : 0 <= doe < 146097) by (unfold doe, era; div_lia).
  assert (Hz : D = doe + era * 146097 - 719468) by (unfold doe, z; lia).
  clearbody doe era. subst D. clear z.
  set (yoe := (doe - doe / 1460 + doe / 36524 - doe / 146096) / 365).
  set (doy := doe - (365 * yoe + yoe / 4 - yoe / 100)).
  assert (Hyoe : 0 <= yoe <= 399 /\ 0 <= doy
                 /\ doy < 365 * (yoe + 1) + (yoe + 1) / 4 - (yoe + 1) / 100
                          + (yoe + 1) / 400 - (365 * yoe + yoe / 4 - yoe / 100))
    by (unfold doy, yoe; div_lia).
  assert (Hd : doe = 365 * yoe + yoe / 4 - yoe / 100 + doy) by (unfold doy; lia).
  clearbody doy yoe. subst doe.
  exists (yoe + era * 400), doy.
  assert (G0 : march_1 (yoe + era * 400)
               = era * 146097 + (365 * yoe + yoe / 4 - yoe / 100) - 719468)
    by (unfold march_1; div_lia).
  assert (G1 : march_1 (yoe + era * 400 + 1)
               = era * 146097 + (365 * (yoe + 1) + (yoe + 1) / 4 - (yoe + 1) / 100
                                 + (yoe + 1) / 400) - 719468)
    by (unfold march_1; div_lia).
  split; [lia|]. split; [lia|]. split; [lia|]. reflexivity.
Qed.

Lemma march_1_mono (a b : Z) : a <= b -> march_1 a <= march_1 b.
Proof. unfold march_1. intros H. div_lia. Qed.

(** The year and the day of the year of a day are determined by it, and
    grow with it. *)
Lemma year_day_order (y1 doy1 y2 doy2 : Z) :
  0 <= doy1 -> march_1 y1 + doy1 < march_1 (y1 + 1) ->
  0 <= doy2 -> march_1 y2 + doy2 < march_1 (y2 + 1) ->
  march_1 y1 + doy1 < march_1 y2 + doy2 ->
  y1 < y2 \/ (y1 = y2 /\ doy1 < doy2).
Proof.
  intros H1 E1 H2 E2 Hlt.
  destruct (Z.lt_trichotomy y1 y2) as [H | [-> | H]]; [now left | right; lia |].
  pose proof (march_1_mono (y2 + 1) y1). lia.
Qed.

Lemma march_1_year_length (y : Z) : march_1 (y + 1) - march_1 y <= 366.
Proof. unfold march_1. div_lia. Qed.

(** Within a year the dates follow the days. *)
Lemma date_of_year_day_lt (y doy1 doy2 : Z) :
  0 <= doy1 -> doy1 < doy2 -> doy2 <= 365 ->
  date_number (date_of_year_day y doy1) < date_number (date_of_year_day y doy2).
Proof.
  intros H0 Hlt H365. unfold date_of_year_day, date_number.
  set (mp1 := (5 * doy1 + 2) / 153). set (mp2 := (5 * doy2 + 2) / 153).
  assert (Hmp : 0 <= mp1 <= mp2 /\ mp2 <= 11) by (unfold mp1, mp2; div_lia).
  set (d1 := doy1 - (153 * mp1 + 2) / 5 + 1).
  set (d2 := doy2 - (153 * mp2 + 2) / 5 + 1).
  assert (Hd1 : 1 <= d1 <= 31) by (unfold d1, mp1; div_lia).
  assert (Hd2 : 1 <= d2 <= 31) by (unfold d2, mp2; div_lia).
  assert (Hsame : mp1 = mp2 -> d1 < d2) by (unfold d1, d2; intros ->; lia).
  clearbody d1 d2 mp1 mp2.
  destruct (mp1 <? 10) eqn:A1; destruct (mp2 <? 10) eqn:A2; bool_to_Z;
    repeat match goal with |- context [?a <=? 2] => destruct (a <=? 2) eqn:? end;
    bool_to_Z; nia.
Qed.

(** The first date of a year comes after the last date of the year
    before. *)
Lemma date_of_year_day_bounds (y doy : Z) :
  0 <= doy <= 365 ->
  y * 10000 + 301 <= date_number (date_of_year_day y doy) <= y * 10000 + 10229.
Proof.
  intros H. unfold date_of_year_day, date_number.
  set (mp := (5 * doy + 2) / 153).
  assert (Hmp : 0 <= mp <= 11) by (unfold mp; div_lia).
  set (d := doy - (153 * mp + 2) / 5 + 1).
  assert (Hd : 1 <= d <= 31 /\ (mp = 11 -> d <= 29)) by (unfold d, mp; div_lia).
  clearbody d mp.
  destruct (mp <? 10) eqn:A1; bool_to_Z;
    repeat match goal with |- context [?a <=? 2] => destruct (a <=? 2) eqn:? end;
    bool_to_Z; lia.
Qed.

(** A later day has a later date. *)
Lemma civil_from_days_lt (D1 D2 : Z) :
  D1 < D2 -> date_number (civil_from_days D1) < date_number (civil_from_days D2).
Proof.
  intros Hlt.
  destruct (civil_from_days_year_day D1) as (y1 & doy1 & -> & H1 & E1 & ->).
  destruct (civil_from_days_year_day D2) as (y2 & doy2 & -> & H2 & E2 & ->).
  pose proof (march_1_year_length y1). pose proof (march_1_year_length y2).
  destruct (year_day_order _ _ _ _ H1 E1 H2 E2 Hlt) as [Hy | [<- Hd]].
  - pose proof (date_of_year_day_bounds y1 doy1).
    pose proof (date_of_year_day_bounds y2 doy2). lia.
  - apply date_of_year_day_lt; lia.
Qed.

Lemma is_leap_false (y : Z) :
  is_leap y = false -> y mod 4 <> 0 \/ (y mod 100 = 0 /\ y mod 400 <> 0).
Proof.
  unfold is_leap. rewrite andb_false_iff, orb_false_iff, negb_false_iff.
  rewrite !Z.eqb_neq, Z.eqb_eq. tauto.
Qed.

(** Settles the comparisons of the goal that arithmetic decides. *)
Ltac decide_tests :=
  repeat match goal with
         | |- context [?a =? ?b] =>
             first [ replace (a =? b) with true by (symmetry; apply Z.eqb_eq; lia)
                   | replace (a =? b) with false by (symmetry; apply Z.eqb_neq; lia) ]
         | |- context [?a <=? ?b] =>
             first [ replace (a <=? b) with true by (symmetry; apply Z.leb_le; lia)
                   | replace (a <=? b) with false by (symmetry; apply Z.leb_gt; lia) ]
         | |- context [?a <? ?b] =>
             first [ replace (a <? b) with true by (symmetry; apply Z.ltb_lt; lia)
                   | replace (a <? b) with false by (symmetry; apply Z.ltb_ge; lia) ]
         end;
  cbn [orb andb negb].

(** The date of a day of a year is a calendar date, and the day number
    of that date is the day. *)
Lemma date_of_year_day_valid (y doy : Z) :
  0 <= doy -> march_1 y + doy < march_1 (y + 1) ->
  let '(Y, m, d) := date_of_year_day y doy in
  1 <= m <= 12 /\ 1 <= d <= days_in_month Y m
  /\ days_from_civil Y m d = march_1 y + doy.
Proof.
  intros H0 Hend. pose proof (march_1_year_length y) as Hlen.
  unfold date_of_year_day.
  set (mp := (5 * doy + 2) / 153).
  assert (Hmp : 0 <= mp <= 11) by (unfold mp; div_lia).
  set (d := doy - (153 * mp + 2) / 5 + 1).
  assert (Hdoy : doy = (153 * mp + 2) / 5 + d - 1) by (unfold d; lia).
  assert (Hd : 1 <= d) by (unfold d, mp; div_lia).
  assert (Hd' : 5 * doy + 2 < 153 * mp + 153) by (unfold mp; div_lia).
  clearbody d mp. subst doy.
  assert (C : mp = 0 \/ mp = 1 \/ mp = 2 \/ mp = 3 \/ mp = 4 \/ mp = 5 \/ mp = 6
              \/ mp = 7 \/ mp = 8 \/ mp = 9 \/ mp = 10 \/ mp = 11) by lia.
  unfold days_from_civil, days_in_month.
  repeat (destruct C as [-> | C]); try subst mp; decide_tests;
    try (destruct (is_leap (y + 1)) eqn:L; [|apply is_leap_false in L]);
    unfold march_1 in *; (split; [lia|]); (split; [div_lia|]);
    try replace (y + 1 - 1) with y by lia; div_lia.
Qed.

(** The date of a day is a calendar date, and its day number is the
    day. *)
Lemma civil_from_days_valid (D : Z) :
  let '(y, m, d) := civil_from_days D in
  1 <= m <= 12 /\ 1 <= d <= days_in_month y m /\ days_from_civil y m d = D.
Proof.
  destruct (civil_from_days_year_day D) as (y & doy & -> & H0 & E & ->).
  now apply date_of_year_day_valid.
Qed.

(** ** Time values and their ISO strings *)

Lemma pow10_4 : 10 ^ Z.of_nat 4 = 10000. Proof. reflexivity. Qed.
Lemma pow10_2 : 10 ^ Z.of_nat 2 = 100. Proof. reflexivity. Qed.
Lemma pow10_3 : 10 ^ Z.of_nat 3 = 1000. Proof. reflexivity. Qed.

(** A time value with a four-digit year is what [parse_iso_utc] reads
    from the string [toISOString] prints for it. *)
Lemma parse_iso_utc_toISOString (t : Z) :
  0 <= getUTCFullYear t <= 9999 -> parse_iso_utc (toISOString t) = Some t.
Proof.
  unfold getUTCFullYear, toISOString. intros Hy.
  pose proof (civil_from_days_valid (t / msPerDay)) as Hv.
  destruct (civil_from_days (t / msPerDay)) as [[y m] d].
  destruct Hv as (Hm & Hd & Hday).
  pose proof (days_in_month_bound y m) as Hdim.
  assert (Hr : 0 <= t mod msPerDay < 86400000)
    by (apply Z.mod_pos_bound; reflexivity).
  set (r := t mod msPerDay) in *.
  replace ((0 <=? y) && (y <=? 9999))%bool with true
    by (symmetry; apply andb_true_intro; split; apply Z.leb_le; lia).
  unfold parse_iso_utc. rewrite ?append_assoc.
  repeat (rewrite read_digits_pad_all
            by (rewrite ?pow10_4, ?pow10_2, ?pow10_3; div_lia);
          cbn [mbind option_bind append expect Ascii.eqb Bool.eqb]).
  cbn [read_fraction_Z].
  rewrite read_digits_pad_all by (rewrite pow10_3; div_lia).
  assert (Hok : ((1 <=? m) && (m <=? 12) && (1 <=? d) && (d <=? days_in_month y m)
                 && (r / 3600000 <=? 23) && (r / 60000 mod 60 <=? 59)
                 && (r / 1000 mod 60 <=? 59))%bool = true).
  { repeat (apply andb_true_intro; split); apply Z.leb_le; div_lia. }
  rewrite Hok. cbn [mbind option_bind]. f_equal. unfold utc. rewrite Hday.
  assert (Ht : t = t / msPerDay * msPerDay + r)
    by (unfold r, msPerDay; div_lia).
  transitivity (t / msPerDay * msPerDay + r); [|symmetry; exact Ht].
  clearbody r. clear Ht.
  assert (Hs : r = r / 3600000 * 3600000 + r / 60000 mod 60 * 60000
                   + r / 1000 mod 60 * 1000 + r mod 1000) by div_lia.
  lia.
Qed.

(** ** The order of ISO strings *)

Lemma compare_digit (i j : Z) :
  0 <= i <= 9 -> 0 <= j <= 9 -> Ascii.compare (digit i) (digit j) = (i ?= j).
Proof.
  intros Hi Hj. unfold Ascii.compare, digit.
  rewrite !N_ascii_embedding by lia.
  rewrite <- N2Z.inj_compare, !N2Z.inj_add, !Z2N.id by lia.
  apply Z.add_compare_mono_l.
Qed.

(** Two numbers compare as their leading digits do, and then their last
    ones. *)
Lemma compare_radix (k a b x y : Z) :
  0 <= x < k -> 0 <= y < k ->
  (a * k + x ?= b * k + y) = lex (a ?= b) (x ?= y).
Proof.
  intros Hx Hy. unfold lex.
  destruct (Z.compare_spec a b) as [-> | H | H].
  - apply Z.add_compare_mono_l.
  - apply Z.compare_lt_iff. nia.
  - apply Z.compare_gt_iff. nia.
Qed.

(** Padded numbers compare as the numbers do. *)
Lemma compare_pad (w : nat) (a b : Z) (s1 s2 : string) :
  0 <= a < 10 ^ Z.of_nat w -> 0 <= b < 10 ^ Z.of_nat w ->
  String.compare (pad w a +:+ s1) (pad w b +:+ s2)
  = lex (a ?= b) (String.compare s1 s2).
Proof.
  revert a b s1 s2; induction w as [|w IH]; intros a b s1 s2 Ha Hb.
  - simpl in *. replace a with 0 by lia. replace b with 0 by lia. reflexivity.
  - rewrite Nat2Z.inj_succ, Z.pow_succ_r in Ha, Hb by lia.
    cbn [pad]. rewrite !append_assoc. cbn [append].
    rewrite IH by (split; [apply Z.div_pos; lia | apply Z.div_lt_upper_bound; lia]).
    cbn [String.compare].
    rewrite compare_digit by (pose proof (Z.mod_pos_bound a 10);
                              pose proof (Z.mod_pos_bound b 10); lia).
    rewrite (Z.div_mod a 10), (Z.div_mod b 10) at 3 by lia.
    rewrite (Z.mul_comm 10 (a / 10)), (Z.mul_comm 10 (b / 10)).
    rewrite compare_radix by (apply Z.mod_pos_bound; lia).
    unfold lex.
    destruct (a / 10 ?= b / 10); [|reflexivity..].
    now destruct (a mod 10 ?= b mod 10).
Qed.

Lemma compare_same_head (c : ascii) (s1 s2 : string) :
  String.compare (String c s1) (String c s2) = String.compare s1 s2.
Proof. cbn [String.compare]. unfold Ascii.compare. now rewrite N.compare_refl. Qed.

(** The fields of a time value, as [toISOString] prints them. *)
Lemma time_fields (t : Z) :
  let r := t mod msPerDay in
  0 <= r / 3600000 < 100 /\ 0 <= r / 60000 mod 60 < 100
  /\ 0 <= r / 1000 mod 60 < 100 /\ 0 <= r mod 1000 < 1000.
Proof.
  intros r. assert (Hr : 0 <= r < 86400000) by (apply Z.mod_pos_bound; reflexivity).
  clearbody r. div_lia.
Qed.

(** Within the years 0 to 9999, ISO strings compare as the numbers made
    of their fields do. *)
Lemma compare_toISOString (t1 t2 : Z) :
  0 <= getUTCFullYear t1 <= 9999 -> 0 <= getUTCFullYear t2 <= 9999 ->
  String.compare (toISOString t1) (toISOString t2) = (stamp t1 ?= stamp t2).
Proof.
  unfold getUTCFullYear, toISOString, stamp. intros Hy1 Hy2.
  pose proof (civil_from_days_valid (t1 / msPerDay)) as Hv1.
  pose proof (civil_from_days_valid (t2 / msPerDay)) as Hv2.
  destruct (civil_from_days (t1 / msPerDay)) as [[y1 m1] d1].
  destruct (civil_from_days (t2 / msPerDay)) as [[y2 m2] d2].
  destruct Hv1 as (Hm1 & Hd1 & _). destruct Hv2 as (Hm2 & Hd2 & _).
  pose proof (days_in_month_bound y1 m1). pose proof (days_in_month_bound y2 m2).
  destruct (time_fields t1) as (Hh1 & Hmi1 & Hs1 & Hms1).
  destruct (time_fields t2) as (Hh2 & Hmi2 & Hs2 & Hms2).
  set (r1 := t1 mod msPerDay) in *. set (r2 := t2 mod msPerDay) in *.
  clearbody r1 r2.
  replace ((0 <=? y1) && (y1 <=? 9999))%bool with true
    by (symmetry; apply andb_true_intro; split; apply Z.leb_le; lia).
  replace ((0 <=? y2) && (y2 <=? 9999))%bool with true
    by (symmetry; apply andb_true_intro; split; apply Z.leb_le; lia).
  rewrite !compare_radix by lia.
  repeat (rewrite compare_pad by (rewrite ?pow10_4, ?pow10_2, ?pow10_3; lia);
          cbn [append]; rewrite compare_same_head).
  cbn [String.compare]. unfold lex.
  destruct (y1 ?= y2); try reflexivity.
  destruct (m1 ?= m2); try reflexivity.
  destruct (d1 ?= d2); try reflexivity.
  destruct (r1 / 3600000 ?= r2 / 3600000); try reflexivity.
  destruct (r1 / 60000 mod 60 ?= r2 / 60000 mod 60); try reflexivity.
  destruct (r1 / 1000 mod 60 ?= r2 / 1000 mod 60); try reflexivity.
  now destruct (r1 mod 1000 ?= r2 mod 1000).
Qed.

(** A later time value has the greater fields. *)
Lemma stamp_lt (t1 t2 : Z) : t1 < t2 -> stamp t1 < stamp t2.
Proof.
  intros Hlt. unfold stamp.
  assert (Hdays : t1 / msPerDay < t2 / msPerDay
                  \/ (t1 / msPerDay = t2 / msPerDay
                      /\ t1 mod msPerDay < t2 mod msPerDay))
    by (unfold msPerDay; div_lia).
  destruct (time_fields t1) as (Hh1 & Hmi1 & Hs1 & Hms1).
  destruct (time_fields t2) as (Hh2 & Hmi2 & Hs2 & Hms2).
  assert (Hr1 : 0 <= t1 mod msPerDay < 86400000) by (apply Z.mod_pos_bound; reflexivity).
  assert (Hr2 : 0 <= t2 mod msPerDay < 86400000) by (apply Z.mod_pos_bound; reflexivity).
  set (r1 := t1 mod msPerDay) in *. set (r2 := t2 mod msPerDay) in *.
  clearbody r1 r2.
  destruct Hdays as [Hd | [Hd Hr]].
  - pose proof (civil_from_days_lt _ _ Hd) as Hn. unfold date_number in Hn.
    destruct (civil_from_days (t1 / msPerDay)) as [[y1 m1] d1].
    destruct (civil_from_days (t2 / msPerDay)) as [[y2 m2] d2]. lia.
  - rewrite Hd. destruct (civil_from_days (t2 / msPerDay)) as [[y2 m2] d2].
    assert (r1 / 3600000 * 10000000 + r1 / 60000 mod 60 * 100000
            + r1 / 1000 mod 60 * 1000 + r1 mod 1000
            < r2 / 3600000 * 10000000 + r2 / 60000 mod 60 * 100000
              + r2 / 1000 mod 60 * 1000 + r2 mod 1000) by div_lia.
    lia.
Qed.

(** Within the years 0 to 9999, the order of ISO strings is the order of
    the time values. *)
Lemma ltb_toISOString (t1 t2 : Z) :
  0 <= getUTCFullYear t1 <= 9999 -> 0 <= getUTCFullYear t2 <= 9999 ->
  String.ltb (toISOString t1) (toISOString t2) = (t1 <? t2).
Proof.
  intros H1 H2. unfold String.ltb. rewrite compare_toISOString by assumption.
  destruct (Z.ltb_spec t1 t2) as [Hlt | Hge].
  - apply stamp_lt in Hlt. apply Z.compare_lt_iff in Hlt. now rewrite Hlt.
  - destruct (Z.eq_dec t1 t2) as [-> | Hne]; [now rewrite Z.compare_refl|].
    assert (Hgt : stamp t2 < stamp t1) by (apply stamp_lt; lia).
    apply Z.compare_gt_iff in Hgt. now rewrite Hgt.
Qed.

(** ** Today's date and the date line of a card *)

Lemma length_pad (w : nat) (n : Z) : String.length (pad w n) = w.
Proof.
  revert n; induction w as [|w IH]; intros n; [reflexivity|].
  cbn [pad]. rewrite SampleCodec.length_append, IH. simpl. lia.
Qed.

Lemma take_app (a b : string) : take (String.length a) (a +:+ b) = a.
Proof. induction a as [|c a IH]; [now destruct b | simpl; now rewrite IH]. Qed.

Lemma toISOString_date (t : Z) :
  0 <= getUTCFullYear t <= 9999 ->
  let '(y, m, d) := civil_from_days (t / msPerDay) in
  valid_date y m d /\ exists rest, toISOString t = isoDate y m d +:+ rest.
Proof.
  unfold getUTCFullYear, toISOString, valid_date. intros Hy.
  pose proof (civil_from_days_valid (t / msPerDay)) as Hv.
  destruct (civil_from_days (t / msPerDay)) as [[y m] d].
  destruct Hv as (Hm & Hd & _). split; [tauto|].
  replace ((0 <=? y) && (y <=? 9999))%bool with true
    by (symmetry; apply andb_true_intro; split; apply Z.leb_le; lia).
  eexists. unfold isoDate. rewrite !append_assoc. reflexivity.
Qed.

Lemma length_isoDate (y m d : Z) : String.length (isoDate y m d) = 10%nat.
Proof.
  unfold isoDate. rewrite !SampleCodec.length_append, !length_pad. reflexivity.
Qed.

Lemma todayISODate_isoDate (now : Z) :
  0 <= getUTCFullYear now <= 9999 ->
  let '(y, m, d) := civil_from_days (now / msPerDay) in
  valid_date y m d /\ todayISODate now = isoDate y m d.
Proof.
  intros Hy. pose proof (toISOString_date now Hy) as H.
  destruct (civil_from_days (now / msPerDay)) as [[y m] d] eqn:E.
  destruct H as [Hv [rest Hr]]. split; [exact Hv|].
  unfold todayISODate. rewrite Hr, <- (length_isoDate y m d). apply take_app.
Qed.

Lemma padStart_decimalZ (k : Z) :
  0 <= k <= 99 -> padStart 2 "0" (decimalZ k) = pad 2 k.
Proof.
  intros Hk. rewrite <- (Z2Nat.id k) by lia.
  assert (Hn : (Z.to_nat k < 100)%nat) by lia.
  generalize dependent (Z.to_nat k). clear. intros n Hn.
  do 100 (destruct n as [|n]; [reflexivity|]). lia.
Qed.

Lemma StronglySorted_weaken {A} (R R' : A -> A -> Prop) (Q : A -> Prop) (l : list A) :
  (forall a b, Q a -> Q b -> R a b -> R' a b) ->
  Forall Q l -> StronglySorted R l -> StronglySorted R' l.
Proof.
  intros HR HQ Hs. induction Hs as [|a l Hs IH Ha]; [constructor|].
  inversion HQ as [|? ? Qa Ql]; subst. constructor; [now apply IH|].
  rewrite List.Forall_forall in *. intros b Hb. apply HR; auto.
Qed.

Section DateFacts.

Context {P : Platform}.

Lemma Date_parse_toISOString (t : Z) :
  0 <= getUTCFullYear t <= 9999 -> Date_parse (toISOString t) = Some t.
Proof. intros H. unfold Date_parse. now rewrite parse_iso_utc_toISOString. Qed.

End DateFacts.

(** X1. Records whose publish dates were printed by [toISOString] for
    years 0 to 9999 are shown newest first: in the view no record is
    followed by one of a later instant. This holds on every engine whose
    sort is lawful. *)
Theorem filtered_newest_first {P : Platform}
    (l : list NewsItem) (from to : string) :
  sort_lawful P ->
  (forall n, In n l ->
     exists t, publishedAtISO n = toISOString t /\ 0 <= getUTCFullYear t <= 9999) ->
  StronglySorted
    (fun a b => exists ta tb,
         Date_parse (publishedAtISO a) = Some ta
         /\ Date_parse (publishedAtISO b) = Some tb /\ tb <= ta)
    (filtered l from to).
Proof.
  intros Hlaw Hl.
  apply (StronglySorted_weaken
           (fun a b => String.ltb (publishedAtISO a) (publishedAtISO b) = false)
           _ (fun n => In n l)).
  - intros a b Ha Hb Hab.
    destruct (Hl a Ha) as [ta [Ea Ya]]. destruct (Hl b Hb) as [tb [Eb Yb]].
    exists ta, tb. rewrite Ea, Eb in *.
    rewrite !Date_parse_toISOString by assumption.
    rewrite ltb_toISOString in Hab by assumption.
    apply Z.ltb_ge in Hab. auto.
  - apply List.Forall_forall. intros n Hn.
    now apply (In_filtered _ _ _ _ Hlaw) in Hn.
  - apply (lawful_sorted_desc publishedAtISO P _ Hlaw).
Qed.

(** Three records of the sample feed, out of order: the view lists them
    from the latest instant to the earliest. *)
Lemma filtered_newest_first_witness :
  StronglySorted
    (fun a b => exists ta tb,
         Date_parse (P := Sample.platform) (publishedAtISO a) = Some ta
         /\ Date_parse (P := Sample.platform) (publishedAtISO b) = Some tb
         /\ tb <= ta)
    (filtered (P := Sample.platform) [Sample.item3; Sample.item1; Sample.item2]
       "2026-11-01" "2026-11-03").
Proof.
  apply (filtered_newest_first (P := Sample.platform));
    [exact sort_from_later_lawful|].
  intros n [<- | [<- | [<- | []]]].
  - exists 1793491200000. vm_compute. split; [reflexivity | split; discriminate].
  - exists 1793683980000. vm_compute. split; [reflexivity | split; discriminate].
  - exists 1793683980000. vm_compute. split; [reflexivity | split; discriminate].
Defined.

(** X2. A record the fetcher builds from a publish date that reads as the
    instant [t], in a year from 0 to 9999, carries the ISO string of [t],
    and the view reads that string back as [t]: the record is shown for a
    range of calendar dates exactly when [t] lies between the first
    instant of the start date and 23:59:59.000 of the end date. *)
Theorem fetched_date_read_back {P : Platform}
    (item : RssItem) (i : nat) (n : NewsItem) (t : Z) :
  parseItem item i = Val (Some n) ->
  Date_parse (text_or (el_pubDate item) EmptyString) = Some t ->
  0 <= getUTCFullYear t <= 9999 ->
  publishedAtISO n = toISOString t
  /\ Date_parse (publishedAtISO n) = Some t
  /\ (forall y1 m1 d1 y2 m2 d2,
        valid_date y1 m1 d1 -> valid_date y2 m2 d2 ->
        in_range (isoDate y1 m1 d1) (isoDate y2 m2 d2) n = true
        <-> utc y1 m1 d1 0 0 0 0 <= t <= utc y2 m2 d2 23 59 59 0).
Proof.
  intros Hn Ht Hy.
  assert (Hiso : publishedAtISO n = toISOString t).
  { unfold parseItem in Hn. rewrite Ht in Hn.
    destruct (is_empty (text_or (el_pubDate item) EmptyString)).
    { simpl in Hn. rewrite orb_true_r in Hn. discriminate. }
    destruct ((is_empty (text_or (el_title item) EmptyString)
               || is_empty (text_or (el_link item) EmptyString)
               || is_empty (toISOString t))%bool); [discriminate|].
    injection Hn as <-. reflexivity. }
  assert (Hback : Date_parse (publishedAtISO n) = Some t)
    by (rewrite Hiso; now apply Date_parse_toISOString).
  split; [exact Hiso|]. split; [exact Hback|].
  intros y1 m1 d1 y2 m2 d2 V1 V2. unfold in_range.
  rewrite (Date_parse_start_of_day _ _ _ V1), (Date_parse_end_of_day _ _ _ V2), Hback.
  simpl. rewrite andb_true_iff, !Z.leb_le. tauto.
Qed.

(** The first item of the sample feed, published at 05:33 on 3 November
    2026: its record is shown for the range 1 to 3 November. *)
Lemma fetched_date_read_back_witness :
  let item := mkRssItem (Some "India POWER demand hits record")
                (Some "https://a.example/1") (Some "Tue, 03 Nov 2026 05:33:00 GMT")
                (Some "The Paper") (Some "Peak load") in
  exists n,
    parseItem (P := Sample.platform) item 0 = Val (Some n)
    /\ publishedAtISO n = "2026-11-03T05:33:00.000Z"
    /\ Date_parse (P := Sample.platform) (publishedAtISO n) = Some 1793683980000
    /\ in_range (P := Sample.platform) "2026-11-01" "2026-11-03" n = true.
Proof.
  intros item.
  assert (Hn : exists n, parseItem (P := Sample.platform) item 0 = Val (Some n))
    by (eexists; vm_compute; reflexivity).
  destruct Hn as [n Hn]. exists n.
  assert (Ht : Date_parse (P := Sample.platform)
                 (text_or (el_pubDate item) EmptyString) = Some 1793683980000)
    by (vm_compute; reflexivity).
  assert (Hy : 0 <= getUTCFullYear 1793683980000 <= 9999)
    by (vm_compute; split; discriminate).
  destruct (fetched_date_read_back (P := Sample.platform) item 0 n _ Hn Ht Hy)
    as (Hiso & Hback & Hrange).
  split; [exact Hn|]. split; [exact Hiso|]. split; [exact Hback|].
  assert (V1 : valid_date 2026 11 1) by (vm_compute; intuition discriminate).
  assert (V2 : valid_date 2026 11 3) by (vm_compute; intuition discriminate).
  apply (proj2 (Hrange 2026 11 1 2026 11 3 V1 V2)).
  vm_compute. split; discriminate.
Defined.

(** X3. [todayISODate()] at a time [now] in a year from 0 to 9999 is the
    calendar date of the current day in UTC, in the form of a date input;
    taken as the end of the range, as the component does by default, it
    puts the upper bound at 23:59:59.000 of the current UTC day, and taken
    as the start it puts the lower bound at the first instant of that
    day. *)
Theorem todayISODate_current_day {P : Platform} (now : Z) :
  0 <= getUTCFullYear now <= 9999 ->
  (let '(y, m, d) := civil_from_days (now / msPerDay) in
   valid_date y m d /\ todayISODate now = isoDate y m d)
  /\ Date_parse (todayISODate now +:+ "T00:00:00Z") = Some (now - now mod msPerDay)
  /\ Date_parse (todayISODate now +:+ "T23:59:59Z")
     = Some (now - now mod msPerDay + 86399000).
Proof.
  intros Hy. pose proof (todayISODate_isoDate now Hy) as H.
  pose proof (civil_from_days_valid (now / msPerDay)) as Hv.
  destruct (civil_from_days (now / msPerDay)) as [[y m] d].
  destruct H as [V ->]. destruct Hv as (_ & _ & Hday).
  split; [now split|].
  rewrite (Date_parse_start_of_day _ _ _ V), (Date_parse_end_of_day _ _ _ V).
  unfold utc. rewrite Hday. unfold msPerDay. split; f_equal; div_lia.
Qed.

(** At 06:00 on 3 November 2026 the default end date is 2026-11-03 and
    the upper bound of the range is 23:59:59.000 of that day. *)
Lemma todayISODate_current_day_witness :
  todayISODate 1793685600000 = "2026-11-03"
  /\ Date_parse (P := Sample.platform) (todayISODate 1793685600000 +:+ "T23:59:59Z")
     = Some 1793750399000.
Proof.
  assert (Hy : 0 <= getUTCFullYear 1793685600000 <= 9999)
    by (vm_compute; split; discriminate).
  destruct (todayISODate_current_day (P := Sample.platform) 1793685600000 Hy)
    as (Hd & _ & Hto).
  split; [reflexivity | exact Hto].
Defined.

Lemma digit_not_dash (k : Z) (rest tail : string) :
  0 <= k <= 9 -> String (digit k) rest <> String "226" tail.
Proof.
  intros Hk E. injection E as E _.
  pose proof (digit_val_digit k Hk) as Hd. rewrite E in Hd. discriminate.
Qed.

(** X4. The date line of a card. [formatDDMMYYYY] shows the dash exactly
    when the string is not a date. For a date it shows the day and the
    month of the browser's local date with two digits each and the year
    as the number it is; the day lies between 1 and 31 and the month
    between 1 and 12. A publish date printed by [toISOString] for a year
    from 0 to 9999 is a date, so the card of a fetched record never shows
    the dash. *)
Theorem formatDDMMYYYY_local_date {P : Platform} (LocalTZA : Z -> Z) (iso : string) :
  (Date_parse iso = None <-> formatDDMMYYYY LocalTZA iso = "—")
  /\ (forall t, Date_parse iso = Some t ->
        formatDDMMYYYY LocalTZA iso
        = pad 2 (getDate LocalTZA t) +:+ "/" +:+ pad 2 (getMonth LocalTZA t + 1)
          +:+ "/" +:+ decimalZ (getFullYear LocalTZA t)
        /\ 1 <= getDate LocalTZA t <= 31 /\ 1 <= getMonth LocalTZA t + 1 <= 12)
  /\ (forall t, 0 <= getUTCFullYear t <= 9999 -> iso = toISOString t ->
        formatDDMMYYYY LocalTZA iso <> "—").
Proof.
  assert (Hshape : forall t, Date_parse iso = Some t ->
            formatDDMMYYYY LocalTZA iso
            = pad 2 (getDate LocalTZA t) +:+ "/" +:+ pad 2 (getMonth LocalTZA t + 1)
              +:+ "/" +:+ decimalZ (getFullYear LocalTZA t)
            /\ 1 <= getDate LocalTZA t <= 31 /\ 1 <= getMonth LocalTZA t + 1 <= 12).
  { intros t Ht. unfold formatDDMMYYYY, getDate, getMonth, getFullYear. rewrite Ht.
    pose proof (civil_from_days_valid (LocalTime LocalTZA t / msPerDay)) as Hv.
    destruct (civil_from_days (LocalTime LocalTZA t / msPerDay)) as [[y m] d].
    destruct Hv as (Hm & Hd & _). pose proof (days_in_month_bound y m).
    rewrite !padStart_decimalZ by lia. split; [reflexivity | lia]. }
  assert (Hdash : forall t, Date_parse iso = Some t ->
            formatDDMMYYYY LocalTZA iso <> "—").
  { intros t Ht. destruct (Hshape t Ht) as (-> & Hd & _).
    cbn [pad append]. apply digit_not_dash.
    pose proof (Z.mod_pos_bound (getDate LocalTZA t / 10) 10). lia. }
  split; [|split].
  - split.
    + intros H. unfold formatDDMMYYYY. now rewrite H.
    + intros H. destruct (Date_parse iso) as [t|] eqn:E; [|reflexivity].
      now destruct (Hdash t).
  - exact Hshape.
  - intros t Hy ->. apply (Hdash t). now apply Date_parse_toISOString.
Qed.

(** A browser five and a half hours ahead of UTC: a record of 20:00 UTC
    on 3 November is dated the 4th. *)
Lemma formatDDMMYYYY_local_date_witness :
  formatDDMMYYYY (P := Sample.platform) (fun _ => 19800000) "2026-11-03T20:00:00.000Z"
  = "04/11/2026".
Proof.
  destruct (formatDDMMYYYY_local_date (P := Sample.platform) (fun _ => 19800000)
              "2026-11-03T20:00:00.000Z") as (_ & H & _).
  destruct (H 1793736000000) as (E & _); [reflexivity|].
  etransitivity; [exact E | reflexivity].
Defined.

(** ** The snippet: tags removed, then clamped *)

Lemma occurs_in_char (x c : ascii) (s : string) :
  occurs_in (String x EmptyString) (String c s)
  <-> x = c \/ occurs_in (String x EmptyString) s.
Proof.
  split.
  - intros [[|a0 a] [b Hb]]; simpl in Hb.
    + left. congruence.
    + right. exists a, b. simpl. congruence.
  - intros [-> | [a [b ->]]].
    + now exists EmptyString, s.
    + now exists (String c a), b.
Qed.

Lemma not_occurs_in_empty (x : ascii) : ~ occurs_in (String x EmptyString) EmptyString.
Proof. intros [[|a0 a] [b Hb]]; discriminate. Qed.

Lemma length_emit_rev (buf : list ascii) (k : string) :
  String.length (emit_rev buf k) = (length buf + String.length k)%nat.
Proof.
  revert k; induction buf as [|c buf IH]; intros k; [reflexivity|].
  cbn [emit_rev]. rewrite IH. simpl. lia.
Qed.

(** The scan gives back no more than it has read. *)
Lemma length_strip_from (s : string) :
  (String.length (strip_from Outside s) <= String.length s)%nat
  /\ forall buf, (String.length (strip_from (InTag buf) s)
                  <= length buf + String.length s)%nat.
Proof.
  induction s as [|c s [IH1 IH2]]; split; intros; cbn [strip_from].
  - simpl. lia.
  - rewrite length_emit_rev. lia.
  - destruct (Ascii.eqb c "<").
    + specialize (IH2 [c]). simpl in *. lia.
    + simpl. lia.
  - destruct (Ascii.eqb c ">").
    + destruct buf as [|x [|y buf]]; cbn [emit_rev]; simpl; lia.
    + specialize (IH2 (c :: buf)). simpl in *. lia.
Qed.

Lemma inert_empty : inert EmptyString.
Proof. split; reflexivity. Qed.

Lemma inert_cons (c : ascii) (k : string) :
  Ascii.eqb c ">" = false -> inert k -> inert (String c k).
Proof.
  intros Hc [H1 H2]. split; [|intros buf]; cbn [strip_from].
  - destruct (Ascii.eqb c "<").
    + now rewrite H2.
    + now rewrite H1.
  - now rewrite Hc, H2.
Qed.

Lemma inert_emit_rev (buf : list ascii) (k : string) :
  existsb (fun c => Ascii.eqb c ">") buf = false -> inert k -> inert (emit_rev buf k).
Proof.
  revert k; induction buf as [|c buf IH]; intros k Hb Hk; [exact Hk|].
  cbn [existsb] in Hb. apply orb_false_iff in Hb. destruct Hb as [Hc Hb].
  cbn [emit_rev]. apply IH; [exact Hb|]. now apply inert_cons.
Qed.

Lemma strip_from_twice (s : string) :
  strip_from Outside (strip_from Outside s) = strip_from Outside s
  /\ forall buf, existsb (fun c => Ascii.eqb c ">") buf = false ->
                 strip_from Outside (strip_from (InTag buf) s)
                 = strip_from (InTag buf) s.
Proof.
  induction s as [|c s [IH1 IH2]]; split; try intros buf Hbuf;
    cbn [strip_from].
  - reflexivity.
  - apply (inert_emit_rev buf EmptyString Hbuf inert_empty).
  - destruct (Ascii.eqb c "<") eqn:Hc.
    + apply IH2. cbn [existsb]. apply Ascii.eqb_eq in Hc. now subst c.
    + cbn [strip_from]. now rewrite Hc, IH1.
  - destruct (Ascii.eqb c ">") eqn:Hc.
    + apply Ascii.eqb_eq in Hc. subst c.
      destruct buf as [|x [|y buf]]; [exact IH1 | | exact IH1].
      cbn [emit_rev strip_from].
      destruct (Ascii.eqb x "<") eqn:Hx.
      * cbn [strip_from Ascii.eqb Bool.eqb emit_rev]. now rewrite IH1.
      * cbn [strip_from Ascii.eqb Bool.eqb]. now rewrite IH1.
    + apply IH2. cbn [existsb]. now rewrite Hc.
Qed.

(** Text with no [<] goes through the scan as it is. *)
Lemma strip_from_plain (s : string) :
  includes s "<" = false -> strip_from Outside s = s.
Proof.
  intros H.
  assert (Hn : ~ occurs_in "<" s)
    by (intros Ho; apply includes_occurs in Ho; congruence).
  clear H. induction s as [|c s IH]; [reflexivity|].
  cbn [strip_from]. destruct (Ascii.eqb c "<") eqn:Hc.
  - apply Ascii.eqb_eq in Hc. subst c. destruct Hn. apply occurs_in_char. now left.
  - rewrite IH; [reflexivity|]. intros Ho. apply Hn. apply occurs_in_char. now right.
Qed.

(** Inside a candidate tag, text with no [>] is kept for later. *)
Lemma strip_from_InTag_app (t rest : string) (buf : list ascii) :
  includes t ">" = false ->
  strip_from (InTag buf) (t +:+ rest)
  = strip_from (InTag (rev (list_ascii_of_string t) ++ buf)) rest.
Proof.
  intros H.
  assert (Hn : ~ occurs_in ">" t)
    by (intros Ho; apply includes_occurs in Ho; congruence).
  clear H. revert buf; induction t as [|c t IH]; intros buf; [reflexivity|].
  cbn [append strip_from list_ascii_of_string rev].
  destruct (Ascii.eqb c ">") eqn:Hc.
  - apply Ascii.eqb_eq in Hc. subst c. destruct Hn. apply occurs_in_char. now left.
  - rewrite IH by (intros Ho; apply Hn; apply occurs_in_char; now right).
    now rewrite <- List.app_assoc.
Qed.

Lemma strip_from_Outside_app (a rest : string) :
  includes a "<" = false ->
  strip_from Outside (a +:+ rest) = a +:+ strip_from Outside rest.
Proof.
  intros H.
  assert (Hn : ~ occurs_in "<" a)
    by (intros Ho; apply includes_occurs in Ho; congruence).
  clear H. induction a as [|c a IH]; [reflexivity|].
  cbn [append strip_from]. destruct (Ascii.eqb c "<") eqn:Hc.
  - apply Ascii.eqb_eq in Hc. subst c. destruct Hn. apply occurs_in_char. now left.
  - rewrite IH; [reflexivity|]. intros Ho. apply Hn. apply occurs_in_char. now right.
Qed.

(** X5. Removing the tags leaves nothing to remove: the regular
    expression matches nowhere in the text that [replace] returns, so a
    second pass changes nothing. The result is never longer than the
    text. *)
Theorem stripTags_idempotent (s : string) :
  stripTags (stripTags s) = stripTags s
  /\ (String.length (stripTags s) <= String.length s)%nat.
Proof.
  split; [apply strip_from_twice | apply length_strip_from].
Qed.

(** X6. Text with no [<] is returned as it is. A [<], one or more code
    units other than [>], and a [>] are removed together, and the text
    before them, when it has no [<], is kept; the scan goes on behind
    them. *)
Theorem stripTags_plain_and_tag (a t rest : string) :
  includes a "<" = false ->
  includes t ">" = false -> is_empty t = false ->
  stripTags a = a
  /\ stripTags (a +:+ "<" +:+ t +:+ ">" +:+ rest) = a +:+ stripTags rest.
Proof.
  intros Ha Ht Hne. unfold stripTags. split; [now apply strip_from_plain|].
  rewrite strip_from_Outside_app by exact Ha.
  f_equal. cbn [append strip_from Ascii.eqb Bool.eqb].
  rewrite strip_from_InTag_app by exact Ht.
  cbn [append strip_from Ascii.eqb Bool.eqb].
  destruct t as [|c t]; [discriminate|].
  cbn [list_ascii_of_string rev].
  destruct (rev (list_ascii_of_string t) ++ [c])%list as [|x [|y l]] eqn:E.
  - destruct (rev (list_ascii_of_string t)); discriminate.
  - reflexivity.
  - reflexivity.
Qed.

(** A description with one pair of tags: the opening tag goes, and the
    scan of the rest takes the closing one. *)
Lemma stripTags_plain_and_tag_witness :
  stripTags "Peak <b>load</b> rose" = "Peak load rose".
Proof.
  destruct (stripTags_plain_and_tag "Peak " "b" "load</b> rose") as [_ H];
    [reflexivity | reflexivity | reflexivity |].
  etransitivity; [exact H | reflexivity].
Defined.

(** ** The clamp *)

Lemma length_take (n : nat) (s : string) :
  String.length (take n s) = Nat.min n (String.length s).
Proof.
  revert s; induction n as [|n IH]; intros [|c s]; simpl; try reflexivity.
  now rewrite IH.
Qed.

Lemma take_all (n : nat) (s : string) : (String.length s <= n)%nat -> take n s = s.
Proof.
  revert s; induction n as [|n IH]; intros [|c s] H; simpl in *; try reflexivity;
    [lia | rewrite IH; [reflexivity | lia]].
Qed.

Lemma take_app_exact (n : nat) (a b : string) :
  String.length a = n -> take n (a +:+ b) = a.
Proof.
  revert a; induction n as [|n IH]; intros [|c a] H; simpl in *;
    try discriminate; [now destruct b|].
  rewrite IH; [reflexivity | lia].
Qed.

Lemma length_clamp (text : string) (n : nat) :
  (String.length (clamp text n) <= n + String.length "…")%nat.
Proof.
  unfold clamp. destruct (Nat.leb_spec (String.length text) n) as [Hle | Hgt]; [lia|].
  rewrite SampleCodec.length_append, length_take. lia.
Qed.

(** X7. [clamp] returns a text of at most [n] code units as it is, and of
    a longer one the first [n] code units followed by the ellipsis. The
    result is never longer than [n] code units and the ellipsis, its first
    [n] code units are those of the text, and clamping it again gives it
    back. *)
Theorem clamp_bounded_idempotent (text : string) (n : nat) :
  ((String.length text <= n)%nat -> clamp text n = text)
  /\ ((n < String.length text)%nat -> clamp text n = take n text +:+ "…")
  /\ (String.length (clamp text n) <= n + String.length "…")%nat
  /\ take n (clamp text n) = take n text
  /\ clamp (clamp text n) n = clamp text n.
Proof.
  unfold clamp at 1 2 4.
  destruct (Nat.leb_spec (String.length text) n) as [Hle | Hgt].
  - split; [reflexivity|]. split; [lia|]. split; [apply length_clamp|].
    split; [reflexivity|].
    apply Nat.leb_le in Hle. unfold clamp. rewrite Hle. now rewrite Hle.
  - assert (Hlen : String.length (take n text) = n) by (rewrite length_take; lia).
    split; [lia|]. split; [reflexivity|].
    split; [apply length_clamp|].
    split; [now rewrite take_app_exact by exact Hlen|].
    unfold clamp.
    assert (Hlong : (String.length (take n text +:+ "…") <=? n)%nat = false).
    { apply Nat.leb_gt. rewrite SampleCodec.length_append, Hlen. simpl. lia. }
    apply Nat.leb_gt in Hgt. rewrite Hgt, Hlong.
    now rewrite (take_app_exact n _ _ Hlen).
Qed.

(** A text of five code units clamped to three, and one of three. *)
Lemma clamp_bounded_idempotent_witness :
  clamp "India" 3 = "Ind…" /\ clamp "Ind" 3 = "Ind".
Proof.
  destruct (clamp_bounded_idempotent "India" 3) as (_ & H & _).
  destruct (clamp_bounded_idempotent "Ind" 3) as (H' & _).
  split; [apply H; simpl; lia | apply H'; simpl; lia].
Defined.

(** ** The records of the fetcher *)

Lemma to_uint_not_nil (n : nat) : Nat.to_uint n <> Decimal.Nil.
Proof.
  intros H.
  pose proof (DecimalNat.Unsigned.to_of (Nat.to_uint n)) as E.
  rewrite DecimalNat.Unsigned.of_to, H in E. discriminate.
Qed.

(** Two indices are printed alike only when they are equal. *)
Lemma decimal_inj (i j : nat) : decimal i = decimal j -> i = j.
Proof.
  unfold decimal. intros H.
  apply DecimalNat.Unsigned.to_uint_inj.
  pose proof (NilZero.usu _ (to_uint_not_nil i)) as Hi.
  pose proof (NilZero.usu _ (to_uint_not_nil j)) as Hj.
  rewrite H in Hi. congruence.
Qed.

Lemma digits_no_underscore (d : Decimal.uint) :
  ~ occurs_in "_" (NilEmpty.string_of_uint d).
Proof.
  induction d; cbn [NilEmpty.string_of_uint];
    [apply not_occurs_in_empty | ..];
    (intros H; apply occurs_in_char in H; destruct H as [H | H];
     [discriminate | now apply IHd]).
Qed.

Lemma decimal_no_underscore (i : nat) : ~ occurs_in "_" (decimal i).
Proof.
  unfold decimal, NilZero.string_of_uint.
  destruct (Nat.to_uint i) eqn:E; try (rewrite <- E; apply digits_no_underscore).
  now destruct (to_uint_not_nil i).
Qed.

(** What follows the last underscore of a string is determined by the
    string. *)
Lemma after_last_underscore (a1 a2 b1 b2 : string) :
  ~ occurs_in "_" b1 -> ~ occurs_in "_" b2 ->
  a1 +:+ "_" +:+ b1 = a2 +:+ "_" +:+ b2 -> b1 = b2.
Proof.
  intros H1 H2. revert a2; induction a1 as [|c a1 IH]; intros [|c' a2] H;
    simpl in H.
  - congruence.
  - injection H as _ H. destruct H1. rewrite H. now exists a2, b2.
  - injection H as _ H. destruct H2. rewrite <- H. now exists a1, b1.
  - injection H as _ H. now apply (IH a2).
Qed.

Section RecordFacts.

Context {P : Platform}.

(** The fields of the record the callback builds. *)
Lemma parseItem_fields (item : RssItem) (i : nat) (n : NewsItem) :
  parseItem item i = Val (Some n) ->
  id n = publishedAtISO n +:+ "_" +:+ decimal i
  /\ title n = text_or (el_title item) EmptyString
  /\ url n = text_or (el_link item) EmptyString
  /\ source n = text_or (el_source item) "Google News"
  /\ snippet n = clamp (match el_description item with
                        | Some s => stripTags s
                        | None => EmptyString
                        end) 180.
Proof.
  unfold parseItem. intros H.
  destruct (if is_empty (text_or (el_pubDate item) EmptyString) then _ else _)
    as [iso|e]; [|discriminate].
  destruct ((is_empty (text_or (el_title item) EmptyString)
             || is_empty (text_or (el_link item) EmptyString)
             || is_empty iso)%bool); [discriminate|].
  injection H as <-. simpl. repeat split.
Qed.

Lemma text_or_default (el : option string) (d : string) :
  is_empty d = false -> is_empty (text_or el d) = false.
Proof.
  intros Hd. destruct el as [s|]; [|exact Hd]. unfold text_or, or_else.
  now destruct (is_empty s) eqn:E.
Qed.

(** The traversal pairs every item with the index it has in the feed. *)
Lemma map_items_nth (l : list RssItem) (i : nat) (xs : list (option NewsItem)) :
  map_items l i = Val xs ->
  length xs = length l
  /\ forall n, In (Some n) xs ->
       exists j item, (i <= j < i + length l)%nat
                      /\ nth_error l (j - i) = Some item
                      /\ parseItem item j = Val (Some n).
Proof.
  revert i xs; induction l as [|item l IH]; intros i xs H; simpl in H.
  - injection H as <-. split; [reflexivity | intros n []].
  - destruct (parseItem item i) as [x|e] eqn:Hx; [|discriminate].
    destruct (map_items l (S i)) as [xs'|e] eqn:Hxs; [|discriminate].
    injection H as <-. destruct (IH (S i) xs' Hxs) as [Hlen Hin].
    split; [simpl; now rewrite Hlen|].
    intros n [-> | Hn].
    + exists i, item. rewrite Nat.sub_diag. simpl. split; [lia | now split].
    + destruct (Hin n Hn) as (j & item' & Hj & Hnth & Hp).
      exists j, item'. split; [simpl; lia|]. split; [|exact Hp].
      replace (j - i)%nat with (S (j - S i))%nat by lia. exact Hnth.
Qed.

Lemma In_compact {A} (l : list (option A)) (a : A) : In a (compact l) <-> In (Some a) l.
Proof.
  induction l as [|[b|] l IH]; simpl; [tauto | | ].
  - rewrite IH. split; (intros [H | H]; [left; congruence | now right]).
  - rewrite IH. split; [now right | intros [H | H]; [discriminate | exact H]].
Qed.

Lemma length_compact {A} (l : list (option A)) : (length (compact l) <= length l)%nat.
Proof. induction l as [|[b|] l IH]; simpl; lia. Qed.

(** The identifiers of the records from index [i] on are pairwise
    distinct, and each ends with an index that is not below [i]. *)
Lemma map_items_ids (l : list RssItem) (i : nat) (xs : list (option NewsItem)) :
  map_items l i = Val xs ->
  List.NoDup (map id (compact xs))
  /\ Forall (fun n => exists j, (i <= j)%nat
                                /\ id n = publishedAtISO n +:+ "_" +:+ decimal j)
       (compact xs).
Proof.
  revert i xs; induction l as [|item l IH]; intros i xs H; simpl in H.
  - injection H as <-. split; constructor.
  - destruct (parseItem item i) as [x|e] eqn:Hx; [|discriminate].
    destruct (map_items l (S i)) as [xs'|e] eqn:Hxs; [|discriminate].
    injection H as <-. destruct (IH (S i) xs' Hxs) as [Hnd Hall].
    assert (Hall' : Forall (fun n => exists j, (i <= j)%nat
                              /\ id n = publishedAtISO n +:+ "_" +:+ decimal j)
                      (compact xs')).
    { eapply List.Forall_impl; [|exact Hall].
      intros n (j & Hj & Hid). exists j. split; [lia | exact Hid]. }
    destruct x as [n|]; simpl; [|now split].
    destruct (parseItem_fields item i n Hx) as (Hid & _).
    split.
    + constructor; [|exact Hnd].
      intros Hin. apply in_map_iff in Hin. destruct Hin as (n' & Heq & Hn').
      rewrite List.Forall_forall in Hall.
      destruct (Hall n' Hn') as (j & Hj & Hid').
      rewrite Hid, Hid' in Heq.
      apply after_last_underscore in Heq; try apply decimal_no_underscore.
      apply decimal_inj in Heq. lia.
    + constructor; [|exact Hall']. exists i. split; [lia | exact Hid].
Qed.

End RecordFacts.

(** X8. Every record the parser returns is the record of one item of the
    feed: its identifier is its publish date, an underscore and the
    position of that item in the feed; title, link and publish date are not
    empty, the publish date being an ISO string that [toISOString] printed;
    the source is the item's, or [Google News] when the item has none, and
    so never empty; the snippet is the description with its tags removed,
    clamped, and so no longer than 180 code units and the ellipsis. There
    are no more records than items. *)
Theorem parseItems_records {P : Platform} (l : list RssItem) (out : list NewsItem) :
  parseItems l = Val out ->
  (length out <= length l)%nat
  /\ forall n, In n out ->
       (exists j item,
           nth_error l j = Some item /\ parseItem item j = Val (Some n)
           /\ id n = publishedAtISO n +:+ "_" +:+ decimal j
           /\ source n = text_or (el_source item) "Google News")
       /\ is_empty (title n) = false /\ is_empty (url n) = false
       /\ is_empty (source n) = false
       /\ (exists t, publishedAtISO n = toISOString t)
       /\ (String.length (snippet n) <= 180 + String.length "…")%nat.
Proof.
  unfold parseItems. intros H.
  destruct (map_items l 0) as [xs|e] eqn:Hxs; [|discriminate].
  injection H as <-. destruct (map_items_nth l 0 xs Hxs) as [Hlen Hin].
  split; [rewrite <- Hlen; apply length_compact|].
  intros n Hn. apply In_compact in Hn.
  destruct (Hin n Hn) as (j & item & Hj & Hnth & Hp).
  rewrite Nat.sub_0_r in Hnth.
  destruct (parseItem_fields item j n Hp) as (Hid & _ & _ & Hsrc & Hsn).
  destruct (parseItem_record item j n Hp) as (Ht & Hu & _ & Hiso).
  split; [now exists j, item|]. split; [exact Ht|]. split; [exact Hu|].
  split; [rewrite Hsrc; now apply text_or_default|]. split; [exact Hiso|].
  rewrite Hsn. apply length_clamp.
Qed.

Lemma NoDup_map_filter {A B} (f : A -> B) (p : A -> bool) (l : list A) :
  List.NoDup (map f l) -> List.NoDup (map f (List.filter p l)).
Proof.
  induction l as [|a l IH]; simpl; intros H; [constructor|].
  inversion H as [|? ? Hn Hd]; subst.
  destruct (p a); simpl; [|now apply IH].
  constructor; [|now apply IH].
  intros Hin. apply Hn. apply in_map_iff in Hin. destruct Hin as (x & Hx & Hin).
  apply filter_In in Hin. apply in_map_iff. exists x. tauto.
Qed.

Lemma NoDup_map_firstn {A B} (f : A -> B) (k : nat) (l : list A) :
  List.NoDup (map f l) -> List.NoDup (map f (firstn k l)).
Proof.
  revert l; induction k as [|k IH]; intros [|a l] H; simpl; try constructor.
  - inversion H as [|? ? Hn Hd]; subst. intros Hin. apply Hn.
    apply in_map_iff in Hin. destruct Hin as (x & Hx & Hin).
    apply in_map_iff. exists x. split; [exact Hx|].
    rewrite <- (firstn_skipn k l). apply in_or_app. now left.
  - inversion H; subst. now apply IH.
Qed.

(** The records of the sample feed. *)
Lemma sample_items_parse :
  exists out,
    parseItems (P := Sample.platform)
      (item_elements (DOM_parse (Platform := Sample.platform) Sample.FEED))
    = Val out
    /\ map id out = ["2026-11-03T05:33:00.000Z_0"; "2026-11-02T10:00:00.000Z_2"].
Proof. eexists. vm_compute. split; reflexivity. Qed.

(** The sample feed: three items, the second without a link. Two
    records come out, under the positions 0 and 2 of their items, each with
    a source. *)
Lemma parseItems_records_witness :
  exists out,
    parseItems (P := Sample.platform)
      (item_elements (DOM_parse (Platform := Sample.platform) Sample.FEED))
    = Val out
    /\ map id out = ["2026-11-03T05:33:00.000Z_0"; "2026-11-02T10:00:00.000Z_2"]
    /\ (length out <= 3)%nat
    /\ forall n, In n out -> is_empty (source n) = false.
Proof.
  destruct sample_items_parse as (out & Hout & Hids). exists out.
  destruct (parseItems_records (P := Sample.platform) _ out Hout) as [Hlen Hall].
  split; [exact Hout|]. split; [exact Hids|]. split; [exact Hlen|].
  intros n Hn. destruct (Hall n Hn) as (_ & _ & _ & Hs & _). exact Hs.
Defined.

(** X9. The identifiers of the records of one fetch are pairwise
    distinct, and so are the keys of the cards after a [load] that
    fetched: the view of the relevant records that [load] adopts shows no
    identifier twice, whatever the range, on every engine whose sort is
    lawful. *)
Theorem parseItems_ids_distinct {P : Platform}
    (l : list RssItem) (out : list NewsItem) (from to : string) :
  parseItems l = Val out ->
  List.NoDup (map id out)
  /\ (sort_lawful P ->
      List.NoDup (map id (filtered (firstn 100 (List.filter isRelevant out)) from to))).
Proof.
  unfold parseItems. intros H.
  destruct (map_items l 0) as [xs|e] eqn:Hxs; [|discriminate].
  injection H as <-.
  assert (Hnd : List.NoDup (map id (compact xs))) by now apply (map_items_ids l 0 xs).
  split; [exact Hnd|].
  intros [Hp _]. unfold filtered.
  eapply Permutation_NoDup.
  - apply Permutation_map. apply Hp.
  - now apply NoDup_map_filter, NoDup_map_firstn, NoDup_map_filter.
Qed.

(** The two records of the sample feed have two identifiers, and so has
    their view. *)
Lemma parseItems_ids_distinct_witness :
  exists out,
    parseItems (P := Sample.platform)
      (item_elements (DOM_parse (Platform := Sample.platform) Sample.FEED))
    = Val out
    /\ List.NoDup (map id out)
    /\ List.NoDup
         (map id (filtered (P := Sample.platform)
                    (firstn 100 (List.filter isRelevant out))
                    "2026-11-01" "2026-11-03")).
Proof.
  destruct sample_items_parse as (out & Hout & _). exists out.
  split; [exact Hout|].
  pose proof (parseItems_ids_distinct (P := Sample.platform) _ out
                "2026-11-01" "2026-11-03" Hout) as [H1 H2].
  split; [exact H1 | exact (H2 sort_from_later_lawful)].
Defined.

(** ** The calls of a run *)

Lemma calls_app {A} (m : M A) (w : World) (new : list Event) :
  trace (snd (m w)) = (trace w ++ new)%list -> calls m w = new.
Proof. intros H. unfold calls. rewrite H. apply drop_app_length. Qed.

(** X10. The fetcher does one thing to the world: its one call is the
    request to the relay, and it leaves the component state and
    [localStorage] as they are, whether it returns or throws. What it
    returns or throws depends on the network only. *)
Theorem fetchGoogleNewsRSS_one_request {P : Platform} (w w2 : World) :
  network w2 = network w ->
  calls fetchGoogleNewsRSS w = [CallFetch PROXY_URL]
  /\ ui (snd (fetchGoogleNewsRSS w)) = ui w
  /\ localStorage (snd (fetchGoogleNewsRSS w)) = localStorage w
  /\ fst (fetchGoogleNewsRSS w2) = fst (fetchGoogleNewsRSS w).
Proof.
  intros Hn.
  erewrite (calls_app fetchGoogleNewsRSS w) by (rewrite fetch_run; reflexivity).
  rewrite fetch_run. cbn [snd ui localStorage].
  repeat split. now apply fetch_frame.
Qed.

(** The relay answering 500, in a world with a record on screen and in
    one without: the same exception, one request, the record still
    there. *)
Lemma fetchGoogleNewsRSS_one_request_witness :
  let w := Sample.world (mkState (js_of_items [Sample.item3]) false None) None
             Sample.http_500 in
  let w2 := Sample.world initial_state None Sample.http_500 in
  calls (fetchGoogleNewsRSS (P := Sample.platform)) w = [CallFetch PROXY_URL]
  /\ ui (snd (fetchGoogleNewsRSS (P := Sample.platform) w)) = ui w
  /\ fst (fetchGoogleNewsRSS (P := Sample.platform) w2)
     = fst (fetchGoogleNewsRSS (P := Sample.platform) w).
Proof.
  intros w w2.
  destruct (fetchGoogleNewsRSS_one_request (P := Sample.platform) w w2 eq_refl)
    as (Hc & Hu & _ & Hf).
  split; [exact Hc | split; [exact Hu | exact Hf]].
Defined.

(** ** Edges of the view *)

Lemma filter_none {A} (f : A -> bool) (l : list A) :
  (forall x, In x l -> f x = false) -> List.filter f l = [].
Proof.
  induction l as [|a l IH]; intros H; [reflexivity|]. simpl.
  rewrite (H a) by now left. apply IH. intros x Hx. apply H. now right.
Qed.

(** X11. What the view hides. When the start or the end of the range is
    not a date, as when a date input is cleared, no record is shown; none
    is shown either when the start date comes after the end date; and a
    record whose own date cannot be read is never shown, whatever the
    range. No error is reported in any of these cases. This holds on
    every engine whose sort is lawful. *)
Theorem filtered_hides_unreadable {P : Platform}
    (l : list NewsItem) (from to : string) :
  sort_lawful P ->
  (Date_parse (from +:+ "T00:00:00Z") = None
   \/ Date_parse (to +:+ "T23:59:59Z") = None ->
   filtered l from to = [])
  /\ (forall a b,
        Date_parse (from +:+ "T00:00:00Z") = Some a ->
        Date_parse (to +:+ "T23:59:59Z") = Some b ->
        b < a -> filtered l from to = [])
  /\ (forall n, Date_parse (publishedAtISO n) = None -> ~ In n (filtered l from to)).
Proof.
  intros Hlaw.
  assert (Hnil : Array_sort by_date_desc [] = [])
    by (apply Permutation_nil; apply (proj1 Hlaw)).
  split; [|split].
  - intros H. unfold filtered. rewrite filter_none; [exact Hnil|].
    intros n _. unfold in_range. destruct (Date_parse (publishedAtISO n)); [|reflexivity].
    destruct H as [-> | ->]; [reflexivity|]. apply andb_false_r.
  - intros a b Ha Hb Hlt. unfold filtered. rewrite filter_none; [exact Hnil|].
    intros n _. unfold in_range. rewrite Ha, Hb.
    destruct (Date_parse (publishedAtISO n)) as [t|]; [|reflexivity]. simpl.
    apply andb_false_iff. rewrite !Z.leb_gt. lia.
  - intros n Hn Hin. apply (In_filtered _ _ _ _ Hlaw) in Hin. destruct Hin as [_ Hin].
    unfold in_range in Hin. rewrite Hn in Hin. discriminate.
Qed.

(** The start date cleared, and a range given backwards: the three
    sample records are all hidden. *)
Lemma filtered_hides_unreadable_witness :
  let l := [Sample.item1; Sample.item2; Sample.item3] in
  filtered (P := Sample.platform) l EmptyString "2026-11-03" = []
  /\ filtered (P := Sample.platform) l "2026-11-03" "2026-11-01" = [].
Proof.
  intros l. split.
  - apply (proj1 (filtered_hides_unreadable (P := Sample.platform) l
                    EmptyString "2026-11-03" sort_from_later_lawful)).
    left. reflexivity.
  - apply (proj1 (proj2 (filtered_hides_unreadable (P := Sample.platform) l
                           "2026-11-03" "2026-11-01" sort_from_later_lawful))
             1793664000000 1793577599000).
    + reflexivity.
    + reflexivity.
    + reflexivity.
Defined.

(** ** The location test *)

(** X12. The second location test of [isRelevant] never decides: a text
    that contains [indian] contains [india], so a record is relevant
    exactly when its haystack contains [india] and one of the topic
    terms. *)
Theorem isRelevant_india_suffices (item : NewsItem) :
  isRelevant item
  = (includes (haystack item) "india"
     && existsb (fun t => includes (haystack item) t) POWER_TERMS)%bool.
Proof.
  unfold isRelevant. cbv zeta. f_equal.
  destruct (includes (haystack item) "india") eqn:Hi; [reflexivity|].
  destruct (includes (haystack item) "indian") eqn:Hn; [|reflexivity].
  apply includes_occurs in Hn. destruct Hn as (a & b & Hab).
  assert (Ho : occurs_in "india" (haystack item)).
  { exists a, ("n" +:+ b). rewrite Hab. f_equal. }
  apply includes_occurs in Ho. congruence.
Qed.

(** ** Every run of [load] *)

Section LoadRuns.

Context {P : Platform}.

#[local] Arguments loadCache : simpl never.
#[local] Arguments fetchGoogleNewsRSS : simpl never.
#[local] Arguments JSON_stringify : simpl never.
#[local] Arguments js_of_items : simpl never.

(** The four ways a [load] runs: a cache hit, a fetch that returns
    followed by a write that the storage takes, the same with a write that
    the storage refuses, and a fetch that throws; with the world each
    leaves. *)
Lemma load_runs (force : bool) (w : World) :
  (exists cached,
      force = false /\ cache_hit w = true
      /\ fst (loadCache w) = Val cached /\ truthy cached = true
      /\ load force w
         = (Val tt,
            mkWorld (mkState cached false None) (localStorage w) (clock w) (network w)
              (trace w ++ [ CallSetLoading true; CallSetError None;
                            CallGetItem CACHE_KEY; CallSetItems cached;
                            CallSetLoading false; CallSetLoading false ])
              (writable w)))
  \/ (exists raw,
        (force = true \/ cache_hit w = false)
        /\ fst (fetchGoogleNewsRSS w) = Val raw
        /\ let relevant := firstn 100 (List.filter isRelevant raw) in
           let now := clock w + elapsed (network w PROXY_URL) in
           let text := JSON_stringify (cache_entry now relevant) in
           writable w (localStorage w) CACHE_KEY text = true
           /\ load force w
              = (Val tt,
                 mkWorld (mkState (js_of_items relevant) false None)
                   (<[CACHE_KEY := text]> (localStorage w)) now (network w)
                   (trace w ++ [ CallSetLoading true; CallSetError None ]
                      ++ (if force then [] else [ CallGetItem CACHE_KEY ])
                      ++ [ CallFetch PROXY_URL; CallSetItems (js_of_items relevant);
                           CallSetItem CACHE_KEY text; CallSetLoading false ])
                   (writable w)))
  \/ (exists raw,
        (force = true \/ cache_hit w = false)
        /\ fst (fetchGoogleNewsRSS w) = Val raw
        /\ let relevant := firstn 100 (List.filter isRelevant raw) in
           let now := clock w + elapsed (network w PROXY_URL) in
           let text := JSON_stringify (cache_entry now relevant) in
           writable w (localStorage w) CACHE_KEY text = false
           /\ load force w
              = (Val tt,
                 mkWorld (mkState (js_of_items relevant) false (Some ERROR_MESSAGE))
                   (localStorage w) now (network w)
                   (trace w ++ [ CallSetLoading true; CallSetError None ]
                      ++ (if force then [] else [ CallGetItem CACHE_KEY ])
                      ++ [ CallFetch PROXY_URL; CallSetItems (js_of_items relevant);
                           CallSetItem CACHE_KEY text;
                           CallSetError (Some ERROR_MESSAGE); CallSetLoading false ])
                   (writable w)))
  \/ (exists e,
        (force = true \/ cache_hit w = false)
        /\ fst (fetchGoogleNewsRSS w) = Throw e
        /\ load force w
           = (Val tt,
              mkWorld (mkState (items (ui w)) false (Some ERROR_MESSAGE))
                (localStorage w) (clock w + elapsed (network w PROXY_URL)) (network w)
                (trace w ++ [ CallSetLoading true; CallSetError None ]
                   ++ (if force then [] else [ CallGetItem CACHE_KEY ])
                   ++ [ CallFetch PROXY_URL; CallSetError (Some ERROR_MESSAGE);
                        CallSetLoading false ])
                (writable w))).
Proof.
  destruct (loadCache_run w) as [v Hv].
  assert (Hc : fst (loadCache w) = Val v) by now rewrite Hv.
  assert (Hhit : cache_hit w = truthy v) by (unfold cache_hit; now rewrite Hc).
  assert (Hmiss : force = true \/ cache_hit w = false ->
                  force = true
                  \/ (exists v, fst (loadCache w) = Val v /\ truthy v = false)).
  { intros [H | H]; [now left | right]. exists v. split; [exact Hc | congruence]. }
  assert (Hpath : (force = false /\ cache_hit w = true)
                  \/ (force = true \/ cache_hit w = false)).
  { destruct force; [now right; left|]. destruct (cache_hit w); auto. }
  destruct Hpath as [[-> Ht] | Hpath].
  - left. exists v. split; [reflexivity|]. split; [exact Ht|]. split; [exact Hc|].
    rewrite Hhit in Ht. split; [exact Ht|]. exact (load_hit w v Hc Ht).
  - right. destruct (fst (fetchGoogleNewsRSS w)) as [raw|e] eqn:Hf.
    + destruct (writable w (localStorage w) CACHE_KEY
                  (JSON_stringify
                     (cache_entry (clock w + elapsed (network w PROXY_URL))
                        (firstn 100 (List.filter isRelevant raw))))) eqn:Hw.
      * left. exists raw. split; [exact Hpath|]. split; [reflexivity|].
        split; [exact Hw|].
        exact (load_fetched force w raw (Hmiss Hpath) Hf Hw).
      * right; left. exists raw. split; [exact Hpath|]. split; [reflexivity|].
        split; [exact Hw|].
        exact (load_unsaved force w raw (Hmiss Hpath) Hf Hw).
    + right; right. exists e. split; [exact Hpath|]. split; [reflexivity|].
      exact (load_failed force w e (Hmiss Hpath) Hf).
Qed.

End LoadRuns.


(** X14. Of [localStorage], [load] touches the cache key only: every
    other key holds after the call what it held before, the reads and
    writes of the call are reads and writes of that key, and there is at
    most one write. *)
Theorem load_touches_only_the_slot {P : Platform} (force : bool) (w : World) :
  let w' := snd (load force w) in
  (forall k, k <> CACHE_KEY -> localStorage w' !! k = localStorage w !! k)
  /\ Forall (fun e => match e with
                      | CallGetItem k | CallSetItem k _ => k = CACHE_KEY
                      | _ => True
                      end) (calls (load force) w)
  /\ (length (List.filter is_write (calls (load force) w)) <= 1)%nat.
Proof.
  intros w'. unfold w'.
  destruct (load_runs force w)
    as [(v & _ & _ & _ & _ & Hl)
       | [(raw & _ & _ & _ & Hl) | [(raw & _ & _ & _ & Hl) | (e & _ & _ & Hl)]]];
    cbv zeta in Hl;
    (erewrite (calls_app (load force) w) by (rewrite Hl; reflexivity));
    rewrite Hl; cbn [snd localStorage].
  - split; [reflexivity|]. split; [repeat constructor | simpl; lia].
  - split; [intros k Hk; now apply lookup_insert_ne|].
    split; [destruct force; repeat constructor | destruct force; simpl; lia].
  - split; [reflexivity|].
    split; [destruct force; repeat constructor | destruct force; simpl; lia].
  - split; [reflexivity|].
    split; [destruct force; repeat constructor | destruct force; simpl; lia].
Qed.

(** A browser that keeps a theme under another key: a Refresh leaves
    it alone. *)
Lemma load_touches_only_the_slot_witness :
  let w := mkWorld initial_state {[ "theme" := "dark" ]} 1793685600000
             (Sample.serves Sample.FEED) [] (fun _ _ _ => true) in
  localStorage (snd (load (P := Sample.platform) true w)) !! "theme" = Some "dark".
Proof.
  intros w.
  destruct (load_touches_only_the_slot (P := Sample.platform) true w) as (H & _).
  rewrite (H "theme") by discriminate. apply lookup_singleton_eq.
Defined.

(** X15. [load(true)], which the Refresh and Retry buttons call, ignores
    the cache: it does not read the slot, and what it shows at the end
    depends on what was shown, on the network and on whether the storage
    takes the entry it writes, not on what the slot holds. *)
Theorem load_true_ignores_cache {P : Platform} (w1 w2 : World) :
  ui w1 = ui w2 -> network w1 = network w2 ->
  (forall raw,
     fst (fetchGoogleNewsRSS w1) = Val raw ->
     let relevant := firstn 100 (List.filter isRelevant raw) in
     writable w1 (localStorage w1) CACHE_KEY
       (JSON_stringify
          (cache_entry (clock w1 + elapsed (network w1 PROXY_URL)) relevant))
     = writable w2 (localStorage w2) CACHE_KEY
         (JSON_stringify
            (cache_entry (clock w2 + elapsed (network w2 PROXY_URL)) relevant))) ->
  List.filter is_read (calls (load true) w1) = []
  /\ ui (snd (load true w1)) = ui (snd (load true w2)).
Proof.
  intros Hu Hn Hsame.
  assert (Hf : fst (fetchGoogleNewsRSS w1) = fst (fetchGoogleNewsRSS w2))
    by now apply fetch_frame.
  destruct (load_runs true w1)
    as [(v & [=] & _)
       | [(raw & _ & Hr & Hw & Hl) | [(raw & _ & Hr & Hw & Hl) | (e & _ & He & Hl)]]];
    cbv zeta in Hl;
    (erewrite (calls_app (load true) w1) by (rewrite Hl; reflexivity));
    (split; [reflexivity|]); rewrite Hl; cbn [snd ui].
  - rewrite (Hsame raw Hr) in Hw. rewrite Hf in Hr.
    now rewrite (load_fetched true w2 raw (or_introl eq_refl) Hr Hw).
  - rewrite (Hsame raw Hr) in Hw. rewrite Hf in Hr.
    now rewrite (load_unsaved true w2 raw (or_introl eq_refl) Hr Hw).
  - rewrite Hf in He.
    rewrite (load_failed true w2 e (or_introl eq_refl) He). cbn [snd ui].
    now rewrite Hu.
Qed.

(** A world with [Sample.item3] on screen and the sample feed behind the
    relay: Refresh shows the same records whether the slot is empty or
    holds an entry. *)
Lemma load_true_ignores_cache_witness :
  let shown := mkState (js_of_items [Sample.item3]) false None in
  let raw := Sample.stringify (cache_entry 1793685000000 [Sample.item1]) in
  let w1 := Sample.world shown None (Sample.serves Sample.FEED) in
  let w2 := Sample.world shown (Some raw) (Sample.serves Sample.FEED) in
  List.filter is_read (calls (load (P := Sample.platform) true) w1) = []
  /\ ui (snd (load (P := Sample.platform) true w1))
     = ui (snd (load (P := Sample.platform) true w2)).
Proof.
  intros shown raw w1 w2.
  apply (load_true_ignores_cache (P := Sample.platform) w1 w2); reflexivity.
Defined.

(** A [load] that does not end in the cache asks the relay once. *)
Lemma load_miss_requests {P : Platform} (force : bool) (w : World) :
  force = true \/ cache_hit w = false ->
  List.filter is_fetch (calls (load force) w) = [CallFetch PROXY_URL].
Proof.
  intros Hmiss.
  destruct (load_runs force w)
    as [(v & -> & Hh & _)
       | [(raw & _ & _ & _ & Hl) | [(raw & _ & _ & _ & Hl) | (e & _ & _ & Hl)]]].
  - destruct Hmiss; congruence.
  - cbv zeta in Hl.
    erewrite (calls_app (load _) w) by (rewrite Hl; reflexivity).
    now destruct force.
  - cbv zeta in Hl.
    erewrite (calls_app (load _) w) by (rewrite Hl; reflexivity).
    now destruct force.
  - erewrite (calls_app (load _) w) by (rewrite Hl; reflexivity).
    now destruct force.
Qed.

(** X16. A [load] makes no request on a cache hit and exactly one, to the
    relay, otherwise; a hit is a [load(false)] for which [loadCache]
    returns a truthy value. *)
Theorem load_requests_at_most_once {P : Platform} (force : bool) (w : World) :
  List.filter is_fetch (calls (load force) w)
  = if (negb force && cache_hit w)%bool then [] else [CallFetch PROXY_URL].
Proof.
  destruct force; cbn [negb andb].
  - apply load_miss_requests. now left.
  - destruct (cache_hit w) eqn:Hh; [|apply load_miss_requests; now right].
    destruct (load_runs false w)
      as [(v & _ & _ & _ & _ & Hl)
         | [(raw & Hp & _) | [(raw & Hp & _) | (e & Hp & _)]]].
    + erewrite (calls_app (load _) w) by (rewrite Hl; reflexivity). reflexivity.
    + destruct Hp; congruence.
    + destruct Hp; congruence.
    + destruct Hp; congruence.
Qed.

(** X17. The cache serves the next visit. After a [load] that fetched and
    whose write the storage took, a [load(false)] in a world that has the
    [localStorage] the first one left, as the component does when it mounts
    again, shows the saved records without a request and without a write
    when no more than the freshness window has gone by, whatever is on
    screen and whatever the network would answer; when more has gone by it
    requests the feed again. The JSON codec is asked to print the saved
    entry as a non-empty text that parses back to it. *)
Theorem load_again_within_the_hour {P : Platform}
    (force : bool) (w : World) (raw : list NewsItem)
    (shown : State) (net : string -> NetReply) (tr : list Event)
    (wr : gmap string string -> string -> string -> bool) (d : Z) :
  force = true \/ cache_hit w = false ->
  fst (fetchGoogleNewsRSS w) = Val raw ->
  let relevant := firstn 100 (List.filter isRelevant raw) in
  let w1 := snd (load force w) in
  let entry := cache_entry (clock w1) relevant in
  writable w (localStorage w) CACHE_KEY (JSON_stringify entry) = true ->
  is_empty (JSON_stringify entry) = false ->
  JSON_parse (JSON_stringify entry) = Val entry ->
  let w' := mkWorld shown (localStorage w1) (clock w1 + d) net tr wr in
  let w2 := snd (load false w') in
  (d <= CACHE_TTL_MS ->
   items (ui w2) = js_of_items relevant
   /\ error (ui w2) = None /\ loading (ui w2) = false
   /\ localStorage w2 = localStorage w1
   /\ List.filter is_fetch (calls (load false) w') = []
   /\ List.filter is_write (calls (load false) w') = [])
  /\ (CACHE_TTL_MS < d ->
      List.filter is_fetch (calls (load false) w') = [CallFetch PROXY_URL]).
Proof.
  intros Hpath Hf relevant w1 entry Hw Hne Hrt w' w2.
  assert (Hmiss : force = true
                  \/ (exists v, fst (loadCache w) = Val v /\ truthy v = false)).
  { destruct Hpath as [H | H]; [now left | right].
    destruct (loadCache_run w) as [v Hv]. exists v.
    unfold cache_hit in H. rewrite Hv in *. simpl in *. now split. }
  assert (Hclock : clock w1 = clock w + elapsed (network w PROXY_URL)).
  { unfold w1.
    destruct (writable w (localStorage w) CACHE_KEY
                (JSON_stringify
                   (cache_entry (clock w + elapsed (network w PROXY_URL))
                      (firstn 100 (List.filter isRelevant raw))))) eqn:E.
    - now rewrite (load_fetched force w raw Hmiss Hf E).
    - now rewrite (load_unsaved force w raw Hmiss Hf E). }
  assert (Hw' : writable w (localStorage w) CACHE_KEY
                  (JSON_stringify
                     (cache_entry (clock w + elapsed (network w PROXY_URL))
                        (firstn 100 (List.filter isRelevant raw)))) = true)
    by (unfold entry in Hw; rewrite Hclock in Hw; exact Hw).
  pose proof (load_fetched force w raw Hmiss Hf Hw') as Hl. cbv zeta in Hl.
  assert (Hslot : localStorage w1 !! CACHE_KEY = Some (JSON_stringify entry)).
  { unfold entry. rewrite Hclock. unfold w1. rewrite Hl.
    cbn [snd localStorage]. apply lookup_insert_eq. }
  clearbody w1. split.
  - intros Hd.
    assert (Hc : fst (loadCache w') = Val (js_of_items relevant)).
    { apply (loadCache_fresh _ (JSON_stringify entry) entry (VNum (clock w1))
               (js_of_items relevant) (clock w1)); auto.
      unfold w'. cbn [clock]. lia. }
    pose proof (load_hit w' _ Hc eq_refl) as Hh.
    erewrite !(calls_app (load false) w') by (rewrite Hh; reflexivity).
    unfold w2. rewrite Hh. repeat split.
  - intros Hd.
    assert (Hc : fst (loadCache w') = Val VNull).
    { apply (loadCache_stale _ (JSON_stringify entry) entry (VNum (clock w1))
               (clock w1)); auto.
      unfold w'. cbn [clock]. lia. }
    apply load_miss_requests. right. unfold cache_hit. now rewrite Hc.
Qed.

(** The sample feed fetched by Refresh; the page is opened again ten
    minutes later with the network down: the one relevant record is shown,
    from the cache. *)
Lemma load_again_within_the_hour_witness :
  let w := Sample.world initial_state None (Sample.serves Sample.FEED) in
  let w1 := snd (load (P := Sample.platform) true w) in
  let w' := mkWorld initial_state (localStorage w1) (clock w1 + 600000)
              Sample.offline [] (fun _ _ _ => true) in
  let w2 := snd (load (P := Sample.platform) false w') in
  items (ui w2) = js_of_items [Sample.item1]
  /\ error (ui w2) = None
  /\ List.filter is_fetch (calls (load (P := Sample.platform) false) w') = [].
Proof.
  intros w w1 w' w2.
  pose (raw := match fst (fetchGoogleNewsRSS (P := Sample.platform) w) with
               | Val l => l
               | Throw _ => []
               end).
  assert (Hraw : fst (fetchGoogleNewsRSS (P := Sample.platform) w) = Val raw)
    by (vm_compute; reflexivity).
  assert (Hrel : firstn 100 (List.filter isRelevant raw) = [Sample.item1])
    by (vm_compute; reflexivity).
  destruct (load_again_within_the_hour (P := Sample.platform) true w raw
              initial_state Sample.offline [] (fun _ _ _ => true) 600000
              (or_introl eq_refl) Hraw) as [Hfresh _].
  - reflexivity.
  - apply SampleCodec.parse_stringify_entry.
  - apply SampleCodec.parse_stringify_entry.
  - destruct Hfresh as (Hi & He & _ & _ & Hf & _); [vm_compute; discriminate|].
    rewrite Hrel in Hi. split; [exact Hi | split; [exact He | exact Hf]].
Defined.

(** ** More on the cache store *)

(** X18. [loadCache] only reads. Whatever it returns, [localStorage],
    the component state and the clock are as before, and its one call is
    the read of the slot: an entry that is stale or cannot be read is
    ignored and stays where it is. *)
Theorem loadCache_only_reads {P : Platform} (w : World) :
  let w' := snd (loadCache w) in
  localStorage w' = localStorage w /\ ui w' = ui w /\ clock w' = clock w
  /\ calls loadCache w = [CallGetItem CACHE_KEY].
Proof.
  intros w'. unfold w'. destruct (loadCache_run w) as [v Hv].
  erewrite (calls_app loadCache w) by (rewrite Hv; reflexivity).
  rewrite Hv. repeat split.
Qed.

(** X19. An entry with no time of writing never expires. What decides
    is [ToNumber] of the [ts] of the value in the slot. When it is [NaN],
    as it is for a missing [ts], the age test compares with [NaN] and
    fails, so [loadCache] returns the [items] of the entry however late
    the clock is. When it is a number, [loadCache] returns the [items]
    until the clock is more than the window past that number and [null]
    from then on; this is so also for a [ts] that is not a number but
    converts to one: [null] counts as 0, [true] as 1, [false] as 0. *)
Theorem loadCache_without_ts_never_stale {P : Platform}
    (w : World) (raw : string) (obj ts v : JsVal) :
  localStorage w !! CACHE_KEY = Some raw -> is_empty raw = false ->
  JSON_parse raw = Val obj ->
  getProp obj "ts" = Val ts ->
  getProp obj "items" = Val v ->
  (ToNumber ts = None -> forall d, fst (loadCache (later d w)) = Val v)
  /\ (forall t, ToNumber ts = Some t ->
       forall d, fst (loadCache (later d w))
                 = if CACHE_TTL_MS <? clock w + d - t then Val VNull else Val v)
  /\ (forall fields, (forall x, ~ In ("ts", x) fields) ->
       getProp (VObj fields) "ts" = Val VUndefined)
  /\ ToNumber VUndefined = None
  /\ ToNumber VNull = Some 0
  /\ ToNumber (VBool true) = Some 1
  /\ ToNumber (VBool false) = Some 0
  /\ (forall n, ToNumber (VNum n) = Some n)
  /\ (forall s, ToNumber (VStr s) = ToNumber_other (VStr s)).
Proof.
  intros Hraw Hne Hobj Hts Hv.
  split; [|split; [|split; [|repeat split]]].
  3: { intros fields Hno. cbn [getProp]. f_equal.
       induction fields as [|[k x] r IH]; [reflexivity|]. cbn [assoc].
       destruct (String.eqb_spec "ts" k) as [<-|Hk].
       - destruct (Hno x). now left.
       - apply IH. intros y Hy. apply (Hno y). now right. }
  - intros Hn d.
    apply (loadCache_not_stale (later d w) raw obj ts v); auto.
    now rewrite Hn.
  - intros t Hn d.
    destruct (CACHE_TTL_MS <? clock w + d - t) eqn:E.
    + apply (loadCache_is_stale (later d w) raw obj ts); auto.
      rewrite Hn. exact E.
    + apply (loadCache_not_stale (later d w) raw obj ts v); auto.
      rewrite Hn. exact E.
Qed.

(** Three entries read ten years after the time of the sample world: the
    one that has [items] only is returned, the one whose [ts] is [null]
    and the one whose [ts] is the string [5] have expired. *)
Lemma loadCache_without_ts_never_stale_witness :
  let l := js_of_items [Sample.item1] in
  let slot obj := Sample.world initial_state (Some (Sample.stringify obj)) Sample.offline in
  let d := 10 * 365 * 86400000 in
  fst (loadCache (P := Sample.platform) (later d (slot (VObj [("items", l)])))) = Val l
  /\ fst (loadCache (P := Sample.platform)
            (later d (slot (VObj [("ts", VNull); ("items", l)])))) = Val VNull
  /\ fst (loadCache (P := Sample.platform)
            (later d (slot (VObj [("ts", VStr "5"); ("items", l)])))) = Val VNull.
Proof.
  intros l slot d.
  split; [|split].
  - apply (proj1 (loadCache_without_ts_never_stale (P := Sample.platform)
                    (slot (VObj [("items", l)]))
                    (Sample.stringify (VObj [("items", l)]))
                    (VObj [("items", l)]) VUndefined l
                    (lookup_singleton_eq _ _) eq_refl eq_refl eq_refl eq_refl)).
    reflexivity.
  - apply (proj1 (proj2 (loadCache_without_ts_never_stale (P := Sample.platform)
                    (slot (VObj [("ts", VNull); ("items", l)]))
                    (Sample.stringify (VObj [("ts", VNull); ("items", l)]))
                    (VObj [("ts", VNull); ("items", l)]) VNull l
                    (lookup_singleton_eq _ _) eq_refl eq_refl eq_refl eq_refl))
             0 eq_refl d).
  - apply (proj1 (proj2 (loadCache_without_ts_never_stale (P := Sample.platform)
                    (slot (VObj [("ts", VStr "5"); ("items", l)]))
                    (Sample.stringify (VObj [("ts", VStr "5"); ("items", l)]))
                    (VObj [("ts", VStr "5"); ("items", l)]) (VStr "5") l
                    (lookup_singleton_eq _ _) eq_refl eq_refl eq_refl eq_refl))
             5 eq_refl d).
Defined.

(** X20. [saveCache] overwrites. Of two saves the later one, when the
    storage takes it, is what the slot holds, with the time of the later
    save, and what [loadCache] returns within the freshness window of that
    save. When the storage refuses the later one, [localStorage] is as the
    earlier save left it: the slot keeps the earlier entry if the storage
    took that one. Every other key of [localStorage] is as it was before
    the two, whatever the storage did. The JSON codec is asked to print the
    later entry as a non-empty text that parses back to it. *)
Theorem saveCache_last_write_wins {P : Platform}
    (w : World) (l1 l2 : list NewsItem) (d1 d2 : Z) :
  let w1 := snd (saveCache l1 w) in
  let w2 := snd (saveCache l2 (later d1 w1)) in
  let earlier := JSON_stringify (cache_entry (clock w) l1) in
  let entry := cache_entry (clock w + d1) l2 in
  let text := JSON_stringify entry in
  is_empty text = false ->
  JSON_parse text = Val entry ->
  d2 <= CACHE_TTL_MS ->
  (writable w (localStorage w1) CACHE_KEY text = true ->
   localStorage w2 !! CACHE_KEY = Some text
   /\ fst (loadCache (later d2 w2)) = Val (js_of_items l2))
  /\ (writable w (localStorage w1) CACHE_KEY text = false ->
      fst (saveCache l2 (later d1 w1)) = Throw (DOMException "QuotaExceededError")
      /\ localStorage w2 = localStorage w1
      /\ (writable w (localStorage w) CACHE_KEY earlier = true ->
          localStorage w2 !! CACHE_KEY = Some earlier))
  /\ (forall k, k <> CACHE_KEY -> localStorage w2 !! k = localStorage w !! k).
Proof.
  intros w1 w2 earlier entry text Hne Hrt Hd.
  assert (H1 : clock w1 = clock w /\ writable w1 = writable w
               /\ (forall k, k <> CACHE_KEY -> localStorage w1 !! k = localStorage w !! k)
               /\ (writable w (localStorage w) CACHE_KEY earlier = true ->
                   localStorage w1 !! CACHE_KEY = Some earlier)).
  { unfold w1. destruct (writable w (localStorage w) CACHE_KEY earlier) eqn:E.
    - rewrite (saveCache_run l1 w E). cbn [snd clock writable localStorage].
      split; [reflexivity|]. split; [reflexivity|]. split.
      + intros k Hk. now rewrite lookup_insert_ne by congruence.
      + intros _. apply lookup_insert_eq.
    - rewrite (saveCache_refused l1 w E). cbn [snd logged clock writable localStorage].
      split; [reflexivity|]. split; [reflexivity|]. split; [reflexivity|].
      discriminate. }
  destruct H1 as (Hc1 & Hwr1 & Hk1 & Hs1).
  assert (Htext : JSON_stringify (cache_entry (clock (later d1 w1)) l2) = text)
    by (cbn [later clock]; now rewrite Hc1).
  assert (Hwr : writable (later d1 w1) (localStorage (later d1 w1)) CACHE_KEY
                  (JSON_stringify (cache_entry (clock (later d1 w1)) l2))
                = writable w (localStorage w1) CACHE_KEY text)
    by (rewrite Htext; cbn [later writable localStorage]; now rewrite Hwr1).
  clearbody w1.
  split; [|split].
  - intros Hw. rewrite <- Hwr in Hw. unfold w2.
    rewrite (saveCache_run l2 (later d1 w1) Hw). rewrite Htext.
    cbn [snd localStorage]. split; [apply lookup_insert_eq|].
    apply (loadCache_fresh _ text entry (VNum (clock w + d1))
             (js_of_items l2) (clock w + d1)); cbn [later localStorage clock]; auto.
    + apply lookup_insert_eq.
    + lia.
  - intros Hw. rewrite <- Hwr in Hw. unfold w2.
    rewrite (saveCache_refused l2 (later d1 w1) Hw).
    cbn [fst snd logged later localStorage].
    split; [reflexivity|]. split; [reflexivity|]. exact Hs1.
  - intros k Hk. unfold w2.
    destruct (writable (later d1 w1) (localStorage (later d1 w1)) CACHE_KEY
                (JSON_stringify (cache_entry (clock (later d1 w1)) l2))) eqn:E.
    + rewrite (saveCache_run l2 (later d1 w1) E). cbn [snd later localStorage].
      rewrite lookup_insert_ne by congruence. now apply Hk1.
    + rewrite (saveCache_refused l2 (later d1 w1) E).
      cbn [snd logged later localStorage]. now apply Hk1.
Qed.

(** Two records saved, then one record a minute later: the one record
    is read back. *)
Lemma saveCache_last_write_wins_witness :
  let w := Sample.world initial_state None Sample.offline in
  let w2 := snd (saveCache (P := Sample.platform) [Sample.item3]
                   (later 60000 (snd (saveCache (P := Sample.platform)
                                        [Sample.item1; Sample.item2] w)))) in
  fst (loadCache (P := Sample.platform) (later 1000 w2)) = Val (js_of_items [Sample.item3]).
Proof.
  intros w w2.
  destruct (saveCache_last_write_wins (P := Sample.platform) w
              [Sample.item1; Sample.item2] [Sample.item3] 60000 1000)
    as (H & _ & _).
  - apply SampleCodec.parse_stringify_entry.
  - apply SampleCodec.parse_stringify_entry.
  - vm_compute. discriminate.
  - exact (proj2 (H eq_refl)).
Defined.

(** ** When the parser throws *)

Section ParserThrows.

Context {P : Platform}.

Lemma parseItem_throws_iff (item : RssItem) (i : nat) :
  (exists e, parseItem item i = Throw e) <-> unreadable_date item = true.
Proof.
  unfold parseItem, unreadable_date.
  destruct (is_empty (text_or (el_pubDate item) EmptyString)); simpl.
  - rewrite orb_true_r. split; [intros [e [=]] | discriminate].
  - destruct (Date_parse (text_or (el_pubDate item) EmptyString)).
    + split; [|discriminate]. intros [e H].
      now destruct ((is_empty (text_or (el_title item) EmptyString)
                     || is_empty (text_or (el_link item) EmptyString)
                     || is_empty (toISOString z))%bool).
    + split; [reflexivity | eexists; reflexivity].
Qed.

Lemma parseItem_throws_RangeError (item : RssItem) (i : nat) (e : JsError) :
  parseItem item i = Throw e -> e = RangeError "Invalid time value".
Proof.
  unfold parseItem.
  destruct (is_empty (text_or (el_pubDate item) EmptyString)); simpl.
  - rewrite orb_true_r. discriminate.
  - destruct (Date_parse (text_or (el_pubDate item) EmptyString)); [|congruence].
    now destruct ((is_empty (text_or (el_title item) EmptyString)
                   || is_empty (text_or (el_link item) EmptyString)
                   || is_empty (toISOString z))%bool).
Qed.

Lemma map_items_throws_iff (l : list RssItem) (i : nat) :
  (existsb unreadable_date l = true
   -> map_items l i = Throw (RangeError "Invalid time value"))
  /\ (existsb unreadable_date l = false -> exists xs, map_items l i = Val xs).
Proof.
  revert i; induction l as [|item l IH]; intros i; cbn [existsb map_items].
  - split; [discriminate | now exists []].
  - destruct (parseItem item i) as [x|e] eqn:Hx.
    + assert (Hu : unreadable_date item = false).
      { destruct (unreadable_date item) eqn:E; [|reflexivity].
        apply (parseItem_throws_iff item i) in E. destruct E as [e E]. congruence. }
      rewrite Hu. cbn [orb]. destruct (IH (S i)) as [IH1 IH2]. split.
      * intros H. now rewrite (IH1 H).
      * intros H. destruct (IH2 H) as [xs ->]. now exists (x :: xs).
    + assert (Hu : unreadable_date item = true)
        by (apply (parseItem_throws_iff item i); now exists e).
      rewrite Hu. cbn [orb]. split; [|discriminate].
      intros _. now rewrite (parseItem_throws_RangeError item i e Hx).
Qed.

End ParserThrows.

(** X21. One publish date that is there and cannot be read, anywhere in
    the feed, makes the parser throw a [RangeError], and nothing else makes
    it throw: it returns records exactly when no item has such a date. A
    [load] that gets a feed with such an item from the relay ends with the
    error message and the records that were on screen, whatever the other
    items are. *)
Theorem parseItems_throws_iff_unreadable_date {P : Platform} (l : list RssItem) :
  (existsb unreadable_date l = true
   <-> parseItems l = Throw (RangeError "Invalid time value"))
  /\ (existsb unreadable_date l = false <-> exists out, parseItems l = Val out)
  /\ (forall force w r body,
        result (network w PROXY_URL) = Val r -> ok r = true -> text r = Val body ->
        item_elements (DOM_parse body) = l ->
        existsb unreadable_date l = true ->
        force = true \/ cache_hit w = false ->
        error (ui (snd (load force w))) = Some ERROR_MESSAGE
        /\ items (ui (snd (load force w))) = items (ui w)).
Proof.
  destruct (map_items_throws_iff l 0) as [Ht Hv].
  assert (Hthrow : existsb unreadable_date l = true ->
                   parseItems l = Throw (RangeError "Invalid time value"))
    by (intros H; unfold parseItems; now rewrite (Ht H)).
  assert (Hval : existsb unreadable_date l = false -> exists out, parseItems l = Val out).
  { intros H. unfold parseItems. destruct (Hv H) as [xs ->]. now eexists. }
  split; [|split].
  - split; [exact Hthrow|]. intros H.
    destruct (existsb unreadable_date l) eqn:E; [reflexivity|].
    destruct (Hval eq_refl) as [out Ho]. congruence.
  - split; [exact Hval|]. intros [out Ho].
    destruct (existsb unreadable_date l) eqn:E; [|reflexivity].
    rewrite (Hthrow eq_refl) in Ho. discriminate.
  - intros force w r body Hr Hok Hbody Hl Hbad Hpath.
    assert (Hf : fst (fetchGoogleNewsRSS w) = Throw (RangeError "Invalid time value")).
    { destruct (fetcher_failures w) as (_ & _ & _ & H).
      rewrite (H r body Hr Hok Hbody), Hl. now apply Hthrow. }
    assert (Hmiss : force = true
                    \/ (exists v, fst (loadCache w) = Val v /\ truthy v = false)).
    { destruct Hpath as [H | H]; [now left | right].
      destruct (loadCache_run w) as [v Hv']. exists v.
      unfold cache_hit in H. rewrite Hv' in *. simpl in *. now split. }
    rewrite (load_failed force w _ Hmiss Hf). split; reflexivity.
Qed.

(** The feed whose second item is dated [not a date], served while a
    record is on screen. *)
Lemma parseItems_throws_iff_unreadable_date_witness :
  let l := item_elements (DOM_parse (Platform := Sample.platform) Sample.FEED_BAD_DATE) in
  let w := Sample.world (mkState (js_of_items [Sample.item3]) false None) None
             (Sample.serves Sample.FEED_BAD_DATE) in
  parseItems (P := Sample.platform) l = Throw (RangeError "Invalid time value")
  /\ error (ui (snd (load (P := Sample.platform) true w))) = Some ERROR_MESSAGE
  /\ items (ui (snd (load (P := Sample.platform) true w))) = js_of_items [Sample.item3].
Proof.
  intros l w.
  destruct (parseItems_throws_iff_unreadable_date (P := Sample.platform) l)
    as (Ht & _ & Hload).
  assert (Hbad : existsb (unreadable_date (P := Sample.platform)) l = true)
    by (vm_compute; reflexivity).
  split; [exact (proj1 Ht Hbad)|].
  exact (Hload true w (mkResponse true (Val Sample.FEED_BAD_DATE)) Sample.FEED_BAD_DATE
           eq_refl eq_refl eq_refl eq_refl Hbad (or_introl eq_refl)).
Defined.

(** ** The address of the request *)

Lemma hex_digit_unreserved (c : ascii) :
  unreserved (hex_digit (N_of_ascii c / 16)) = true
  /\ unreserved (hex_digit (N_of_ascii c mod 16)) = true.
Proof. destruct c as [[] [] [] [] [] [] [] []]; vm_compute; split; reflexivity. Qed.

Lemma In_encodeURIComponent (s : string) (c : ascii) :
  In c (list_ascii_of_string (encodeURIComponent s)) ->
  unreserved c = true \/ c = "%"%char.
Proof.
  induction s as [|x s IH]; cbn [encodeURIComponent list_ascii_of_string]; [intros []|].
  destruct (unreserved x) eqn:Hx; cbn [list_ascii_of_string In].
  - intros [<- | H]; [now left | now apply IH].
  - destruct (hex_digit_unreserved x) as [H1 H2].
    intros [<- | [<- | [<- | H]]]; [now right | now left | now left | now apply IH].
Qed.

Lemma occurs_in_In (x : ascii) (s : string) :
  occurs_in (String x EmptyString) s -> In x (list_ascii_of_string s).
Proof.
  induction s as [|c s IH]; intros H.
  - now apply not_occurs_in_empty in H.
  - apply occurs_in_char in H. destruct H as [-> | H]; [now left | right; now apply IH].
Qed.

(** X22. The address of the feed goes to the relay as one query
    parameter. Whatever the text, [encodeURIComponent] returns unreserved
    characters and [%] only, so none of the characters that structure a
    URL is in it; the address the fetcher requests is the relay's address
    with [url=] and such a text behind it. *)
Theorem encodeURIComponent_one_parameter (s : string) :
  (forall c, In c (list_ascii_of_string (encodeURIComponent s)) ->
             unreserved c = true \/ c = "%"%char)
  /\ (forall x, In x (list_ascii_of_string "&=?#/: +") ->
                includes (encodeURIComponent s) (String x EmptyString) = false)
  /\ (exists e,
        PROXY_URL = "https://api.allorigins.win/raw?url=" +:+ e
        /\ forall x, In x (list_ascii_of_string "&=?#/: +") ->
                     includes e (String x EmptyString) = false).
Proof.
  assert (Hsafe : forall s x, In x (list_ascii_of_string "&=?#/: +") ->
            includes (encodeURIComponent s) (String x EmptyString) = false);
    [clear s | split; [apply In_encodeURIComponent|]; split; [apply Hsafe|];
               exists (encodeURIComponent RSS_URL); split; [reflexivity | apply Hsafe]].
  intros s x Hx.
  destruct (includes (encodeURIComponent s) (String x EmptyString)) eqn:E; [|reflexivity].
  apply includes_occurs, occurs_in_In, In_encodeURIComponent in E.
  cbn [list_ascii_of_string In] in Hx.
  repeat (destruct Hx as [<- | Hx]; [destruct E as [E | E]; discriminate|]).
  destruct Hx.
Qed.

(** The address of the feed has an [&] and an [=] of its own; encoded,
    it has none. *)
Lemma encodeURIComponent_one_parameter_witness :
  includes RSS_URL "&" = true
  /\ includes (encodeURIComponent RSS_URL) "&" = false
  /\ includes (encodeURIComponent RSS_URL) "=" = false.
Proof.
  destruct (encodeURIComponent_one_parameter RSS_URL) as (_ & H & _).
  split; [vm_compute; reflexivity|].
  split; apply H; cbn [list_ascii_of_string In]; auto 10.
Defined.
